(** * AgentCli demo project: the minigtest harness and the calculator heap

    A shallow embedding of
      - [demo_c_project/third_party/minigtest/gtest.h] and [gtest.cpp]
        (namespace [testing]: the registry, the ambient failure context,
        the assertion helpers, the runner and the XML report writer), and
      - the array-backed min-heap of the calculator library
        ([min_heap_insert], [min_heap_delete_min], [min_heap_peek_min]),
    followed by the properties checked against them. *)

From Stdlib Require Import ZArith String Ascii List Floats Uint63 DecimalString.
From Stdlib Require Import Sorting.Sorted Sorting.Permutation OrderedTypeEx Lia.
From stdpp Require Import base tactics option list strings gmap sorting.

Local Open Scope Z_scope.

(* ===================================================================== *)
(** * Text and machine integers *)
(* ===================================================================== *)

(** The two characters that cannot be typed inside a literal. *)
Definition dq : string := String (ascii_of_nat 34) EmptyString.
Definition nl : string := String (ascii_of_nat 10) EmptyString.

Definition cat (l : list string) : string :=
  fold_right String.append EmptyString l.

(** [std::string::rfind(prefix, 0) == 0]: the string starts with [prefix]. *)
Definition starts_with (prefix s : string) : bool := String.prefix prefix s.

(** [s.substr(n)]: everything from position [n] on ([n] within the string). *)
Fixpoint substr (n : nat) (s : string) : string :=
  match n, s with
  | O, _ => s
  | S n', String _ s' => substr n' s'
  | S _, EmptyString => EmptyString
  end.

(** [operator<] of [std::string]: lexicographic on the character codes. *)
Definition string_lt (a b : string) : Prop := String.compare a b = Lt.

(** 32-bit [int] with its wrap-around, and 64-bit [size_t]. *)
Definition INT_MAX : Z := 2147483647.
Definition wrap_int (z : Z) : Z := (z + 2 ^ 31) mod 2 ^ 32 - 2 ^ 31.
Definition wrap_size_t (z : Z) : Z := z mod 2 ^ 64.

(** [operator<<] for the integer types: decimal digits, a leading minus. *)
Definition show_Z (z : Z) : string := NilZero.string_of_int (Z.to_int z).
Definition show_nat (n : nat) : string := show_Z (Z.of_nat n).

(* ===================================================================== *)
(** * Streaming a [double] *)
(* ===================================================================== *)

(** The part of the formatting state of a [std::ostream] that the report
    writer touches.  [std::fixed] and [std::setprecision] change it for
    every later insertion into the same stream. *)
Inductive floatfield := ff_default | ff_fixed.

Record ios_fmt := { fmt_field : floatfield; fmt_precision : nat }.

Definition ios_init : ios_fmt := {| fmt_field := ff_default; fmt_precision := 6 |}.
Definition set_fixed (f : ios_fmt) : ios_fmt :=
  {| fmt_field := ff_fixed; fmt_precision := fmt_precision f |}.
Definition setprecision (p : nat) (f : ios_fmt) : ios_fmt :=
  {| fmt_field := fmt_field f; fmt_precision := p |}.

(** Conversion of an integer count to [double] (round to nearest). *)
Definition double_of_Z (z : Z) : float :=
  if z <? 0 then PrimFloat.opp (PrimFloat.of_uint63 (Uint63.of_Z (- z)))
  else PrimFloat.of_uint63 (Uint63.of_Z z).

Definition double_1000 : float := double_of_Z 1000.

(** Exact decimal conversion, as [printf] does it: the binary value
    [m * 2^e] is a fraction [num / den]; decimal digits are obtained by
    rounding that fraction to nearest, ties to even. *)
Definition frac_of (m : positive) (e : Z) : Z * Z :=
  if 0 <=? e then (Z.pos m * 2 ^ e, 1) else (Z.pos m, 2 ^ (- e)).

Definition round_half_even (num den : Z) : Z :=
  let q := num / den in
  match (2 * (num mod den) ?= den) with
  | Lt => q
  | Gt => q + 1
  | Eq => if Z.even q then q else q + 1
  end.

(** [k] decimal digits of [n], most significant first, zero padded. *)
Fixpoint digits (k : nat) (n : Z) : string :=
  match k with
  | O => EmptyString
  | S k' => String.append (digits k' (n / 10)) (show_Z (n mod 10))
  end.

Fixpoint zeros (k : nat) : string :=
  match k with O => EmptyString | S k' => String "0" (zeros k') end.

(** Removal of the trailing zeros of a digit string. *)
Fixpoint strip_zeros (s : string) : string :=
  match s with
  | EmptyString => EmptyString
  | String c s' =>
      match strip_zeros s' with
      | EmptyString => if Ascii.eqb c "0" then EmptyString else String c EmptyString
      | t => String c t
      end
  end.

Definition with_point (int_part frac_part : string) : string :=
  match frac_part with
  | EmptyString => int_part
  | _ => cat [int_part; "."; frac_part]
  end.

Definition sign_text (s : bool) : string := if s then "-"%string else EmptyString.

(** Style [%.<prec>f]. *)
Definition render_fixed (prec : nat) (x : float) : string :=
  match Prim2SF x with
  | S754_zero s => String.append (sign_text s) (with_point "0" (zeros prec))
  | S754_infinity s => String.append (sign_text s) "inf"
  | S754_nan => "nan"%string
  | S754_finite s m e =>
      let '(num, den) := frac_of m e in
      let n := round_half_even (num * 10 ^ Z.of_nat prec) den in
      String.append (sign_text s)
        (with_point (show_Z (n / 10 ^ Z.of_nat prec))
                    (digits prec (n mod 10 ^ Z.of_nat prec)))
  end.

(** The decimal exponent of a positive fraction: the [X] with
    [10^X <= num/den < 10^(X+1)]. *)
Fixpoint neg_exponent (fuel : nat) (j : Z) (num den : Z) : Z :=
  match fuel with
  | O => - j
  | S fuel' => if den <=? num * 10 ^ j then - j else neg_exponent fuel' (j + 1) num den
  end.

Definition exponent10 (num den : Z) : Z :=
  if den <=? num then Z.of_nat (String.length (show_Z (num / den))) - 1
  else neg_exponent 400 1 num den.

Definition show_exponent (x : Z) : string :=
  cat [ if x <? 0 then "-"%string else "+"%string;
        if Z.abs x <? 10 then "0"%string else EmptyString;
        show_Z (Z.abs x) ].

(** Style [%.<prec>g]: [P] significant digits, style [f] when the exponent
    [X] satisfies [-4 <= X < P] and style [e] otherwise, trailing zeros
    removed. *)
Definition render_general (prec : nat) (x : float) : string :=
  let P := match prec with O => 1%nat | _ => prec end in
  match Prim2SF x with
  | S754_zero s => String.append (sign_text s) "0"
  | S754_infinity s => String.append (sign_text s) "inf"
  | S754_nan => "nan"%string
  | S754_finite s m e =>
      let '(num, den) := frac_of m e in
      let X0 := exponent10 num den in
      let sc := Z.of_nat P - 1 - X0 in
      let n0 := if 0 <=? sc then round_half_even (num * 10 ^ sc) den
                else round_half_even num (den * 10 ^ (- sc)) in
      let '(X, n) := if 10 ^ Z.of_nat P <=? n0 then (X0 + 1, n0 / 10) else (X0, n0) in
      let D := digits P n in
      String.append (sign_text s)
        (if (-4 <=? X) && (X <? Z.of_nat P) then
           if 0 <=? X then
             with_point (substring 0 (Z.to_nat X + 1) D)
                        (strip_zeros (substr (Z.to_nat X + 1) D))
           else
             with_point "0" (String.append (zeros (Z.to_nat (- X - 1))) (strip_zeros D))
         else
           String.append (with_point (substring 0 1 D) (strip_zeros (substr 1 D)))
                         (String.append "e" (show_exponent X)))
  end.

(** [out << x] for a [double] under the stream's current format. *)
Definition show_double (f : ios_fmt) (x : float) : string :=
  match fmt_field f with
  | ff_default => render_general (fmt_precision f) x
  | ff_fixed => render_fixed (fmt_precision f) x
  end.

(* ===================================================================== *)
(** * minigtest: [gtest.h] and [gtest.cpp], namespace [testing] *)
(* ===================================================================== *)

Module testing.

(** ** Declarations of [gtest.h] *)

Record AssertionRecord := {
  fatal : bool;
  message : string;
  file : string;
  line : Z
}.

(** What a test body can throw: the abort sentinel, any other exception
    derived from [std::exception] (with its [what()]), or an object of a
    type outside that hierarchy. *)
Inductive exn :=
| AssertionException
| std_exception (what : string)
| non_standard_exception.

(** Operand types of the comparison templates: values with [==] and [<<]. *)
Class Streamable (A : Type) := { equal : A -> A -> bool; put : A -> string }.

#[export] Instance Streamable_int : Streamable Z := {| equal := Z.eqb; put := show_Z |}.

(** A test body is a sequence of statements: the eight assertion macros
    (their operands already evaluated; [__FILE__] and [__LINE__] explicit),
    a [throw], or a call into the subject under test, which leaves the
    observable mark [tag] behind. *)
Inductive stmt :=
| EXPECT_EQ (a b : Z) (a_expr b_expr : string) (file : string) (line : Z)
| ASSERT_EQ (a b : Z) (a_expr b_expr : string) (file : string) (line : Z)
| EXPECT_NE (a b : Z) (a_expr b_expr : string) (file : string) (line : Z)
| ASSERT_NE (a b : Z) (a_expr b_expr : string) (file : string) (line : Z)
| EXPECT_TRUE (cond : bool) (expr : string) (file : string) (line : Z)
| ASSERT_TRUE (cond : bool) (expr : string) (file : string) (line : Z)
| EXPECT_FALSE (cond : bool) (expr : string) (file : string) (line : Z)
| ASSERT_FALSE (cond : bool) (expr : string) (file : string) (line : Z)
| THROW (e : exn)
| CALL (tag : nat).

Record TestInfo := {
  suite : string;
  name : string;
  func : list stmt
}.

(** ** State of the translation unit [gtest.cpp] and of the process *)

Record TestContext := { failures : list AssertionRecord }.

Record World := {
  Registry : list TestInfo;              (* the function-local static vector *)
  current_context : option TestContext;  (* the thread_local pointer; None is nullptr *)
  g_output_path : string;
  cout : string;
  cerr : string;
  files : gmap string string;            (* regular files and their contents *)
  directories : gset string;
  marks : list nat                       (* effects left by the CALL statements *)
}.

(** What the run cannot decide by itself: the clock and the file system. *)
Record Env := {
  elapsed_ms : nat -> Z;                  (* whole milliseconds measured around test i *)
  parent_path : string -> string;         (* fs::path(p).parent_path() *)
  can_create_directories : string -> bool;
  filesystem_error_what : string -> string;
  can_open : string -> bool
}.

Definition set_Registry (r : list TestInfo) (w : World) : World :=
  {| Registry := r; current_context := current_context w;
     g_output_path := g_output_path w; cout := cout w; cerr := cerr w;
     files := files w; directories := directories w; marks := marks w |}.

Definition set_current_context (c : option TestContext) (w : World) : World :=
  {| Registry := Registry w; current_context := c;
     g_output_path := g_output_path w; cout := cout w; cerr := cerr w;
     files := files w; directories := directories w; marks := marks w |}.

Definition set_g_output_path (p : string) (w : World) : World :=
  {| Registry := Registry w; current_context := current_context w;
     g_output_path := p; cout := cout w; cerr := cerr w;
     files := files w; directories := directories w; marks := marks w |}.

Definition to_cout (s : string) (w : World) : World :=
  {| Registry := Registry w; current_context := current_context w;
     g_output_path := g_output_path w; cout := String.append (cout w) s; cerr := cerr w;
     files := files w; directories := directories w; marks := marks w |}.

Definition to_cerr (s : string) (w : World) : World :=
  {| Registry := Registry w; current_context := current_context w;
     g_output_path := g_output_path w; cout := cout w; cerr := String.append (cerr w) s;
     files := files w; directories := directories w; marks := marks w |}.

Definition write_file (p content : string) (w : World) : World :=
  {| Registry := Registry w; current_context := current_context w;
     g_output_path := g_output_path w; cout := cout w; cerr := cerr w;
     files := <[p := content]> (files w); directories := directories w; marks := marks w |}.

Definition make_directories (p : string) (w : World) : World :=
  {| Registry := Registry w; current_context := current_context w;
     g_output_path := g_output_path w; cout := cout w; cerr := cerr w;
     files := files w; directories := {[p]} ∪ directories w; marks := marks w |}.

Definition leave_mark (tag : nat) (w : World) : World :=
  {| Registry := Registry w; current_context := current_context w;
     g_output_path := g_output_path w; cout := cout w; cerr := cerr w;
     files := files w; directories := directories w; marks := marks w ++ [tag] |}.

(** ** Computations that may throw *)

Inductive outcome (A : Type) :=
| Normal (a : A)
| Raised (e : exn).
Arguments Normal {A} a.
Arguments Raised {A} e.

Definition M (A : Type) : Type := World -> outcome A * World.

Definition ret {A} (a : A) : M A := fun w => (Normal a, w).

Definition bind {A B} (m : M A) (k : A -> M B) : M B :=
  fun w =>
    match m w with
    | (Normal a, w') => k a w'
    | (Raised e, w') => (Raised e, w')
    end.

Definition throw {A} (e : exn) : M A := fun w => (Raised e, w).

Definition modify (f : World -> World) : M unit := fun w => (Normal tt, f w).

Notation "x <- m ;; k" := (bind m (fun x => k))
  (at level 100, m at next level, right associativity).
Notation "m ;;; k" := (bind m (fun _ => k))
  (at level 100, right associativity).

(** ** [TestRegistrar::TestRegistrar] *)

Definition TestRegistrar (suite name : string) (func : list stmt) : M unit :=
  modify (fun w => set_Registry (Registry w ++ [{| suite := suite; name := name; func := func |}]) w).

(** ** [AddFailure] *)

Definition AddFailure (file : string) (line : Z) (message : string) (fatal : bool) : M unit :=
  fun w =>
    match current_context w with
    | None => (Normal tt, w)
    | Some ctx =>
        let w' := set_current_context
                    (Some {| failures := failures ctx ++
                               [{| fatal := fatal; message := message; file := file; line := line |}] |}) w in
        if fatal then (Raised AssertionException, w') else (Normal tt, w')
    end.

(** ** The assertion helpers of [gtest.h] *)

Definition ExpectEqual {A} `{Streamable A} (a b : A) (a_expr b_expr file : string)
    (line : Z) (fatal : bool) : M unit :=
  if equal a b then ret tt
  else AddFailure file line
         (cat ["Expected equality of these values:"; nl; "  "; a_expr; nl;
               "    Which is: "; put a; nl; "  "; b_expr; nl; "    Which is: "; put b])
         fatal.

Definition ExpectNotEqual {A} `{Streamable A} (a b : A) (a_expr b_expr file : string)
    (line : Z) (fatal : bool) : M unit :=
  if negb (equal a b) then ret tt
  else AddFailure file line
         (cat ["Expected inequality of these values:"; nl; "  "; a_expr; nl;
               "    Which is: "; put a; nl; "  "; b_expr; nl; "    Which is: "; put b])
         fatal.

Definition ExpectTrue (cond : bool) (expr file : string) (line : Z) (fatal : bool) : M unit :=
  if cond then ret tt
  else AddFailure file line (cat ["Expected: "; expr; " is true"]) fatal.

(** The macros, and the execution of a body. *)
Definition exec_stmt (s : stmt) : M unit :=
  match s with
  | EXPECT_EQ a b ea eb f l => ExpectEqual a b ea eb f l false
  | ASSERT_EQ a b ea eb f l => ExpectEqual a b ea eb f l true
  | EXPECT_NE a b ea eb f l => ExpectNotEqual a b ea eb f l false
  | ASSERT_NE a b ea eb f l => ExpectNotEqual a b ea eb f l true
  | EXPECT_TRUE c e f l => ExpectTrue c e f l false
  | ASSERT_TRUE c e f l => ExpectTrue c e f l true
  | EXPECT_FALSE c e f l => ExpectTrue (negb c) e f l false
  | ASSERT_FALSE c e f l => ExpectTrue (negb c) e f l true
  | THROW e => throw e
  | CALL tag => modify (leave_mark tag)
  end.

Fixpoint run_body (body : list stmt) : M unit :=
  match body with
  | [] => ret tt
  | s :: rest => exec_stmt s ;;; run_body rest
  end.

(** ** [InitGoogleTest] *)

Definition output_prefix : string := "--gtest_output=xml:".

Fixpoint InitGoogleTest_loop (args : list string) : M unit :=
  match args with
  | [] => ret tt
  | arg :: rest =>
      (if starts_with output_prefix arg
       then modify (set_g_output_path (substr (String.length output_prefix) arg))
       else ret tt) ;;;
      InitGoogleTest_loop rest
  end.

(** The loop starts at index 1: [argv[0]] is never looked at. *)
Definition InitGoogleTest (argv : list string) : M unit :=
  InitGoogleTest_loop (tl argv).

(** ** [WriteXmlReport] *)

(** [std::map<std::string, std::vector<size_t>>]: the entries are kept, and
    iterated, in increasing key order.  [suite_map[k].push_back(i)]. *)
Definition suite_map_t : Type := list (string * list nat).

Fixpoint map_push_back (k : string) (i : nat) (m : suite_map_t) : suite_map_t :=
  match m with
  | [] => [(k, [i])]
  | (k', v) :: m' =>
      match String.compare k k' with
      | Lt => (k, [i]) :: (k', v) :: m'
      | Eq => (k', v ++ [i]) :: m'
      | Gt => (k', v) :: map_push_back k i m'
      end
  end.

(** The first loop, from index [i] on. *)
Fixpoint fill_suite_map (i : nat) (tests : list TestInfo) (m : suite_map_t) : suite_map_t :=
  match tests with
  | [] => m
  | t :: rest => fill_suite_map (S i) rest (map_push_back (suite t) i m)
  end.

Definition build_suite_map (tests : list TestInfo) : suite_map_t :=
  fill_suite_map 0 tests [].

(** Vector subscripts; the report writer only uses indices taken from [tests]. *)
Definition no_test : TestInfo := {| suite := EmptyString; name := EmptyString; func := [] |}.
Definition test_at (tests : list TestInfo) (idx : nat) : TestInfo := nth idx tests no_test.
Definition failures_at (all_failures : list (list AssertionRecord)) (idx : nat) :
  list AssertionRecord := nth idx all_failures [].
Definition duration_at (durations_ms : list float) (idx : nat) : float :=
  nth idx durations_ms PrimFloat.zero.

(** [acc += static_cast<int>(f.size())] on [int]. *)
Definition add_size (acc : Z) (f : list AssertionRecord) : Z :=
  wrap_int (acc + wrap_int (Z.of_nat (length f))).

Definition total_failures (all_failures : list (list AssertionRecord)) : Z :=
  fold_left add_size all_failures 0.

Definition suite_failures (all_failures : list (list AssertionRecord)) (indices : list nat) : Z :=
  fold_left (fun acc idx => add_size acc (failures_at all_failures idx)) indices 0.

Definition seconds (ms : float) : float := PrimFloat.div ms double_1000.

Definition suite_time (durations_ms : list float) (indices : list nat) : float :=
  fold_left (fun acc idx => PrimFloat.add acc (seconds (duration_at durations_ms idx)))
            indices PrimFloat.zero.

(** The pieces of text, attribute values as arguments. *)
Definition xml_declaration : string :=
  cat ["<?xml version="; dq; "1.0"; dq; " encoding="; dq; "UTF-8"; dq; "?>"; nl].

Definition testsuites_open (tests : nat) (failures : Z) : string :=
  cat ["<testsuites tests="; dq; show_nat tests; dq; " failures="; dq; show_Z failures;
       dq; " disabled="; dq; "0"; dq; " errors="; dq; "0"; dq; ">"; nl].

Definition testsuite_open (suite : string) (tests : nat) (failures : Z) (time : string) : string :=
  cat ["  <testsuite name="; dq; suite; dq; " tests="; dq; show_nat tests;
       dq; " failures="; dq; show_Z failures; dq; " disabled="; dq; "0"; dq;
       " errors="; dq; "0"; dq; " time="; dq; time; dq; ">"; nl].

Definition testcase_open (name result time suite : string) : string :=
  cat ["    <testcase name="; dq; name; dq; " status="; dq; "run"; dq; " result="; dq;
       result; dq; " time="; dq; time; dq; " classname="; dq; suite; dq; ">"].

Definition failure_element (fail : AssertionRecord) : string :=
  cat ["      <failure message="; dq; message fail; dq; " type="; dq; dq; ">"; nl;
       file fail; ":"; show_Z (line fail); nl;
       message fail; nl;
       "      </failure>"; nl].

Definition result_of (fs : list AssertionRecord) : string :=
  match fs with [] => "completed"%string | _ => "failed"%string end.

Section Report.
Variable tests : list TestInfo.
Variable all_failures : list (list AssertionRecord).
Variable durations_ms : list float.

(** One [testcase] element.  The manipulators [std::fixed] and
    [std::setprecision(3)] are inserted just before the time, and stay
    in force on the stream afterwards. *)
Definition emit_testcase (suite : string) (fmt : ios_fmt) (idx : nat) : string * ios_fmt :=
  let t := test_at tests idx in
  let fmt' := setprecision 3 (set_fixed fmt) in
  (cat [testcase_open (name t) (result_of (failures_at all_failures idx))
          (show_double fmt' (seconds (duration_at durations_ms idx))) suite;
        match failures_at all_failures idx with
        | [] => cat ["</testcase>"; nl]
        | fs => cat [nl; cat (map failure_element fs); "    </testcase>"; nl]
        end],
   fmt').

Fixpoint emit_testcases (suite : string) (fmt : ios_fmt) (indices : list nat) : string * ios_fmt :=
  match indices with
  | [] => (EmptyString, fmt)
  | idx :: rest =>
      let '(s1, fmt1) := emit_testcase suite fmt idx in
      let '(s2, fmt2) := emit_testcases suite fmt1 rest in
      (String.append s1 s2, fmt2)
  end.

(** One [testsuite] element; its own time is streamed under the format
    the stream has on entry. *)
Definition emit_testsuite (fmt : ios_fmt) (entry : string * list nat) : string * ios_fmt :=
  let '(suite, indices) := entry in
  let '(cases, fmt') := emit_testcases suite fmt indices in
  (cat [testsuite_open suite (length indices) (suite_failures all_failures indices)
          (show_double fmt (suite_time durations_ms indices));
        cases;
        "  </testsuite>"; nl],
   fmt').

Fixpoint emit_testsuites (fmt : ios_fmt) (m : suite_map_t) : string * ios_fmt :=
  match m with
  | [] => (EmptyString, fmt)
  | entry :: rest =>
      let '(s1, fmt1) := emit_testsuite fmt entry in
      let '(s2, fmt2) := emit_testsuites fmt1 rest in
      (String.append s1 s2, fmt2)
  end.

(** Everything streamed into the freshly opened [std::ofstream]. *)
Definition report_text : string :=
  cat [xml_declaration;
       testsuites_open (length tests) (total_failures all_failures);
       fst (emit_testsuites ios_init (build_suite_map tests));
       "</testsuites>"; nl].

Definition WriteXmlReport (env : Env) : M unit :=
  fun w =>
    match g_output_path w with
    | EmptyString => (Normal tt, w)
    | _ =>
        let dir := parent_path env (g_output_path w) in
        if can_create_directories env dir then
          let w1 := make_directories dir w in
          if can_open env (g_output_path w1) then
            (Normal tt, write_file (g_output_path w1) report_text w1)
          else
            (Normal tt,
             to_cerr (cat ["Warning: failed to write XML report to "; g_output_path w1; nl]) w1)
        else
          (Raised (std_exception (filesystem_error_what env dir)), w)
    end.
End Report.

(** ** [RunAllTests] *)

Record run_state := {
  failed : Z;
  all_failures : list (list AssertionRecord);
  durations_ms : list float
}.

(** The [try] block around [test.func()] and its three handlers.  A handler
    runs outside the [try] block: what it throws is not caught here. *)
Definition guarded_body (test : TestInfo) : M unit :=
  fun w =>
    match run_body (func test) w with
    | (Normal tt, w') => (Normal tt, w')
    | (Raised AssertionException, w') => (Normal tt, w')
    | (Raised (std_exception what), w') =>
        AddFailure "unknown" 0 (String.append "Unhandled exception: " what) true w'
    | (Raised non_standard_exception, w') =>
        AddFailure "unknown" 0 "Unhandled non-standard exception" true w'
    end.

(** [ctx.failures], read through the context installed for the test. *)
Definition ctx_failures (w : World) : list AssertionRecord :=
  match current_context w with
  | Some ctx => failures ctx
  | None => []
  end.

Definition failure_line (f : AssertionRecord) : string :=
  cat [file f; ":"; show_Z (line f); ": "; message f; nl].

(** One iteration of the loop over the registry. *)
Definition run_test (env : Env) (i : nat) (test : TestInfo) (st : run_state) : M run_state :=
  modify (to_cout (cat ["[ RUN      ] "; suite test; "."; name test; nl])) ;;;
  modify (set_current_context (Some {| failures := [] |})) ;;;
  guarded_body test ;;;
  fun w =>
    let ms := double_of_Z (elapsed_ms env i) in
    let recorded := ctx_failures w in
    let w1 := set_current_context None w in
    let st1 := {| failed := failed st;
                  all_failures := <[i := recorded]> (all_failures st);
                  durations_ms := <[i := ms]> (durations_ms st) |} in
    match recorded with
    | [] =>
        (Normal st1,
         to_cout (cat ["[       OK ] "; suite test; "."; name test; " (";
                       show_double ios_init ms; " ms)"; nl]) w1)
    | _ =>
        (Normal {| failed := wrap_int (failed st + 1);
                   all_failures := all_failures st1;
                   durations_ms := durations_ms st1 |},
         to_cout (cat (cat ["[  FAILED  ] "; suite test; "."; name test; " (";
                            show_double ios_init ms; " ms)"; nl]
                       :: map failure_line recorded)) w1)
    end.

Fixpoint run_tests (env : Env) (i : nat) (tests : list TestInfo) (st : run_state) : M run_state :=
  match tests with
  | [] => ret st
  | test :: rest => st' <- run_test env i test st ;; run_tests env (S i) rest st'
  end.

Definition failed_listing (tests : list TestInfo) (all_failures : list (list AssertionRecord)) : string :=
  cat (imap (fun i t =>
               match failures_at all_failures i with
               | [] => EmptyString
               | _ => cat ["[  FAILED  ] "; suite t; "."; name t; nl]
               end) tests).

Definition RunAllTests (env : Env) : M Z :=
  fun w =>
    let tests := Registry w in
    let n := length tests in
    (modify (to_cout (cat ["[==========] Running "; show_nat n; " tests from ";
                           show_nat n; " test suites."; nl])) ;;;
     modify (to_cout (cat ["[----------] Global test environment set-up."; nl])) ;;;
     st <- run_tests env 0 tests
             {| failed := 0; all_failures := replicate n [];
                durations_ms := replicate n PrimFloat.zero |} ;;
     modify (to_cout (cat ["[----------] Global test environment tear-down"; nl])) ;;;
     modify (to_cout (cat ["[==========] "; show_nat n; " tests ran."; nl])) ;;;
     modify (to_cout (cat ["[  PASSED  ] "; show_Z (wrap_size_t (Z.of_nat n - failed st));
                           " tests."; nl])) ;;;
     (if 0 <? failed st
      then modify (to_cout (cat [cat ["[  FAILED  ] "; show_Z (failed st); " tests, listed below:"; nl];
                                 failed_listing tests (all_failures st)]))
      else ret tt) ;;;
     WriteXmlReport tests (all_failures st) (durations_ms st) env ;;;
     ret (if failed st =? 0 then 0 else 1)) w.

(** ** [GTEST_MAIN]: the process *)

Inductive process_result :=
| Exited (status : Z)
| Terminated (uncaught : exn).   (* std::terminate *)

Definition main (env : Env) (argv : list string) (w : World) : process_result * World :=
  match (InitGoogleTest argv ;;; RunAllTests env) w with
  | (Normal status, w') => (Exited status, w')
  | (Raised e, w') => (Terminated e, w')
  end.

(** The process image before [main]: the registrars have filled the
    registry, nothing else has happened; [disk] and [dirs] are what the
    file system holds. *)
Definition startup (registered : list TestInfo) (disk : gmap string string)
    (dirs : gset string) : World :=
  {| Registry := registered; current_context := None; g_output_path := EmptyString;
     cout := EmptyString; cerr := EmptyString; files := disk; directories := dirs; marks := [] |}.

End testing.

(* ===================================================================== *)
(** * The calculator library: the array-backed min-heap *)
(* ===================================================================== *)

Module calculator.

(** Undefined behaviour (a signed overflow, an access outside the block,
    a null dereference) is [None]; so is a loop that exceeds the number of
    iterations it is given. *)

(** The result of an [int] operation whose mathematical value is [z]. *)
Definition int_op (z : Z) : option Z :=
  if (- 2 ^ 31 <=? z) && (z <=? INT_MAX) then Some z else None.

(** [heap[i]] as an rvalue and [heap[i] = v], on a block of [int]s. *)
Definition load (heap : list Z) (i : Z) : option Z :=
  if 0 <=? i then heap !! Z.to_nat i else None.

Definition store (heap : list Z) (i v : Z) : option (list Z) :=
  if (0 <=? i) && (i <? Z.of_nat (length heap))
  then Some (<[Z.to_nat i := v]> heap)
  else None.

(** [static void heap_sift_up(int* heap, int idx)] *)
Fixpoint heap_sift_up_loop (fuel : nat) (heap : list Z) (idx : Z) : option (list Z) :=
  match fuel with
  | O => None
  | S fuel' =>
      if 0 <? idx then
        d ← int_op (idx - 1);
        parent ← int_op (Z.quot d 2);
        hp ← load heap parent;
        hi ← load heap idx;
        if hp <=? hi then Some heap
        else
          heap1 ← store heap parent hi;
          heap2 ← store heap1 idx hp;
          heap_sift_up_loop fuel' heap2 parent
      else Some heap
  end.

Definition heap_sift_up (heap : list Z) (idx : Z) : option (list Z) :=
  heap_sift_up_loop (S (Z.to_nat idx)) heap idx.

(** [static void heap_sift_down(int* heap, int size, int idx)] *)
Fixpoint heap_sift_down_loop (fuel : nat) (heap : list Z) (size idx : Z) : option (list Z) :=
  match fuel with
  | O => None
  | S fuel' =>
      l2 ← int_op (idx * 2);
      left ← int_op (l2 + 1);
      r2 ← int_op (idx * 2);
      right ← int_op (r2 + 2);
      smallest1 ←
        (if left <? size then
           hl ← load heap left;
           hs ← load heap idx;
           Some (if hl <? hs then left else idx)
         else Some idx);
      smallest ←
        (if right <? size then
           hr ← load heap right;
           hs ← load heap smallest1;
           Some (if hr <? hs then right else smallest1)
         else Some smallest1);
      if smallest =? idx then Some heap
      else
        tmp ← load heap smallest;
        hi ← load heap idx;
        heap1 ← store heap smallest hi;
        heap2 ← store heap1 idx tmp;
        heap_sift_down_loop fuel' heap2 size smallest
  end.

Definition heap_sift_down (heap : list Z) (size idx : Z) : option (list Z) :=
  heap_sift_down_loop (S (Z.to_nat size)) heap size idx.

(** The caller's three variables: the pointer ([None] is [NULL], otherwise
    the block it points to), the size and the capacity. *)
Record queue := {
  heap : option (list Z);
  size : Z;
  capacity : Z
}.

Section Allocation.
(** What a cell holds before it is first written.  The allocator is
    assumed not to fail. *)
Variable indeterminate : Z.

Definition malloc (count : Z) : list Z := replicate (Z.to_nat count) indeterminate.

Definition realloc (old : option (list Z)) (count : Z) : list Z :=
  match old with
  | None => malloc count
  | Some block =>
      take (Z.to_nat count) block ++ malloc (count - Z.of_nat (length block))
  end.

(** [void min_heap_insert(int** heap, int* size, int* capacity, int value)] *)
Definition min_heap_insert (q : queue) (value : Z) : option queue :=
  q1 ←
    (if capacity q =? 0 then
       Some {| heap := Some (malloc 10); size := size q; capacity := 10 |}
     else if capacity q <=? size q then
       c ← int_op (capacity q * 2);
       Some {| heap := Some (realloc (heap q) c); size := size q; capacity := c |}
     else Some q);
  block ← heap q1;
  block1 ← store block (size q1) value;
  size1 ← int_op (size q1 + 1);
  last ← int_op (size1 - 1);
  block2 ← heap_sift_up block1 last;
  Some {| heap := Some block2; size := size1; capacity := capacity q1 |}.

Fixpoint insert_all (q : queue) (values : list Z) : option queue :=
  match values with
  | [] => Some q
  | v :: rest => q' ← min_heap_insert q v; insert_all q' rest
  end.
End Allocation.

(** [int min_heap_delete_min(int** heap, int* size)] *)
Definition min_heap_delete_min (q : queue) : option (Z * queue) :=
  if size q =? 0 then Some (-1, q)
  else
    block ← heap q;
    min ← load block 0;
    last ← int_op (size q - 1);
    v ← load block last;
    block1 ← store block 0 v;
    size1 ← int_op (size q - 1);
    block2 ← (if 0 <? size1 then heap_sift_down block1 size1 0 else Some block1);
    Some (min, {| heap := Some block2; size := size1; capacity := capacity q |}).

(** [int min_heap_peek_min(int* heap, int size)] *)
Definition min_heap_peek_min (heap : option (list Z)) (size : Z) : option Z :=
  if size =? 0 then Some (-1)
  else block ← heap; load block 0.

(** [void destroy_queue(int** heap, int* size, int* capacity)], called
    with the addresses of the three variables. *)
Definition destroy_queue (q : queue) : queue :=
  {| heap := None; size := 0; capacity := 0 |}.

(** The initial variables of a caller: [heap = NULL, size = 0, capacity = 0]. *)
Definition empty_queue : queue := {| heap := None; size := 0; capacity := 0 |}.

(** [n] successive calls of [min_heap_delete_min], collecting the results. *)
Fixpoint delete_n (n : nat) (q : queue) : option (list Z * queue) :=
  match n with
  | O => Some ([], q)
  | S n' =>
      '(m, q1) ← min_heap_delete_min q;
      '(rest, q2) ← delete_n n' q1;
      Some (m :: rest, q2)
  end.

(** *** Vocabulary of the heap properties *)

Definition val (h : list Z) (i : Z) : Z := nth (Z.to_nat i) h 0.

Definition parent_of (i : Z) : Z := (i - 1) / 2.

(** The first [n] cells are heap ordered. *)
Definition heap_ordered (h : list Z) (n : Z) : Prop :=
  forall i, 0 < i < n -> val h (parent_of i) <= val h i.

(** Heap ordered except that the cell [k] may be smaller than its parent
    (the state inside [heap_sift_up]), or larger than its children (the
    state inside [heap_sift_down]). *)
Definition sift_up_inv (h : list Z) (n k : Z) : Prop :=
  (forall i, 0 < i < n -> i <> k -> val h (parent_of i) <= val h i) /\
  (forall i, 0 < i < n -> parent_of i = k -> 0 < k -> val h (parent_of k) <= val h i).

Definition sift_down_inv (h : list Z) (n k : Z) : Prop :=
  (forall i, 0 < i < n -> parent_of i <> k -> val h (parent_of i) <= val h i) /\
  (forall i, 0 < i < n -> parent_of i = k -> 0 < k -> val h (parent_of k) <= val h i).

(** The index [heap_sift_down] selects among [k] and its children. *)
Definition smallest_of (h : list Z) (n k : Z) : Z :=
  let s1 := if (2 * k + 1 <? n) && (val h (2 * k + 1) <? val h k) then 2 * k + 1 else k in
  if (2 * k + 2 <? n) && (val h (2 * k + 2) <? val h s1) then 2 * k + 2 else s1.

Definition contents (q : queue) : list Z :=
  match heap q with
  | Some h => take (Z.to_nat (size q)) h
  | None => []
  end.

(** The states the interface produces. *)
Definition wf_queue (q : queue) : Prop :=
  match heap q with
  | None => size q = 0 /\ capacity q = 0
  | Some h =>
      capacity q = Z.of_nat (length h) /\ 0 < capacity q /\
      0 <= size q <= capacity q /\ heap_ordered h (size q)
  end.

(** ** The arithmetic functions *)

(** [a / b] and [a % b] on [int]: undefined for a zero divisor and when
    the quotient is not representable. *)
Definition int_div (a b : Z) : option Z :=
  if b =? 0 then None else int_op (Z.quot a b).

Definition int_mod (a b : Z) : option Z :=
  if b =? 0 then None else _ ← int_op (Z.quot a b); Some (Z.rem a b).

(** [int add(int a, int b)], [subtract], [multiply] *)
Definition add (a b : Z) : option Z := int_op (a + b).
Definition subtract (a b : Z) : option Z := int_op (a - b).
Definition multiply (a b : Z) : option Z := int_op (a * b).

(** An [int* error] argument: [None] is a null pointer, [Some v] points to
    an [int] holding [v].  [if (error) *error = v;] *)
Definition set_error (error : option Z) (v : Z) : option Z :=
  match error with
  | None => None
  | Some _ => Some v
  end.

(** [int calculator_mod(int a, int b, int* error)]: the result and what
    the flag holds afterwards. *)
Definition calculator_mod (a b : Z) (error : option Z) : option (Z * option Z) :=
  if b =? 0 then Some (0, set_error error 1)
  else r ← int_mod a b; Some (r, set_error error 0).

(** [int divide(int a, int b, int* error)] *)
Definition divide (a b : Z) (error : option Z) : option (Z * option Z) :=
  if b =? 0 then Some (0, set_error error 1)
  else q ← int_div a b; Some (q, set_error error 0).

(** ** Sequences of calls *)

Inductive call :=
| Insert (value : Z)
| DeleteMin
| PeekMin.

(** One call and what it returns ([None] for the [void] insertion). *)
Definition do_call (indeterminate : Z) (q : queue) (c : call) : option (option Z * queue) :=
  match c with
  | Insert v => q' ← min_heap_insert indeterminate q v; Some (None, q')
  | DeleteMin => '(m, q') ← min_heap_delete_min q; Some (Some m, q')
  | PeekMin => m ← min_heap_peek_min (heap q) (size q); Some (Some m, q)
  end.

Fixpoint do_calls (indeterminate : Z) (q : queue) (cs : list call) :
    option (list (option Z) * queue) :=
  match cs with
  | [] => Some ([], q)
  | c :: rest =>
      '(r, q1) ← do_call indeterminate q c;
      '(rs, q2) ← do_calls indeterminate q1 rest;
      Some (r :: rs, q2)
  end.

(** [while (size > 0) out.push_back(min_heap_delete_min(&heap, &size));] *)
Fixpoint drain_loop (fuel : nat) (q : queue) : option (list Z * queue) :=
  match fuel with
  | O => None
  | S fuel' =>
      if 0 <? size q then
        '(m, q1) ← min_heap_delete_min q;
        '(rest, q2) ← drain_loop fuel' q1;
        Some (m :: rest, q2)
      else Some ([], q)
  end.

Definition drain (q : queue) : option (list Z * queue) :=
  drain_loop (S (Z.to_nat (size q))) q.

(** The reference the heap is compared with: a sorted list. *)
Fixpoint sorted_insert (v : Z) (l : list Z) : list Z :=
  match l with
  | [] => [v]
  | x :: rest => if v <=? x then v :: l else x :: sorted_insert v rest
  end.

Definition sort_ints (l : list Z) : list Z := fold_right sorted_insert [] l.

Definition ref_call (l : list Z) (c : call) : option Z * list Z :=
  match c with
  | Insert v => (None, sorted_insert v l)
  | DeleteMin => match l with [] => (Some (-1), []) | x :: rest => (Some x, rest) end
  | PeekMin => (Some (hd (-1) l), l)
  end.

Fixpoint ref_calls (l : list Z) (cs : list call) : list (option Z) * list Z :=
  match cs with
  | [] => ([], l)
  | c :: rest =>
      let '(r, l1) := ref_call l c in
      let '(rs, l2) := ref_calls l1 rest in
      (r :: rs, l2)
  end.

(** The capacities [min_heap_insert] produces. *)
Definition grown_capacity (q : queue) : Z :=
  if capacity q =? 0 then 10
  else if capacity q <=? size q then capacity q * 2
  else capacity q.

(** What the capacity is while values are only inserted. *)
Definition capacity_bounded (q : queue) : Prop :=
  (capacity q = 0 /\ size q = 0) \/
  ((exists k, 0 <= k /\ capacity q = 10 * 2 ^ k) /\
   size q <= capacity q <= Z.max 10 (2 * size q - 2)).

End calculator.

(* ===================================================================== *)
(** * Vocabulary of the harness properties *)
(* ===================================================================== *)

Import testing.

(** A statement that completes without recording anything and without
    throwing: a satisfied assertion or a call. *)
Definition passes (s : stmt) : bool :=
  match s with
  | EXPECT_EQ a b _ _ _ _ | ASSERT_EQ a b _ _ _ _ => a =? b
  | EXPECT_NE a b _ _ _ _ | ASSERT_NE a b _ _ _ _ => negb (a =? b)
  | EXPECT_TRUE c _ _ _ | ASSERT_TRUE c _ _ _ => c
  | EXPECT_FALSE c _ _ _ | ASSERT_FALSE c _ _ _ => negb c
  | THROW _ => false
  | CALL _ => true
  end.

Definition is_assertion (s : stmt) : bool :=
  match s with
  | THROW _ | CALL _ => false
  | _ => true
  end.

Definition is_fatal_assertion (s : stmt) : bool :=
  match s with
  | ASSERT_EQ _ _ _ _ _ _ | ASSERT_NE _ _ _ _ _ _
  | ASSERT_TRUE _ _ _ _ | ASSERT_FALSE _ _ _ _ => true
  | _ => false
  end.

(** Where an assertion statement stands in the source. *)
Definition site (s : stmt) : string * Z :=
  match s with
  | EXPECT_EQ _ _ _ _ f l | ASSERT_EQ _ _ _ _ f l
  | EXPECT_NE _ _ _ _ f l | ASSERT_NE _ _ _ _ f l
  | EXPECT_TRUE _ _ f l | ASSERT_TRUE _ _ f l
  | EXPECT_FALSE _ _ f l | ASSERT_FALSE _ _ f l => (f, l)
  | _ => (EmptyString, 0)
  end.

(** The record an assertion statement leaves when its check fails, in the
    message formats of [gtest.h]. *)
Definition failure_message (s : stmt) : string :=
  match s with
  | EXPECT_EQ a b ea eb _ _ | ASSERT_EQ a b ea eb _ _ =>
      cat ["Expected equality of these values:"; nl; "  "; ea; nl;
           "    Which is: "; show_Z a; nl; "  "; eb; nl; "    Which is: "; show_Z b]
  | EXPECT_NE a b ea eb _ _ | ASSERT_NE a b ea eb _ _ =>
      cat ["Expected inequality of these values:"; nl; "  "; ea; nl;
           "    Which is: "; show_Z a; nl; "  "; eb; nl; "    Which is: "; show_Z b]
  | EXPECT_TRUE _ e _ _ | ASSERT_TRUE _ e _ _
  | EXPECT_FALSE _ e _ _ | ASSERT_FALSE _ e _ _ => cat ["Expected: "; e; " is true"]
  | _ => EmptyString
  end.

Definition failure_record (s : stmt) : AssertionRecord :=
  {| fatal := is_fatal_assertion s; message := failure_message s;
     file := fst (site s); line := snd (site s) |}.

(** The marks a run of statements leaves when every one of them is executed. *)
Definition call_marks (body : list stmt) : list nat :=
  flat_map (fun s => match s with CALL tag => [tag] | _ => [] end) body.

(** A body that throws nothing but the abort sentinel. *)
Definition throws_only_sentinel (body : list stmt) : bool :=
  forallb (fun s => match s with
                    | THROW AssertionException => true
                    | THROW _ => false
                    | _ => true
                    end) body.

(** The marks of several calls, in order. *)
Definition leave_marks (tags : list nat) (w : World) : World :=
  fold_left (fun w' tag => leave_mark tag w') tags w.

(** A fixed environment for the concrete runs: test [i] takes [i] times a
    second and a half, every directory can be created, every file opened;
    the parent of a relative path is what precedes its last slash. *)
Fixpoint parent_of_path (p : string) : string :=
  match p with
  | EmptyString => EmptyString
  | String c rest =>
      if existsb (Ascii.eqb "/") (list_ascii_of_string rest)
      then String c (parent_of_path rest)
      else EmptyString
  end.

Definition demo_env : Env :=
  {| elapsed_ms := fun i => Z.of_nat i * 1500;
     parent_path := parent_of_path;
     can_create_directories := fun _ => true;
     filesystem_error_what := fun p => String.append "filesystem error: cannot create directories: " p;
     can_open := fun _ => true |}.

(** The same, on a file system that refuses to create directories. *)
Definition readonly_env : Env :=
  {| elapsed_ms := elapsed_ms demo_env;
     parent_path := parent_path demo_env;
     can_create_directories := fun _ => false;
     filesystem_error_what := filesystem_error_what demo_env;
     can_open := fun _ => false |}.

(** The number of tests with at least one recorded failure. *)
Definition has_failure (f : list AssertionRecord) : bool :=
  match f with [] => false | _ => true end.

Definition count_failed (l : list (list AssertionRecord)) : nat :=
  length (List.filter has_failure l).

(** The file system and the option are the same in two states. *)
Definition same_disk (w w' : World) : Prop :=
  files w' = files w /\ directories w' = directories w /\
  g_output_path w' = g_output_path w.

Definition not_output_option (arg : string) : bool :=
  negb (starts_with output_prefix arg).

(** Concrete registries. *)
Definition adds_numbers : TestInfo :=
  {| suite := "Calculator"; name := "AddsNumbers";
     func := [EXPECT_EQ 5 5 "add(2, 3)" "5" "test_calculator.cpp" 5;
              EXPECT_EQ 0 0 "add(-1, 1)" "0" "test_calculator.cpp" 6] |}.

Definition subtracts_numbers : TestInfo :=
  {| suite := "Calculator"; name := "SubtractsNumbers";
     func := [EXPECT_EQ 2 1 "subtract(5, 3)" "1" "test_calculator.cpp" 11] |}.

Definition fatal_first : TestInfo :=
  {| suite := "Calculator"; name := "FatalFirst";
     func := [CALL 1;
              ASSERT_EQ 2 1 "subtract(5, 3)" "1" "test_calculator.cpp" 20;
              CALL 2;
              EXPECT_EQ 5 5 "add(2, 3)" "5" "test_calculator.cpp" 22] |}.

Definition throws_runtime_error : TestInfo :=
  {| suite := "Calculator"; name := "Throws";
     func := [CALL 1; THROW (std_exception "boom"); CALL 2] |}.

Definition throws_an_int : TestInfo :=
  {| suite := "Calculator"; name := "ThrowsInt";
     func := [THROW non_standard_exception] |}.

Definition heavy_load : TestInfo :=
  {| suite := "Queue"; name := "HeavyLoad";
     func := [CALL 3;
              ASSERT_EQ 1000 1000 "sorted_elements.size()" "copy.size()" "test_calculator.cpp" 27] |}.

Definition three_tests : list TestInfo := [adds_numbers; subtracts_numbers; heavy_load].

Definition three_results : list (list AssertionRecord) :=
  [[]; [failure_record (EXPECT_EQ 2 1 "subtract(5, 3)" "1" "test_calculator.cpp" 11)]; []].

Definition three_durations : list float := [double_of_Z 0; double_of_Z 1500; double_of_Z 3000].

Definition fresh_run (n : nat) : run_state :=
  {| failed := 0; all_failures := replicate n []; durations_ms := replicate n PrimFloat.zero |}.

(** The first-appearance order of the suite names of a registry. *)
Fixpoint first_appearance (names : list string) : list string :=
  match names with
  | [] => []
  | s :: rest => s :: List.filter (fun s' => negb (String.eqb s s')) (first_appearance rest)
  end.

Definition emitted_suite_order (tests : list TestInfo) : list string :=
  map fst (build_suite_map tests).

(** The indices of the tests of a suite, in registration order. *)
Definition members (s : string) (tests : list TestInfo) : list nat :=
  List.filter (fun i => String.eqb (suite (test_at tests i)) s) (seq 0 (length tests)).

(** The state of the map when the loop has gone through [done]. *)
Definition grouped (done : list TestInfo) (m : suite_map_t) : Prop :=
  StronglySorted string_lt (map fst m) /\
  (forall s idxs, In (s, idxs) m -> idxs = members s done /\ idxs <> []) /\
  (forall s, members s done <> [] -> In s (map fst m)).

Definition failure_count (all_failures : list (list AssertionRecord)) (indices : list nat) : Z :=
  Z.of_nat (list_sum (map (fun i => length (failures_at all_failures i)) indices)).

(** The format the manipulators of the [testcase] line leave behind. *)
Definition fixed3 : ios_fmt := {| fmt_field := ff_fixed; fmt_precision := 3 |}.

(** A time value with exactly three decimal digits: digits, a point, three digits. *)
Definition is_digit (c : ascii) : bool :=
  (48 <=? Z.of_nat (nat_of_ascii c)) && (Z.of_nat (nat_of_ascii c) <=? 57).

Definition three_decimals (s : string) : bool :=
  match rev (list_ascii_of_string s) with
  | d3 :: d2 :: d1 :: p :: i :: rest =>
      is_digit d3 && is_digit d2 && is_digit d1 && Ascii.eqb p "." &&
      forallb is_digit (i :: rest)
  | _ => false
  end.

(** ** What a body does, read off its statements *)

(** The records a body appends to the installed context: those of its
    failing assertions, up to the first statement that throws. *)
Fixpoint recorded_by (body : list stmt) : list AssertionRecord :=
  match body with
  | [] => []
  | THROW _ :: _ => []
  | CALL _ :: rest => recorded_by rest
  | s :: rest =>
      if passes s then recorded_by rest
      else if is_fatal_assertion s then [failure_record s]
      else failure_record s :: recorded_by rest
  end.

(** How the body ends. *)
Fixpoint ending_of (body : list stmt) : outcome unit :=
  match body with
  | [] => Normal tt
  | THROW e :: _ => Raised e
  | CALL _ :: rest => ending_of rest
  | s :: rest =>
      if passes s then ending_of rest
      else if is_fatal_assertion s then Raised AssertionException
      else ending_of rest
  end.

(** The calls it makes. *)
Fixpoint executed_marks (body : list stmt) : list nat :=
  match body with
  | [] => []
  | THROW _ :: _ => []
  | CALL tag :: rest => tag :: executed_marks rest
  | s :: rest =>
      if passes s then executed_marks rest
      else if is_fatal_assertion s then []
      else executed_marks rest
  end.

Definition is_expectation (s : stmt) : bool :=
  match s with
  | EXPECT_EQ _ _ _ _ _ _ | EXPECT_NE _ _ _ _ _ _
  | EXPECT_TRUE _ _ _ _ | EXPECT_FALSE _ _ _ _ | CALL _ => true
  | _ => false
  end.

(** The static initialisers: one [TestRegistrar] per [TEST], in order. *)
Fixpoint register_all (tests : list TestInfo) : M unit :=
  match tests with
  | [] => ret tt
  | t :: rest => bind (TestRegistrar (suite t) (name t) (func t)) (fun _ => register_all rest)
  end.

(** The durations the runner stores. *)
Definition measured (env : Env) (tests : list TestInfo) : list float :=
  imap (fun i _ => double_of_Z (elapsed_ms env i)) tests.

Definition results_of (tests : list TestInfo) : list (list AssertionRecord) :=
  map (fun t => recorded_by (func t)) tests.

(** The state outside the report and the console is the same. *)
Definition same_registry (w w' : World) : Prop :=
  Registry w' = Registry w /\ cerr w' = cerr w.


(** What the handlers of [RunAllTests] pass to [AddFailure]. *)
Definition unexpected_message (e : exn) : string :=
  match e with
  | std_exception what => String.append "Unhandled exception: " what
  | _ => "Unhandled non-standard exception"%string
  end.

(** A [double] that is zero or positive and finite. *)
Definition nonnegative_finite (x : float) : bool :=
  match Prim2SF x with
  | S754_zero false | S754_finite false _ _ => true
  | _ => false
  end.

(** ** The test program of the calculator *)

(** [std::tolower] in the C locale, on each character of the string. *)
Definition tolower (c : ascii) : ascii :=
  let n := nat_of_ascii c in
  if (65 <=? n)%nat && (n <=? 90)%nat then ascii_of_nat (n + 32) else c.

Fixpoint lowercase (s : string) : string :=
  match s with
  | EmptyString => EmptyString
  | String c rest => String (tolower c) (lowercase rest)
  end.

(** The switch of [SubtractsNumbers]: the value of [TEST_SHOULD_FAIL],
    [None] when the variable is not set. *)
Definition should_fail (env : option string) : bool :=
  match env with
  | None => true
  | Some v =>
      let v := lowercase v in
      negb (String.eqb v "0" || String.eqb v "false" || String.eqb v "no")
  end.

Definition pointee (error : option Z) : Z := from_option id 0 error.

Section TestProgram.
(** [__FILE__], the cell contents of a fresh allocation, the results of
    the calls of [rand()] and the value of the environment variable. *)
Variable src : string.
Variable indeterminate : Z.
Variable rands : list Z.
Variable TEST_SHOULD_FAIL : option string.

Definition HeavyLoadTest : option (list stmt) :=
  q ← calculator.insert_all indeterminate calculator.empty_queue
        (map (fun r => Z.rem r 10000) rands);
  '(sorted_elements, _) ← calculator.drain q;
  let copy := calculator.sort_ints sorted_elements in
  Some (ASSERT_EQ (Z.of_nat (length sorted_elements)) (Z.of_nat (length copy))
          "sorted_elements.size()" "copy.size()" src 22
        :: zip_with (fun a b => EXPECT_EQ a b "sorted_elements[i]" "copy[i]" src 24)
             sorted_elements copy).

Definition AddsNumbers : option (list stmt) :=
  x ← calculator.add 2 3;
  y ← calculator.add (-1) 1;
  Some [EXPECT_EQ x 5 "add(2, 3)" "5" src 30;
        EXPECT_EQ y 0 "add(-1, 1)" "0" src 31].

Definition SubtractsNumbers : option (list stmt) :=
  d ← calculator.subtract 5 3;
  Some [if should_fail TEST_SHOULD_FAIL
        then EXPECT_EQ d 1 "subtract(5, 3)" "1" src 46
        else EXPECT_EQ d 2 "subtract(5, 3)" "2" src 48].

Definition DividesSafely : option (list stmt) :=
  '(q1, err1) ← calculator.divide 8 4 (Some 0);
  '(q2, err2) ← calculator.divide 1 0 err1;
  Some [EXPECT_EQ q1 2 "divide(8, 4, &err)" "2" src 54;
        EXPECT_EQ (pointee err1) 0 "err" "0" src 55;
        EXPECT_EQ q2 0 "divide(1, 0, &err)" "0" src 56;
        EXPECT_EQ (pointee err2) 1 "err" "1" src 57].

Definition ModulosNumbers : option (list stmt) :=
  '(r1, err1) ← calculator.calculator_mod 2 3 (Some 0);
  '(r2, err2) ← calculator.calculator_mod (-2) 3 err1;
  '(r3, err3) ← calculator.calculator_mod 0 5 err2;
  '(r4, err4) ← calculator.calculator_mod 1 0 err3;
  Some [EXPECT_EQ r1 2 "calculator_mod(2, 3, &err)" "2" src 62;
        EXPECT_EQ (pointee err1) 0 "err" "0" src 63;
        EXPECT_EQ r2 (-2) "calculator_mod(-2, 3, &err)" "-2" src 64;
        EXPECT_EQ (pointee err2) 0 "err" "0" src 65;
        EXPECT_EQ r3 0 "calculator_mod(0, 5, &err)" "0" src 66;
        EXPECT_EQ (pointee err3) 0 "err" "0" src 67;
        EXPECT_EQ r4 0 "calculator_mod(1, 0, &err)" "0" src 68;
        EXPECT_EQ (pointee err4) 1 "err" "1" src 69].

(** The registry after static initialisation, when no body runs into
    undefined behaviour. *)
Definition calculator_tests : option (list TestInfo) :=
  b1 ← HeavyLoadTest;
  b2 ← AddsNumbers;
  b3 ← SubtractsNumbers;
  b4 ← DividesSafely;
  b5 ← ModulosNumbers;
  Some [ {| suite := "Calculator"; name := "HeavyLoadTest"; func := b1 |};
         {| suite := "Calculator"; name := "AddsNumbers"; func := b2 |};
         {| suite := "Calculator"; name := "SubtractsNumbers"; func := b3 |};
         {| suite := "Calculator"; name := "DividesSafely"; func := b4 |};
         {| suite := "Calculator"; name := "ModulosNumbers"; func := b5 |} ].
End TestProgram.

(* ===================================================================== *)
(** * Properties of the harness *)
(* ===================================================================== *)

(** ** Machine integers *)

Lemma wrap_int_id (z : Z) : - 2 ^ 31 <= z <= INT_MAX -> wrap_int z = z.
Proof.
  unfold wrap_int, INT_MAX. intros H.
  rewrite Z.mod_small by lia. lia.
Qed.

(** ** Statements and bodies *)

Lemma run_body_app (pre post : list stmt) (w : World) :
  run_body (pre ++ post) w =
  match run_body pre w with
  | (Normal _, w') => run_body post w'
  | (Raised e, w') => (Raised e, w')
  end.
Proof.
  revert w. induction pre as [|s pre IH]; intros w; simpl.
  - reflexivity.
  - unfold bind. destruct (exec_stmt s w) as [[[]|e] w1]; [apply IH | reflexivity].
Qed.

Lemma exec_stmt_passes (s : stmt) (w : World) :
  passes s = true ->
  exec_stmt s w = (Normal tt, leave_marks (call_marks [s]) w).
Proof.
  destruct s; simpl; intros Hp;
    unfold ExpectEqual, ExpectNotEqual, ExpectTrue; simpl;
    try rewrite Hp; try discriminate; reflexivity.
Qed.

Lemma leave_marks_app (l1 l2 : list nat) (w : World) :
  leave_marks (l1 ++ l2) w = leave_marks l2 (leave_marks l1 w).
Proof. unfold leave_marks. apply fold_left_app. Qed.

Lemma run_body_passes (pre : list stmt) (w : World) :
  forallb passes pre = true ->
  run_body pre w = (Normal tt, leave_marks (call_marks pre) w).
Proof.
  revert w. induction pre as [|s pre IH]; intros w Hp; simpl in *.
  - reflexivity.
  - apply andb_prop in Hp as [Hs Hpre].
    unfold bind. rewrite (exec_stmt_passes s w Hs).
    rewrite (IH _ Hpre). simpl.
    rewrite app_nil_r. rewrite leave_marks_app. reflexivity.
Qed.

Lemma leave_marks_context (l : list nat) (w : World) :
  current_context (leave_marks l w) = current_context w.
Proof.
  revert w. induction l as [|t l IH]; intros w; simpl; [reflexivity|].
  unfold leave_marks in *. simpl. rewrite IH. reflexivity.
Qed.

Lemma leave_marks_marks (l : list nat) (w : World) :
  marks (leave_marks l w) = marks w ++ l.
Proof.
  revert w. induction l as [|t l IH]; intros w; simpl.
  - symmetry. apply app_nil_r.
  - unfold leave_marks in *. simpl. rewrite IH. simpl.
    rewrite <- app_assoc. reflexivity.
Qed.

(** A fatal assertion that fails, under an installed context: the record
    is appended, then the sentinel is thrown. *)
Lemma exec_stmt_fatal (a : stmt) (w : World) (ctx : TestContext) :
  is_fatal_assertion a = true -> passes a = false ->
  current_context w = Some ctx ->
  exec_stmt a w =
  (Raised AssertionException,
   set_current_context (Some {| failures := failures ctx ++ [failure_record a] |}) w).
Proof.
  intros Hf Hp Hc.
  destruct a; simpl in Hf; try discriminate; simpl in Hp; simpl;
    unfold ExpectEqual, ExpectNotEqual, ExpectTrue, AddFailure; simpl;
    rewrite ?Hp, Hc; reflexivity.
Qed.

Lemma run_body_fatal (pre post : list stmt) (a : stmt) (w : World) (ctx : TestContext) :
  forallb passes pre = true ->
  is_fatal_assertion a = true -> passes a = false ->
  current_context w = Some ctx ->
  run_body (pre ++ a :: post) w =
  (Raised AssertionException,
   set_current_context (Some {| failures := failures ctx ++ [failure_record a] |})
     (leave_marks (call_marks pre) w)).
Proof.
  intros Hpre Hf Hp Hc.
  rewrite run_body_app, (run_body_passes pre w Hpre). simpl.
  unfold bind. rewrite (exec_stmt_fatal a _ ctx Hf Hp).
  - reflexivity.
  - rewrite leave_marks_context. exact Hc.
Qed.

Lemma marks_set_current_context (c : option TestContext) (w : World) :
  marks (set_current_context c w) = marks w.
Proof. reflexivity. Qed.

(** C1. A body whose first failing assertion is fatal: the failure is
    appended to the active context and the abort sentinel is thrown, so
    nothing after the assertion runs (the marks are those of the
    statements before it, whatever follows it); the runner catches the
    sentinel, stores exactly this one failure for the test, counts the
    test as failed, uninstalls the context and goes on with the next
    registered test. *)
Theorem fatal_assertion_skips_rest_of_body
    (env : Env) (i : nat) (t : TestInfo) (rest : list TestInfo)
    (st : run_state) (w : World) (pre post : list stmt) (a : stmt) :
  func t = pre ++ a :: post ->
  forallb passes pre = true ->
  is_fatal_assertion a = true ->
  passes a = false ->
  (forall w0 ctx, current_context w0 = Some ctx ->
     run_body (func t) w0 =
     (Raised AssertionException,
      set_current_context (Some {| failures := failures ctx ++ [failure_record a] |})
        (leave_marks (call_marks pre) w0))) /\
  exists (st' : run_state) (w' : World),
    run_test env i t st w = (Normal st', w') /\
    all_failures st' = <[i := [failure_record a]]> (all_failures st) /\
    ((i < length (all_failures st))%nat ->
     all_failures st' !! i = Some [failure_record a]) /\
    failed st' = wrap_int (failed st + 1) /\
    current_context w' = None /\
    marks w' = marks w ++ call_marks pre /\
    run_tests env i (t :: rest) st w = run_tests env (S i) rest st' w'.
Proof.
  intros Hbody Hpre Hf Hp.
  assert (Hany : forall w0 ctx, current_context w0 = Some ctx ->
            run_body (func t) w0 =
            (Raised AssertionException,
             set_current_context (Some {| failures := failures ctx ++ [failure_record a] |})
               (leave_marks (call_marks pre) w0))).
  { intros w0 ctx Hc. rewrite Hbody. apply run_body_fatal; assumption. }
  split; [exact Hany|].
  set (w0 := set_current_context (Some {| failures := [] |})
               (to_cout (cat ["[ RUN      ] "; suite t; "."; name t; nl]) w)).
  pose proof (Hany w0 {| failures := [] |} eq_refl) as Hrun.
  assert (Hone : exists st' w',
            run_test env i t st w = (Normal st', w') /\
            all_failures st' = <[i := [failure_record a]]> (all_failures st) /\
            failed st' = wrap_int (failed st + 1) /\
            current_context w' = None /\
            marks w' = marks w ++ call_marks pre).
  { unfold run_test, bind, modify, guarded_body. fold w0. rewrite Hrun.
    unfold ctx_failures. simpl.
    eexists _, _. split; [reflexivity|]. simpl.
    repeat split; try reflexivity.
    rewrite leave_marks_marks. reflexivity. }
  destruct Hone as (st' & w' & H1 & H2 & H3 & H4 & H5).
  exists st', w'.
  split; [exact H1|]. split; [exact H2|].
  split; [intros Hi; rewrite H2; apply list_lookup_insert_eq; exact Hi|].
  split; [exact H3|]. split; [exact H4|]. split; [exact H5|].
  simpl. unfold bind at 1. rewrite H1. reflexivity.
Qed.

Lemma fatal_assertion_skips_rest_of_body_witness :
  (forall w0 ctx, current_context w0 = Some ctx ->
     run_body (func fatal_first) w0 =
     (Raised AssertionException,
      set_current_context
        (Some {| failures := failures ctx ++
                   [failure_record (ASSERT_EQ 2 1 "subtract(5, 3)" "1" "test_calculator.cpp" 20)] |})
        (leave_marks (call_marks [CALL 1]) w0))) /\
  exists (st' : run_state) (w' : World),
    run_test demo_env 0 fatal_first (fresh_run 2) (startup [fatal_first; adds_numbers] ∅ ∅)
      = (Normal st', w') /\
    all_failures st' =
      <[0%nat := [failure_record (ASSERT_EQ 2 1 "subtract(5, 3)" "1" "test_calculator.cpp" 20)]]>
        (all_failures (fresh_run 2)) /\
    ((0 < length (all_failures (fresh_run 2)))%nat ->
     all_failures st' !! 0%nat
     = Some [failure_record (ASSERT_EQ 2 1 "subtract(5, 3)" "1" "test_calculator.cpp" 20)]) /\
    failed st' = wrap_int (failed (fresh_run 2) + 1) /\
    current_context w' = None /\
    marks w' = marks (startup [fatal_first; adds_numbers] ∅ ∅) ++ call_marks [CALL 1] /\
    run_tests demo_env 0 (fatal_first :: [adds_numbers]) (fresh_run 2)
      (startup [fatal_first; adds_numbers] ∅ ∅)
      = run_tests demo_env 1 [adds_numbers] st' w'.
Proof.
  apply (fatal_assertion_skips_rest_of_body demo_env 0 fatal_first [adds_numbers]
           (fresh_run 2) (startup [fatal_first; adds_numbers] ∅ ∅)
           [CALL 1]
           [CALL 2; EXPECT_EQ 5 5 "add(2, 3)" "5" "test_calculator.cpp" 22]
           (ASSERT_EQ 2 1 "subtract(5, 3)" "1" "test_calculator.cpp" 20));
    reflexivity.
Defined.

(** ** No context installed *)

(** C9. While [current_context] is null, [AddFailure] does nothing at
    all: it returns normally, also when [fatal] is set, and the state is
    the one it was called in; so does every assertion macro, whether its
    check holds or fails. *)
Theorem AddFailure_without_context (w : World) :
  current_context w = None ->
  (forall file line message fatal,
     AddFailure file line message fatal w = (Normal tt, w)) /\
  (forall s, is_assertion s = true -> exec_stmt s w = (Normal tt, w)).
Proof.
  intros Hc.
  assert (HA : forall file line message fatal,
             AddFailure file line message fatal w = (Normal tt, w)).
  { intros. unfold AddFailure. rewrite Hc. reflexivity. }
  split; [exact HA|].
  intros s Hs.
  destruct s; simpl in Hs; try discriminate; simpl;
    unfold ExpectEqual, ExpectNotEqual, ExpectTrue; simpl;
    match goal with
    | |- (if ?c then _ else _) _ = _ => destruct c; [reflexivity | apply HA]
    end.
Qed.

Lemma AddFailure_without_context_witness :
  (forall file line message fatal,
     AddFailure file line message fatal (startup [adds_numbers] ∅ ∅)
     = (Normal tt, startup [adds_numbers] ∅ ∅)) /\
  (forall s, is_assertion s = true ->
     exec_stmt s (startup [adds_numbers] ∅ ∅) = (Normal tt, startup [adds_numbers] ∅ ∅)).
Proof.
  apply (AddFailure_without_context (startup [adds_numbers] ∅ ∅)). reflexivity.
Defined.

(** ** Unexpected failures *)

Lemma exec_stmt_keeps_context (s : stmt) (w : World) (c : TestContext) :
  current_context w = Some c ->
  exists c', current_context (snd (exec_stmt s w)) = Some c'.
Proof.
  intros Hc.
  destruct s; simpl;
    unfold ExpectEqual, ExpectNotEqual, ExpectTrue, AddFailure, ret, throw, modify; simpl;
    try (match goal with
         | |- context [if ?b then _ else _] => destruct b
         end; simpl);
    rewrite ?Hc; simpl; eauto.
Qed.

Lemma run_body_keeps_context (body : list stmt) (w : World) (c : TestContext) :
  current_context w = Some c ->
  exists c', current_context (snd (run_body body w)) = Some c'.
Proof.
  revert w c. induction body as [|s body IH]; intros w c Hc; simpl.
  - eauto.
  - unfold bind.
    destruct (exec_stmt_keeps_context s w c Hc) as [c1 Hc1].
    destruct (exec_stmt s w) as [[[]|e] w1]; simpl in *.
    + eapply IH; eassumption.
    + eauto.
Qed.

(** The handlers for anything but the sentinel call [AddFailure] with
    [fatal] set: the record is appended, and the sentinel thrown by that
    call leaves the handler. *)
Lemma guarded_body_unexpected (t : TestInfo) (w w1 : World) (e : exn) (c : TestContext) :
  current_context w = Some c ->
  run_body (func t) w = (Raised e, w1) ->
  e <> AssertionException ->
  exists c1 msg,
    current_context w1 = Some c1 /\
    guarded_body t w =
    (Raised AssertionException,
     set_current_context
       (Some {| failures := failures c1 ++
                  [{| fatal := true; message := msg; file := "unknown"; line := 0 |}] |}) w1).
Proof.
  intros Hc Hrun He.
  destruct (run_body_keeps_context (func t) w c Hc) as [c1 Hc1].
  rewrite Hrun in Hc1. simpl in Hc1.
  unfold guarded_body. rewrite Hrun.
  destruct e as [|what|]; [congruence| |];
    unfold AddFailure; rewrite Hc1; eexists _, _; split; reflexivity.
Qed.

(** Hence the loop over the registry is left by the exception: no later
    test is started and [RunAllTests] does not return. *)
Lemma run_tests_unexpected (env : Env) (i : nat) (t : TestInfo) (rest : list TestInfo)
    (st : run_state) (w w1 : World) (e : exn) :
  run_body (func t)
    (set_current_context (Some {| failures := [] |})
       (to_cout (cat ["[ RUN      ] "; suite t; "."; name t; nl]) w)) = (Raised e, w1) ->
  e <> AssertionException ->
  exists msg,
    run_tests env i (t :: rest) st w =
    (Raised AssertionException,
     set_current_context
       (Some {| failures := ctx_failures w1 ++
                  [{| fatal := true; message := msg; file := "unknown"; line := 0 |}] |}) w1).
Proof.
  intros Hrun He.
  destruct (guarded_body_unexpected t _ w1 e {| failures := [] |}
              (eq_refl : current_context (set_current_context _ _) = _) Hrun He)
    as (c1 & msg & Hc1 & Hg).
  exists msg.
  simpl. unfold bind at 1. unfold run_test, bind, modify. rewrite Hg.
  unfold ctx_failures. rewrite Hc1. reflexivity.
Qed.

(** C2. At a registry whose first test throws a [std::exception] that is
    not the sentinel, the handler records the failure ([fatal], file
    [unknown], line 0) in the context and is then left by the sentinel
    thrown from [AddFailure]: the process terminates on the uncaught
    exception, the failure is never copied into the runner's results, the
    statement after the [throw] did not run and the next registered test
    was never started. *)
Theorem unexpected_failure_escapes_runner :
  let r := main demo_env ["calculator_tests"%string]
             (startup [throws_runtime_error; adds_numbers] ∅ ∅) in
  fst r = Terminated AssertionException /\
  current_context (snd r) =
    Some {| failures := [{| fatal := true; message := "Unhandled exception: boom";
                            file := "unknown"; line := 0 |}] |} /\
  marks (snd r) = [1%nat] /\
  cout (snd r) =
    cat ["[==========] Running 2 tests from 2 test suites."; nl;
         "[----------] Global test environment set-up."; nl;
         "[ RUN      ] Calculator.Throws"; nl].
Proof. vm_compute. repeat split; reflexivity. Qed.

(** C3. Two runs in which the exit status is not the one the test
    outcomes determine.  A body that throws something other than the
    sentinel: [RunAllTests] does not return a status, the process
    terminates on the uncaught sentinel.  A registry whose only test
    passes, with an output path whose directory cannot be created: the
    status is 0 where the directory can be created, and the process
    terminates on the file system error where it cannot. *)
Theorem exit_status_lost_on_uncaught_exception :
  fst (main demo_env ["calculator_tests"%string]
         (startup [adds_numbers; throws_an_int] ∅ ∅))
    = Terminated AssertionException /\
  fst (main demo_env ["calculator_tests"; "--gtest_output=xml:out/report.xml"]%string
         (startup [adds_numbers] ∅ ∅))
    = Exited 0 /\
  fst (main readonly_env ["calculator_tests"; "--gtest_output=xml:out/report.xml"]%string
         (startup [adds_numbers] ∅ ∅))
    = Terminated (std_exception "filesystem error: cannot create directories: out").
Proof. vm_compute. repeat split; reflexivity. Qed.

(** ** The output option *)

Lemma starts_with_split (prefix s : string) :
  starts_with prefix s = true ->
  s = String.append prefix (substr (String.length prefix) s).
Proof.
  unfold starts_with. revert s.
  induction prefix as [|c prefix IH]; intros s H.
  - reflexivity.
  - destruct s as [|c' s]; simpl in H; [discriminate|].
    destruct (ascii_dec c c') as [->|]; [|discriminate].
    change (String c' s = String c' (String.append prefix (substr (String.length prefix) s))).
    f_equal. apply IH. exact H.
Qed.

Lemma InitGoogleTest_loop_ignores (args : list string) (w : World) :
  forallb not_output_option args = true ->
  InitGoogleTest_loop args w = (Normal tt, w).
Proof.
  revert w. induction args as [|arg args IH]; intros w H; simpl in *.
  - reflexivity.
  - apply andb_prop in H as [Ha Hargs].
    unfold not_output_option in Ha. apply negb_true_iff in Ha. rewrite Ha.
    unfold bind, ret. apply IH. exact Hargs.
Qed.

Lemma InitGoogleTest_loop_last (before after : list string) (arg : string) (w : World) :
  starts_with output_prefix arg = true ->
  forallb not_output_option after = true ->
  InitGoogleTest_loop (before ++ arg :: after) w =
  (Normal tt, set_g_output_path (substr (String.length output_prefix) arg) w).
Proof.
  intros Harg Hafter. revert w.
  induction before as [|b before IH]; intros w; simpl.
  - rewrite Harg. unfold bind, modify.
    apply InitGoogleTest_loop_ignores. exact Hafter.
  - unfold bind. destruct (starts_with output_prefix b); unfold modify, ret.
    + rewrite IH. reflexivity.
    + apply IH.
Qed.

Lemma InitGoogleTest_loop_total (args : list string) (w : World) :
  exists p, InitGoogleTest_loop args w = (Normal tt, set_g_output_path p w) /\
            (p = g_output_path w \/
             exists arg, In arg args /\ starts_with output_prefix arg = true /\
                         p = substr (String.length output_prefix) arg).
Proof.
  revert w. induction args as [|arg args IH]; intros w; cbn [InitGoogleTest_loop].
  - exists (g_output_path w). split; [destruct w; reflexivity | left; reflexivity].
  - unfold bind. destruct (starts_with output_prefix arg) eqn:Harg; unfold modify, ret.
    + destruct (IH (set_g_output_path (substr (String.length output_prefix) arg) w))
        as (p & Hp & [Hsame | (a & Ha & Hm & Hpa)]).
      * exists p. split; [rewrite Hp; reflexivity|].
        right. exists arg. cbn [g_output_path set_g_output_path] in Hsame.
        split; [left; reflexivity | split; [exact Harg | exact Hsame]].
      * exists p. split; [rewrite Hp; reflexivity|].
        right. exists a. split; [right; exact Ha | split; assumption].
    + destruct (IH w) as (p & Hp & [Hsame | (a & Ha & Hm & Hpa)]).
      * exists p. split; [exact Hp | left; exact Hsame].
      * exists p. split; [exact Hp|]. right. exists a.
        split; [right; exact Ha | split; assumption].
Qed.

(** What a body does stays inside the context and the marks. *)
Lemma exec_stmt_same_disk (s : stmt) (w : World) :
  same_disk w (snd (exec_stmt s w)).
Proof.
  unfold same_disk.
  destruct s; simpl;
    unfold ExpectEqual, ExpectNotEqual, ExpectTrue, AddFailure, ret, throw, modify; simpl;
    try (match goal with
         | |- context [if ?b then _ else _] => destruct b
         end; simpl);
    try destruct (current_context w); auto.
Qed.

Lemma same_disk_trans (w1 w2 w3 : World) :
  same_disk w1 w2 -> same_disk w2 w3 -> same_disk w1 w3.
Proof. unfold same_disk. intros (?&?&?) (?&?&?). repeat split; congruence. Qed.

Lemma same_disk_refl (w : World) : same_disk w w.
Proof. unfold same_disk. auto. Qed.

Lemma run_body_same_disk (body : list stmt) (w : World) :
  same_disk w (snd (run_body body w)).
Proof.
  revert w. induction body as [|s body IH]; intros w; simpl.
  - apply same_disk_refl.
  - unfold bind. pose proof (exec_stmt_same_disk s w) as Hs.
    destruct (exec_stmt s w) as [[[]|e] w1]; simpl in *.
    + eapply same_disk_trans; [exact Hs | apply IH].
    + exact Hs.
Qed.

Lemma guarded_body_same_disk (t : TestInfo) (w : World) :
  same_disk w (snd (guarded_body t w)).
Proof.
  unfold guarded_body.
  pose proof (run_body_same_disk (func t) w) as Hb.
  destruct (run_body (func t) w) as [[[]|[|what|]] w1]; simpl in *; try exact Hb.
  - eapply same_disk_trans; [exact Hb|].
    unfold AddFailure. destruct (current_context w1); simpl;
      [unfold same_disk; auto | apply same_disk_refl].
  - eapply same_disk_trans; [exact Hb|].
    unfold AddFailure. destruct (current_context w1); simpl;
      [unfold same_disk; auto | apply same_disk_refl].
Qed.

Lemma run_test_same_disk (env : Env) (i : nat) (t : TestInfo) (st : run_state) (w : World) :
  same_disk w (snd (run_test env i t st w)).
Proof.
  unfold run_test, bind, modify.
  set (w0 := set_current_context _ _).
  pose proof (guarded_body_same_disk t w0) as Hg.
  destruct (guarded_body t w0) as [[[]|e] w1]; simpl in *.
  - destruct (ctx_failures w1); simpl;
      (eapply same_disk_trans; [|eapply same_disk_trans; [exact Hg|]]);
      unfold same_disk; simpl; auto.
  - eapply same_disk_trans; [|exact Hg]. unfold same_disk; simpl; auto.
Qed.

Lemma run_tests_same_disk (env : Env) (tests : list TestInfo) (i : nat)
    (st : run_state) (w : World) :
  same_disk w (snd (run_tests env i tests st w)).
Proof.
  revert i st w. induction tests as [|t tests IH]; intros i st w; simpl.
  - apply same_disk_refl.
  - unfold bind. pose proof (run_test_same_disk env i t st w) as Ht.
    destruct (run_test env i t st w) as [[st'|e] w1]; simpl in *.
    + eapply same_disk_trans; [exact Ht | apply IH].
    + exact Ht.
Qed.

(** Without a destination [WriteXmlReport] returns at once. *)
Lemma WriteXmlReport_no_destination (env : Env) (tests : list TestInfo)
    (fs : list (list AssertionRecord)) (ds : list float) (w : World) :
  g_output_path w = EmptyString ->
  WriteXmlReport tests fs ds env w = (Normal tt, w).
Proof. intros H. unfold WriteXmlReport. rewrite H. reflexivity. Qed.

Lemma RunAllTests_same_disk (env : Env) (w : World) :
  g_output_path w = EmptyString ->
  same_disk w (snd (RunAllTests env w)).
Proof.
  intros Hp. unfold RunAllTests, bind, modify.
  set (w0 := to_cout _ (to_cout _ w)).
  set (st0 := {| failed := 0 |}).
  pose proof (run_tests_same_disk env (Registry w) 0 st0 w0) as Hr.
  assert (H0 : same_disk w w0) by (unfold same_disk; simpl; auto).
  destruct (run_tests env 0 (Registry w) st0 w0) as [[st|e] w1]; simpl in *.
  - assert (Hw1 : same_disk w w1) by (eapply same_disk_trans; eassumption).
    destruct (0 <? failed st); unfold ret; simpl;
      rewrite WriteXmlReport_no_destination;
      try (simpl; destruct Hw1 as (_ & _ & Hg); rewrite Hg; exact Hp);
      simpl; destruct Hw1 as (?&?&?); unfold same_disk; simpl; auto.
  - eapply same_disk_trans; eassumption.
Qed.

Lemma last_option_split (args : list string) :
  (exists arg, In arg args /\ starts_with output_prefix arg = true) ->
  exists before arg after,
    args = before ++ arg :: after /\
    starts_with output_prefix arg = true /\
    forallb not_output_option after = true.
Proof.
  induction args as [|a args IH]; intros (arg & Hin & Harg).
  - destruct Hin.
  - destruct (forallb not_output_option args) eqn:Hrest.
    + destruct (starts_with output_prefix a) eqn:Ha.
      * exists [], a, args. auto.
      * destruct Hin as [->|Hin]; [congruence|].
        rewrite forallb_forall in Hrest. specialize (Hrest arg Hin).
        unfold not_output_option in Hrest. rewrite Harg in Hrest. discriminate.
    + destruct IH as (before & b & after & -> & Hb & Hafter).
      * rewrite <- negb_true_iff in Hrest.
        assert (Hn : existsb (fun x => negb (not_output_option x)) args = true).
        { clear -Hrest. induction args as [|x args IH]; simpl in *; [discriminate|].
          destruct (not_output_option x); simpl in *; auto. }
        apply existsb_exists in Hn as (x & Hx & Hnx).
        exists x. split; [exact Hx|].
        unfold not_output_option in Hnx. rewrite negb_involutive in Hnx. exact Hnx.
      * exists (a :: before), b, after. auto.
Qed.

Lemma WriteXmlReport_writes (env : Env) (tests : list TestInfo)
    (fs : list (list AssertionRecord)) (ds : list float) (w : World) :
  g_output_path w <> EmptyString ->
  can_create_directories env (parent_path env (g_output_path w)) = true ->
  can_open env (g_output_path w) = true ->
  WriteXmlReport tests fs ds env w =
  (Normal tt,
   write_file (g_output_path w) (report_text tests fs ds)
     (make_directories (parent_path env (g_output_path w)) w)).
Proof.
  intros Hp Hd Ho. unfold WriteXmlReport.
  destruct (g_output_path w) eqn:Hg; [congruence|].
  rewrite Hd. simpl. rewrite Hg, Ho. reflexivity.
Qed.

(** C7. [InitGoogleTest] never fails and changes nothing but the output
    path.  If some argument (after [argv[0]]) starts with
    [--gtest_output=xml:], the path becomes the text after the prefix of
    such an argument, namely of the last one, and that is the file
    [WriteXmlReport] writes.  If no argument has this form they are all
    ignored: the state is unchanged, and a process started without a
    destination ends with the files and directories it started with. *)
Theorem output_option_selects_destination (env : Env) (argv : list string) (w : World) :
  (exists p, InitGoogleTest argv w = (Normal tt, set_g_output_path p w)) /\
  ((exists arg, In arg (tl argv) /\ starts_with output_prefix arg = true) ->
   exists before arg after path,
     tl argv = before ++ arg :: after /\
     forallb not_output_option after = true /\
     arg = String.append output_prefix path /\
     InitGoogleTest argv w = (Normal tt, set_g_output_path path w) /\
     (forall tests fs ds,
        path <> EmptyString ->
        can_create_directories env (parent_path env path) = true ->
        can_open env path = true ->
        files (snd (WriteXmlReport tests fs ds env (set_g_output_path path w)))
        = <[path := report_text tests fs ds]> (files w))) /\
  (forallb not_output_option (tl argv) = true ->
   InitGoogleTest argv w = (Normal tt, w) /\
   (g_output_path w = EmptyString -> same_disk w (snd (main env argv w)))).
Proof.
  split; [|split].
  - destruct (InitGoogleTest_loop_total (tl argv) w) as (p & Hp & _).
    exists p. exact Hp.
  - intros Hex.
    destruct (last_option_split (tl argv) Hex) as (before & arg & after & Heq & Harg & Hafter).
    exists before, arg, after, (substr (String.length output_prefix) arg).
    split; [exact Heq|]. split; [exact Hafter|].
    split; [apply starts_with_split; exact Harg|].
    split.
    + unfold InitGoogleTest. rewrite Heq.
      apply InitGoogleTest_loop_last; assumption.
    + intros tests fs ds Hne Hd Ho.
      rewrite WriteXmlReport_writes; [reflexivity | exact Hne | exact Hd | exact Ho].
  - intros Hnone.
    assert (Hinit : InitGoogleTest argv w = (Normal tt, w))
      by (apply InitGoogleTest_loop_ignores; exact Hnone).
    split; [exact Hinit|].
    intros Hp. unfold main, bind. rewrite Hinit.
    pose proof (RunAllTests_same_disk env w Hp) as Hr.
    destruct (RunAllTests env w) as [[status|e] w1]; exact Hr.
Qed.

Lemma output_option_selects_destination_witness :
  (exists before arg after path,
     tl ["calculator_tests"; "--verbose"; "--gtest_output=xml:out/report.xml"]%string
       = before ++ arg :: after /\
     forallb not_output_option after = true /\
     arg = String.append output_prefix path /\
     InitGoogleTest ["calculator_tests"; "--verbose"; "--gtest_output=xml:out/report.xml"]%string
       (startup [adds_numbers] ∅ ∅)
       = (Normal tt, set_g_output_path path (startup [adds_numbers] ∅ ∅)) /\
     (forall tests fs ds,
        path <> EmptyString ->
        can_create_directories demo_env (parent_path demo_env path) = true ->
        can_open demo_env path = true ->
        files (snd (WriteXmlReport tests fs ds demo_env
                      (set_g_output_path path (startup [adds_numbers] ∅ ∅))))
        = <[path := report_text tests fs ds]> (files (startup [adds_numbers] ∅ ∅)))) /\
  (InitGoogleTest ["calculator_tests"; "--verbose"]%string (startup [adds_numbers] ∅ ∅)
     = (Normal tt, startup [adds_numbers] ∅ ∅) /\
   same_disk (startup [adds_numbers] ∅ ∅)
     (snd (main demo_env ["calculator_tests"; "--verbose"]%string (startup [adds_numbers] ∅ ∅)))).
Proof.
  split.
  - apply (output_option_selects_destination demo_env
             ["calculator_tests"; "--verbose"; "--gtest_output=xml:out/report.xml"]%string
             (startup [adds_numbers] ∅ ∅)).
    exists "--gtest_output=xml:out/report.xml"%string.
    split; [right; left; reflexivity | reflexivity].
  - destruct (output_option_selects_destination demo_env
                ["calculator_tests"; "--verbose"]%string
                (startup [adds_numbers] ∅ ∅)) as (_ & _ & H).
    destruct (H eq_refl) as [H1 H2].
    split; [exact H1 | exact (H2 eq_refl)].
Defined.

(** ** The exit status when nothing unexpected is thrown *)

Lemma exec_stmt_sentinel_only (s : stmt) (w : World) :
  throws_only_sentinel [s] = true ->
  fst (exec_stmt s w) = Normal tt \/ fst (exec_stmt s w) = Raised AssertionException.
Proof.
  intros Hs.
  destruct s; simpl in *;
    unfold ExpectEqual, ExpectNotEqual, ExpectTrue, AddFailure, ret, throw, modify; simpl;
    try (match goal with
         | |- context [if ?b then _ else _] => destruct b
         end; simpl);
    try destruct (current_context w); simpl; auto;
    destruct e; simpl in *; auto; discriminate.
Qed.

Lemma run_body_sentinel_only (body : list stmt) (w : World) :
  throws_only_sentinel body = true ->
  fst (run_body body w) = Normal tt \/ fst (run_body body w) = Raised AssertionException.
Proof.
  revert w. induction body as [|s body IH]; intros w Hb; simpl.
  - left. reflexivity.
  - unfold throws_only_sentinel in Hb. simpl in Hb. apply andb_prop in Hb as [Hs Hb].
    unfold bind.
    destruct (exec_stmt_sentinel_only s w) as [H|H].
    { unfold throws_only_sentinel. simpl. rewrite Hs. reflexivity. }
    + destruct (exec_stmt s w) as [[[]|e] w1]; simpl in *; [|discriminate].
      apply IH. exact Hb.
    + destruct (exec_stmt s w) as [[[]|e] w1]; simpl in *; [discriminate|].
      right. exact H.
Qed.

Lemma guarded_body_normal (t : TestInfo) (w : World) :
  throws_only_sentinel (func t) = true ->
  guarded_body t w = (Normal tt, snd (run_body (func t) w)).
Proof.
  intros Ht. unfold guarded_body.
  destruct (run_body_sentinel_only (func t) w Ht) as [H|H];
    destruct (run_body (func t) w) as [[[]|e] w1]; simpl in *;
    try discriminate; try reflexivity.
  inversion H. reflexivity.
Qed.

Lemma run_test_normal (env : Env) (i : nat) (t : TestInfo) (st : run_state) (w : World) :
  throws_only_sentinel (func t) = true ->
  exists recorded w',
    run_test env i t st w =
    (Normal {| failed := if has_failure recorded then wrap_int (failed st + 1) else failed st;
               all_failures := <[i := recorded]> (all_failures st);
               durations_ms := <[i := double_of_Z (elapsed_ms env i)]> (durations_ms st) |},
     w').
Proof.
  intros Ht. unfold run_test, bind, modify.
  rewrite (guarded_body_normal t _ Ht).
  set (w1 := snd (run_body (func t) _)).
  exists (ctx_failures w1).
  destruct (ctx_failures w1); simpl; eexists; reflexivity.
Qed.

Lemma count_failed_app (l1 l2 : list (list AssertionRecord)) :
  count_failed (l1 ++ l2) = (count_failed l1 + count_failed l2)%nat.
Proof. unfold count_failed. rewrite List.filter_app, length_app. reflexivity. Qed.

Lemma count_failed_le (l : list (list AssertionRecord)) :
  (count_failed l <= length l)%nat.
Proof. unfold count_failed. apply List.filter_length_le. Qed.

Lemma count_failed_middle (l1 l2 : list (list AssertionRecord)) (x : list AssertionRecord) :
  count_failed (l1 ++ x :: l2) =
  (count_failed l1 + (if has_failure x then 1 else 0) + count_failed l2)%nat.
Proof.
  rewrite count_failed_app. unfold count_failed at 2. simpl.
  destruct (has_failure x); simpl; unfold count_failed; lia.
Qed.

Lemma count_failed_insert (l : list (list AssertionRecord)) (i : nat)
    (recorded : list AssertionRecord) :
  l !! i = Some [] ->
  count_failed (<[i := recorded]> l) =
  (count_failed l + if has_failure recorded then 1 else 0)%nat /\
  (count_failed l < length l)%nat.
Proof.
  intros Hi.
  assert (Hlt : (i < length l)%nat) by (eapply lookup_lt_Some; exact Hi).
  pose proof (take_drop_middle l i [] Hi) as Hl.
  pose proof (count_failed_le (take i l)) as H1.
  pose proof (count_failed_le (drop (S i) l)) as H2.
  assert (Hc : count_failed l = (count_failed (take i l) + count_failed (drop (S i) l))%nat).
  { rewrite <- Hl at 1. rewrite count_failed_middle. simpl. lia. }
  assert (Hn : length l = (length (take i l) + S (length (drop (S i) l)))%nat).
  { rewrite <- Hl at 1. rewrite length_app. reflexivity. }
  rewrite insert_take_drop by exact Hlt.
  rewrite count_failed_middle. lia.
Qed.

Lemma count_failed_zero (l : list (list AssertionRecord)) :
  count_failed l = 0%nat <-> Forall (fun f => f = []) l.
Proof.
  unfold count_failed. induction l as [|f l IH]; simpl.
  - split; [constructor | reflexivity].
  - destruct f; simpl.
    + rewrite IH. split; [intros H; constructor; auto | intros H; inversion H; auto].
    + split; [discriminate | intros H; inversion H; discriminate].
Qed.

(** The loop over a registry of such tests returns, with one failure list
    per test and [failed] the number of non-empty ones. *)
Lemma run_tests_normal (env : Env) (tests : list TestInfo) (i : nat)
    (st : run_state) (w : World) :
  forallb (fun t => throws_only_sentinel (func t)) tests = true ->
  Z.of_nat (length (all_failures st)) <= INT_MAX ->
  (i + length tests = length (all_failures st))%nat ->
  failed st = Z.of_nat (count_failed (all_failures st)) ->
  (forall j, (i <= j < length (all_failures st))%nat -> all_failures st !! j = Some []) ->
  exists st' w',
    run_tests env i tests st w = (Normal st', w') /\
    length (all_failures st') = length (all_failures st) /\
    failed st' = Z.of_nat (count_failed (all_failures st')).
Proof.
  revert i st w. induction tests as [|t tests IH]; intros i st w Hall Hmax Hlen Hf Hrest.
  - exists st, w. auto.
  - simpl in Hall. apply andb_prop in Hall as [Ht Hall]. simpl in Hlen.
    destruct (run_test_normal env i t st w Ht) as (recorded & w1 & Hrun).
    destruct (count_failed_insert (all_failures st) i recorded) as [Hcount Hroom].
    { apply Hrest. lia. }
    simpl. unfold bind at 1. rewrite Hrun.
    match goal with
    | |- context [run_tests env (S i) tests ?s w1] =>
        destruct (IH (S i) s w1) as (st' & w' & Hloop & Hlen' & Hf')
    end.
    + exact Hall.
    + simpl. rewrite length_insert. exact Hmax.
    + simpl. rewrite length_insert. lia.
    + simpl. rewrite Hcount, Hf. unfold INT_MAX in Hmax.
      destruct (has_failure recorded).
      * rewrite wrap_int_id by (unfold INT_MAX; lia). lia.
      * lia.
    + simpl. intros j Hj. rewrite length_insert in Hj.
      rewrite list_lookup_insert_ne by lia. apply Hrest. lia.
    + exists st', w'. split; [exact Hloop|].
      simpl in Hlen'. rewrite length_insert in Hlen'. auto.
Qed.

Lemma WriteXmlReport_returns (env : Env) (tests : list TestInfo)
    (fs : list (list AssertionRecord)) (ds : list float) (w : World) :
  g_output_path w = EmptyString \/
  can_create_directories env (parent_path env (g_output_path w)) = true ->
  exists w', WriteXmlReport tests fs ds env w = (Normal tt, w').
Proof.
  intros H. unfold WriteXmlReport.
  destruct (g_output_path w) eqn:Hg; [eexists; reflexivity|].
  destruct H as [H|H]; [discriminate|]. rewrite H.
  destruct (can_open env _); eexists; reflexivity.
Qed.

(** What holds of the exit status: when no body throws anything but the
    sentinel and the report directory, if any, can be created,
    [RunAllTests] returns 0 if every test ended with an empty failure list
    and 1 otherwise, whether or not the report file can be opened. *)
Lemma RunAllTests_exit_status (env : Env) (w : World) :
  forallb (fun t => throws_only_sentinel (func t)) (Registry w) = true ->
  Z.of_nat (length (Registry w)) <= INT_MAX ->
  (g_output_path w = EmptyString \/
   can_create_directories env (parent_path env (g_output_path w)) = true) ->
  exists st w1 w',
    run_tests env 0 (Registry w) (fresh_run (length (Registry w)))
      (to_cout (cat ["[----------] Global test environment set-up."; nl])
         (to_cout (cat ["[==========] Running "; show_nat (length (Registry w)); " tests from ";
                        show_nat (length (Registry w)); " test suites."; nl]) w))
      = (Normal st, w1) /\
    length (all_failures st) = length (Registry w) /\
    RunAllTests env w =
      (Normal (if (count_failed (all_failures st) =? 0)%nat then 0 else 1), w').
Proof.
  intros Hall Hmax Hdir.
  set (w0 := to_cout _ (to_cout _ w)).
  destruct (run_tests_normal env (Registry w) 0 (fresh_run (length (Registry w))) w0)
    as (st & w1 & Hrun & Hlen & Hf).
  - exact Hall.
  - simpl. rewrite length_replicate. exact Hmax.
  - simpl. rewrite length_replicate. reflexivity.
  - simpl.
    assert (E : forall n, count_failed (replicate n []) = 0%nat).
    { induction n as [|n IHn]; [reflexivity | exact IHn]. }
    rewrite E. reflexivity.
  - simpl. intros j Hj. rewrite length_replicate in Hj.
    apply lookup_replicate_2. lia.
  - simpl in Hlen. rewrite length_replicate in Hlen.
    pose proof (run_tests_same_disk env (Registry w) 0 (fresh_run (length (Registry w))) w0)
      as Hdisk.
    rewrite Hrun in Hdisk. destruct Hdisk as (_ & _ & Hpath). simpl in Hpath.
    assert (Hw : forall w2, g_output_path w2 = g_output_path w ->
              exists w', WriteXmlReport (Registry w) (all_failures st) (durations_ms st) env w2
                         = (Normal tt, w')).
    { intros w2 Hw2. apply WriteXmlReport_returns. rewrite Hw2. exact Hdir. }
    assert (Hstatus : (if failed st =? 0 then 0 else 1)
                      = (if (count_failed (all_failures st) =? 0)%nat then 0 else 1)).
    { rewrite Hf. destruct (count_failed (all_failures st)); reflexivity. }
    unfold RunAllTests, bind, modify. fold w0.
    unfold fresh_run in Hrun. rewrite Hrun.
    destruct (0 <? failed st); unfold ret.
    + match goal with
      | |- context [WriteXmlReport _ _ _ env ?w2] => destruct (Hw w2 Hpath) as [w' Hw']
      end.
      exists st, w1, w'. split; [exact Hrun|]. split; [exact Hlen|].
      rewrite Hw', Hstatus. reflexivity.
    + match goal with
      | |- context [WriteXmlReport _ _ _ env ?w2] => destruct (Hw w2 Hpath) as [w' Hw']
      end.
      exists st, w1, w'. split; [exact Hrun|]. split; [exact Hlen|].
      rewrite Hw', Hstatus. reflexivity.
Qed.

(* ===================================================================== *)
(** * Properties of the report *)
(* ===================================================================== *)

(** ** The suite map *)

Lemma string_lt_trans (a b c : string) : string_lt a b -> string_lt b c -> string_lt a c.
Proof.
  unfold string_lt. intros Hab Hbc.
  apply String_as_OT.cmp_lt in Hab. apply String_as_OT.cmp_lt in Hbc.
  apply String_as_OT.cmp_lt. eapply String_as_OT.lt_trans; eassumption.
Qed.

Lemma string_lt_irrefl (a : string) : ~ string_lt a a.
Proof.
  unfold string_lt. intros H.
  assert (E : String.compare a a = Eq) by (apply String_as_OT.cmp_eq; reflexivity).
  congruence.
Qed.

Lemma compare_Gt_lt (a b : string) : String.compare a b = Gt -> string_lt b a.
Proof.
  unfold string_lt. intros H. rewrite String_as_OT.cmp_antisym.
  unfold String_as_OT.cmp. rewrite H. reflexivity.
Qed.

Lemma compare_Eq_eq (a b : string) : String.compare a b = Eq -> a = b.
Proof. apply String_as_OT.cmp_eq. Qed.

Lemma map_push_back_keys (k : string) (i : nat) (m : suite_map_t) (x : string) :
  In x (map fst (map_push_back k i m)) <-> x = k \/ In x (map fst m).
Proof.
  induction m as [|[k' v] m IH]; simpl.
  - intuition.
  - destruct (String.compare k k') eqn:Hc; simpl.
    + apply compare_Eq_eq in Hc. subst k'. intuition.
    + intuition.
    + rewrite IH. intuition.
Qed.

Lemma map_push_back_sorted (k : string) (i : nat) (m : suite_map_t) :
  StronglySorted string_lt (map fst m) ->
  StronglySorted string_lt (map fst (map_push_back k i m)).
Proof.
  induction m as [|[k' v] m IH]; simpl; intros Hs.
  - repeat constructor.
  - apply StronglySorted_inv in Hs as [Hs Hall].
    destruct (String.compare k k') eqn:Hc; simpl.
    + constructor; assumption.
    + constructor; [constructor; assumption|].
      constructor; [exact Hc|].
      apply List.Forall_forall. intros x Hx.
      rewrite List.Forall_forall in Hall.
      eapply string_lt_trans; [exact Hc | apply Hall; exact Hx].
    + constructor; [apply IH; exact Hs|].
      apply List.Forall_forall. intros x Hx.
      apply map_push_back_keys in Hx as [->|Hx].
      * apply compare_Gt_lt. exact Hc.
      * rewrite List.Forall_forall in Hall. apply Hall. exact Hx.
Qed.

Lemma sorted_key_fresh (k : string) (m : suite_map_t) :
  StronglySorted string_lt (k :: map fst m) -> ~ In k (map fst m).
Proof.
  intros Hs Hin. apply StronglySorted_inv in Hs as [_ Hall].
  rewrite List.Forall_forall in Hall. exact (string_lt_irrefl k (Hall k Hin)).
Qed.

(** What an entry of the map is after [suite_map[k].push_back(i)]. *)
Lemma map_push_back_entry (k : string) (i : nat) (m : suite_map_t)
    (s : string) (idxs : list nat) :
  StronglySorted string_lt (map fst m) ->
  In (s, idxs) (map_push_back k i m) ->
  (s <> k /\ In (s, idxs) m) \/
  (s = k /\ ((~ In k (map fst m) /\ idxs = [i]) \/
             (exists old, In (k, old) m /\ idxs = old ++ [i]))).
Proof.
  induction m as [|[k' v] m IH]; simpl; intros Hs Hin.
  - destruct Hin as [Hin|[]]. inversion Hin; subst. right. split; [reflexivity|]. left. auto.
  - pose proof Hs as Hs0.
    apply StronglySorted_inv in Hs as [Hs Hall].
    destruct (String.compare k k') eqn:Hc; simpl in Hin.
    + apply compare_Eq_eq in Hc. subst k'.
      destruct Hin as [Hin|Hin].
      * inversion Hin; subst. right. split; [reflexivity|]. right. exists v. auto.
      * left. split; [|right; exact Hin].
        intros ->. apply (sorted_key_fresh k m Hs0).
        change k with (fst (k, idxs)). apply in_map. exact Hin.
    + destruct Hin as [Hin|Hin].
      * inversion Hin; subst. right. split; [reflexivity|]. left. split; [|reflexivity].
        intros [Hk|Hk].
        -- simpl in Hk. subst. exact (string_lt_irrefl _ Hc).
        -- rewrite List.Forall_forall in Hall.
           exact (string_lt_irrefl _ (string_lt_trans _ _ _ Hc (Hall _ Hk))).
      * left. split; [|exact Hin].
        intros ->.
        assert (Hk : In k (k' :: map fst m)).
        { change (k' :: map fst m) with (map fst ((k', v) :: m)).
          change k with (fst (k, idxs)). apply in_map. exact Hin. }
        destruct Hk as [Hk|Hk].
        -- subst. exact (string_lt_irrefl _ Hc).
        -- rewrite List.Forall_forall in Hall.
           exact (string_lt_irrefl _ (string_lt_trans _ _ _ Hc (Hall _ Hk))).
    + destruct Hin as [Hin|Hin].
      * inversion Hin; subst. left. split; [|left; reflexivity].
        intros ->. apply compare_Gt_lt in Hc. exact (string_lt_irrefl _ Hc).
      * destruct (IH Hs Hin) as [[Hne Hm]|[-> [[Hfresh ->]|(old & Hold & ->)]]].
        -- left. auto.
        -- right. split; [reflexivity|]. left. split; [|reflexivity].
           intros [Hk|Hk]; [|exact (Hfresh Hk)].
           simpl in Hk. subst. apply compare_Gt_lt in Hc. exact (string_lt_irrefl _ Hc).
        -- right. split; [reflexivity|]. right. exists old. auto.
Qed.

Lemma test_at_app_l (done todo : list TestInfo) (i : nat) :
  (i < length done)%nat -> test_at (done ++ todo) i = test_at done i.
Proof. intros H. unfold test_at. apply app_nth1. exact H. Qed.

Lemma members_snoc (s : string) (done : list TestInfo) (t : TestInfo) :
  members s (done ++ [t]) =
  members s done ++ (if String.eqb (suite t) s then [length done] else []).
Proof.
  unfold members. rewrite length_app. simpl.
  rewrite Nat.add_1_r, seq_S, List.filter_app. simpl. f_equal.
  - apply List.filter_ext_in. intros i Hi. apply in_seq in Hi.
    rewrite test_at_app_l by lia. reflexivity.
  - unfold test_at. rewrite app_nth2 by lia. rewrite Nat.sub_diag. simpl.
    reflexivity.
Qed.

Lemma grouped_start : grouped [] [].
Proof.
  split; [constructor|]. split.
  - intros s idxs [].
  - intros s H. exfalso. apply H. reflexivity.
Qed.

Lemma grouped_step (done : list TestInfo) (t : TestInfo) (m : suite_map_t) :
  grouped done m ->
  grouped (done ++ [t]) (map_push_back (suite t) (length done) m).
Proof.
  intros (Hs & Hin & Hall). split; [|split].
  - apply map_push_back_sorted. exact Hs.
  - intros s idxs H. rewrite members_snoc.
    destruct (map_push_back_entry _ _ _ _ _ Hs H)
      as [[Hne Hm]|[-> [[Hfresh ->]|(old & Hold & ->)]]].
    + destruct (Hin s idxs Hm) as [-> Hnil].
      assert (E : String.eqb (suite t) s = false).
      { apply String.eqb_neq. congruence. }
      rewrite E, app_nil_r. auto.
    + rewrite String.eqb_refl.
      destruct (members (suite t) done) eqn:Em.
      * split; [reflexivity | discriminate].
      * exfalso. apply Hfresh. apply Hall. rewrite Em. discriminate.
    + rewrite String.eqb_refl.
      destruct (Hin _ _ Hold) as [-> _].
      split; [reflexivity|]. intros E. apply app_eq_nil in E as [_ E]. discriminate.
  - intros s H. apply map_push_back_keys.
    rewrite members_snoc in H.
    destruct (String.eqb (suite t) s) eqn:E.
    + left. symmetry. apply String.eqb_eq. exact E.
    + right. apply Hall. rewrite app_nil_r in H. exact H.
Qed.

Lemma fill_suite_map_grouped (todo done : list TestInfo) (m : suite_map_t) :
  grouped done m ->
  grouped (done ++ todo) (fill_suite_map (length done) todo m).
Proof.
  revert done m. induction todo as [|t todo IH]; intros done m H; simpl.
  - rewrite app_nil_r. exact H.
  - replace (done ++ t :: todo) with ((done ++ [t]) ++ todo)
      by (rewrite <- app_assoc; reflexivity).
    replace (S (length done)) with (length (done ++ [t]))
      by (rewrite length_app; simpl; lia).
    apply IH. apply grouped_step. exact H.
Qed.

Lemma build_suite_map_grouped (tests : list TestInfo) :
  grouped tests (build_suite_map tests).
Proof. exact (fill_suite_map_grouped tests [] [] grouped_start). Qed.

Lemma members_nonempty_iff (s : string) (tests : list TestInfo) :
  members s tests <> [] <-> In s (map suite tests).
Proof.
  unfold members. split.
  - intros H.
    destruct (List.filter _ _) as [|i l] eqn:E; [congruence|].
    assert (Hi : In i (List.filter (fun i => String.eqb (suite (test_at tests i)) s)
                         (seq 0 (length tests)))) by (rewrite E; left; reflexivity).
    apply List.filter_In in Hi as [Hi Hs]. apply in_seq in Hi.
    apply String.eqb_eq in Hs. rewrite <- Hs.
    apply in_map. unfold test_at. apply nth_In. lia.
  - intros H. apply in_map_iff in H as (t & <- & Ht).
    apply (In_nth _ _ no_test) in Ht as (i & Hi & Hti).
    intros E.
    assert (Hin : In i (List.filter (fun i => String.eqb (suite (test_at tests i)) (suite t))
                          (seq 0 (length tests)))).
    { apply List.filter_In. split; [apply in_seq; lia|].
      unfold test_at. rewrite Hti. apply String.eqb_refl. }
    rewrite E in Hin. destruct Hin.
Qed.

Lemma emit_testsuites_cons (tests : list TestInfo) (fs : list (list AssertionRecord))
    (ds : list float) (fmt : ios_fmt) (entry : string * list nat) (m : suite_map_t) :
  fst (emit_testsuites tests fs ds fmt (entry :: m)) =
  String.append (fst (emit_testsuite tests fs ds fmt entry))
    (fst (emit_testsuites tests fs ds (snd (emit_testsuite tests fs ds fmt entry)) m)).
Proof.
  simpl. destruct (emit_testsuite tests fs ds fmt entry) as [s1 fmt1]. simpl.
  destruct (emit_testsuites tests fs ds fmt1 m) as [s2 fmt2]. reflexivity.
Qed.

(** C4, as the code has it.  Registered in the order Queue, Calculator,
    the suites are written in the order Calculator, Queue. *)
Lemma suites_not_in_first_appearance_order :
  first_appearance (map suite [heavy_load; adds_numbers]) = ["Queue"; "Calculator"]%string /\
  emitted_suite_order [heavy_load; adds_numbers] = ["Calculator"; "Queue"]%string /\
  report_text [heavy_load; adds_numbers] [[]; []] [double_of_Z 0; double_of_Z 0] =
    cat [xml_declaration;
         testsuites_open 2 0;
         testsuite_open "Calculator" 1 0 "0";
         testcase_open "AddsNumbers" "completed" "0.000" "Calculator"; "</testcase>"; nl;
         "  </testsuite>"; nl;
         testsuite_open "Queue" 1 0 "0.000";
         testcase_open "HeavyLoad" "completed" "0.000" "Queue"; "</testcase>"; nl;
         "  </testsuite>"; nl;
         "</testsuites>"; nl] /\
  emitted_suite_order [heavy_load; adds_numbers]
    <> first_appearance (map suite [heavy_load; adds_numbers]).
Proof.
  split; [reflexivity|]. split; [reflexivity|]. split; [vm_compute; reflexivity|].
  vm_compute. discriminate.
Qed.

(** C4, amended.  The [testsuite] elements are written in the iteration
    order of the map, which is the strictly increasing order of the suite
    names (byte-wise lexicographic); every suite name of the registry
    occurs once; and inside a suite the tests keep their registration
    order. *)
Theorem suites_emitted_in_name_order (tests : list TestInfo) :
  StronglySorted string_lt (emitted_suite_order tests) /\
  (forall s, In s (emitted_suite_order tests) <-> In s (map suite tests)) /\
  (forall s idxs, In (s, idxs) (build_suite_map tests) -> idxs = members s tests) /\
  (forall fs ds,
     report_text tests fs ds =
     cat [xml_declaration; testsuites_open (length tests) (total_failures fs);
          fst (emit_testsuites tests fs ds ios_init (build_suite_map tests));
          "</testsuites>"; nl]) /\
  (forall fs ds fmt entry m,
     fst (emit_testsuites tests fs ds fmt (entry :: m)) =
     String.append (fst (emit_testsuite tests fs ds fmt entry))
       (fst (emit_testsuites tests fs ds (snd (emit_testsuite tests fs ds fmt entry)) m))).
Proof.
  destruct (build_suite_map_grouped tests) as (Hs & Hin & Hall).
  split; [exact Hs|]. split; [|split; [|split]].
  - intros s. unfold emitted_suite_order. split.
    + intros H. apply in_map_iff in H as ([s' idxs] & <- & H). simpl.
      destruct (Hin _ _ H) as [-> Hne].
      apply members_nonempty_iff. exact Hne.
    + intros H. apply Hall. apply members_nonempty_iff. exact H.
  - intros s idxs H. apply (Hin _ _ H).
  - reflexivity.
  - intros. apply emit_testsuites_cons.
Qed.

(** ** Counts *)

Lemma fold_add_size (l : list (list AssertionRecord)) (acc : Z) :
  0 <= acc ->
  acc + Z.of_nat (list_sum (map (@length _) l)) <= INT_MAX ->
  fold_left add_size l acc = acc + Z.of_nat (list_sum (map (@length _) l)).
Proof.
  revert acc. induction l as [|f l IH]; intros acc H0 Hmax; simpl in *.
  - lia.
  - assert (E : add_size acc f = acc + Z.of_nat (length f)).
    { unfold add_size. unfold INT_MAX in *.
      rewrite (wrap_int_id (Z.of_nat (length f))) by (unfold INT_MAX; lia).
      apply wrap_int_id. unfold INT_MAX. lia. }
    rewrite E, IH; lia.
Qed.

Lemma fold_add_size_at (fs : list (list AssertionRecord)) (idxs : list nat) (acc : Z) :
  fold_left (fun a idx => add_size a (failures_at fs idx)) idxs acc =
  fold_left add_size (map (failures_at fs) idxs) acc.
Proof.
  revert acc. induction idxs as [|i idxs IH]; intros acc; simpl; [reflexivity | apply IH].
Qed.

Lemma suite_failures_count (fs : list (list AssertionRecord)) (idxs : list nat) :
  failure_count fs idxs <= INT_MAX ->
  suite_failures fs idxs = failure_count fs idxs.
Proof.
  unfold suite_failures, failure_count. intros H.
  rewrite fold_add_size_at, fold_add_size; rewrite ?map_map; simpl; lia.
Qed.

Lemma failures_at_all (fs : list (list AssertionRecord)) :
  map (failures_at fs) (seq 0 (length fs)) = fs.
Proof.
  induction fs as [|f fs IH] using rev_ind; [reflexivity|].
  rewrite length_app. simpl. rewrite Nat.add_1_r, seq_S, map_app. simpl.
  f_equal.
  - transitivity (map (failures_at fs) (seq 0 (length fs))); [|exact IH].
    apply map_ext_in. intros i Hi. apply in_seq in Hi.
    unfold failures_at. apply app_nth1. lia.
  - unfold failures_at. rewrite app_nth2 by lia. rewrite Nat.sub_diag. reflexivity.
Qed.

Lemma total_failures_count (fs : list (list AssertionRecord)) :
  failure_count fs (seq 0 (length fs)) <= INT_MAX ->
  total_failures fs = failure_count fs (seq 0 (length fs)).
Proof.
  unfold total_failures, failure_count. intros H.
  assert (E : map (fun i => length (failures_at fs i)) (seq 0 (length fs))
              = map (@length _) fs).
  { transitivity (map (@length _) (map (failures_at fs) (seq 0 (length fs)))).
    - rewrite map_map. reflexivity.
    - rewrite failures_at_all. reflexivity. }
  rewrite E in *. rewrite fold_add_size; lia.
Qed.

Lemma list_sum_filter_le (f : nat -> nat) (p : nat -> bool) (l : list nat) :
  (list_sum (map f (List.filter p l)) <= list_sum (map f l))%nat.
Proof.
  induction l as [|x l IH]; simpl; [lia|].
  destruct (p x); simpl; lia.
Qed.

Lemma members_count_le (fs : list (list AssertionRecord)) (s : string) (tests : list TestInfo) :
  failure_count fs (members s tests) <= failure_count fs (seq 0 (length tests)).
Proof.
  unfold failure_count, members. apply inj_le. apply list_sum_filter_le.
Qed.

(** The members of a suite are as many as the registered tests with that
    suite name. *)
Lemma members_length (s : string) (tests : list TestInfo) :
  length (members s tests) =
  length (List.filter (fun t => String.eqb (suite t) s) tests).
Proof.
  induction tests as [|t tests IH] using rev_ind; [reflexivity|].
  rewrite members_snoc, List.filter_app, !length_app, IH. simpl.
  destruct (String.eqb (suite t) s); reflexivity.
Qed.

Lemma emit_testcases_cons (tests : list TestInfo) (fs : list (list AssertionRecord))
    (ds : list float) (s : string) (fmt : ios_fmt) (idx : nat) (rest : list nat) :
  fst (emit_testcases tests fs ds s fmt (idx :: rest)) =
  String.append (fst (emit_testcase tests fs ds s fmt idx))
    (fst (emit_testcases tests fs ds s (snd (emit_testcase tests fs ds s fmt idx)) rest)).
Proof.
  simpl. destruct (emit_testcases tests fs ds s _ rest) as [s2 fmt2]. reflexivity.
Qed.

Lemma emit_testsuite_text (tests : list TestInfo) (fs : list (list AssertionRecord))
    (ds : list float) (fmt : ios_fmt) (s : string) (idxs : list nat) :
  fst (emit_testsuite tests fs ds fmt (s, idxs)) =
  cat [testsuite_open s (length idxs) (suite_failures fs idxs)
         (show_double fmt (suite_time ds idxs));
       fst (emit_testcases tests fs ds s fmt idxs);
       "  </testsuite>"; nl].
Proof.
  unfold emit_testsuite. destruct (emit_testcases tests fs ds s fmt idxs). reflexivity.
Qed.

Lemma result_of_failed (fs : list AssertionRecord) :
  (result_of fs = "failed"%string <-> fs <> []) /\
  (result_of fs = "completed"%string <-> fs = []).
Proof.
  destruct fs; simpl; split; split; intros H; try congruence; try discriminate.
Qed.

(** ** The text of the elements *)

Lemma append_empty_l (s : string) : String.append EmptyString s = s.
Proof. reflexivity. Qed.

Lemma append_append (a b c : string) :
  String.append (String.append a b) c = String.append a (String.append b c).
Proof.
  induction a as [|x a IH]; [reflexivity|].
  change (String x (String.append (String.append a b) c)
          = String x (String.append a (String.append b c))).
  rewrite IH. reflexivity.
Qed.

(** Both sides of an equation between concatenations, as one chain of
    [append]s nested to the right. *)
Ltac flatten_text :=
  unfold cat; cbn [fold_right];
  repeat rewrite append_append; repeat rewrite append_empty_l.

Lemma Forall2_impl_in {A B : Type} (P Q : A -> B -> Prop) (l : list A) (k : list B) :
  Forall2 P l k -> (forall a b, In a l -> P a b -> Q a b) -> Forall2 Q l k.
Proof.
  induction 1 as [|a b l k Hab Hlk IH]; intros Himp; constructor.
  - apply Himp; [left; reflexivity | exact Hab].
  - apply IH. intros a' b' Hin. apply Himp. right. exact Hin.
Qed.

Lemma emit_testcases_texts (tests : list TestInfo) (fs : list (list AssertionRecord))
    (ds : list float) (s : string) (idxs : list nat) (fmt : ios_fmt) :
  exists cases,
    fst (emit_testcases tests fs ds s fmt idxs) = cat cases /\
    Forall2 (fun idx text => exists fmt', text = fst (emit_testcase tests fs ds s fmt' idx))
      idxs cases.
Proof.
  revert fmt. induction idxs as [|idx idxs IH]; intros fmt.
  - exists []. split; [reflexivity | constructor].
  - destruct (IH (snd (emit_testcase tests fs ds s fmt idx))) as (cases & Htext & Hall).
    exists (fst (emit_testcase tests fs ds s fmt idx) :: cases).
    split; [rewrite emit_testcases_cons, Htext; reflexivity|].
    constructor; [exists fmt; reflexivity | exact Hall].
Qed.

Lemma emit_testsuites_texts (tests : list TestInfo) (fs : list (list AssertionRecord))
    (ds : list float) (m : suite_map_t) (fmt : ios_fmt) :
  exists suites,
    fst (emit_testsuites tests fs ds fmt m) = cat suites /\
    Forall2 (fun entry text => exists fmt', text = fst (emit_testsuite tests fs ds fmt' entry))
      m suites.
Proof.
  revert fmt. induction m as [|entry m IH]; intros fmt.
  - exists []. split; [reflexivity | constructor].
  - destruct (IH (snd (emit_testsuite tests fs ds fmt entry))) as (suites & Htext & Hall).
    exists (fst (emit_testsuite tests fs ds fmt entry) :: suites).
    split; [rewrite emit_testsuites_cons, Htext; reflexivity|].
    constructor; [exists fmt; reflexivity | exact Hall].
Qed.

(** C5. The attributes of the report against the results it is given
    (one failure list per registered test, the total within [int]).  The
    text of the report is the XML declaration, the [testsuites] tag with
    the number of tests and the sum of all failure counts, the texts of
    the [testsuite] elements, one per entry of the suite map and in its
    order, and the closing tag.  The element of a suite opens with its
    name, the number of tests registered under that name and the sum of
    their failure counts, and holds one [testcase] element per such test,
    in registration order; a [testcase] opens with the name of its test
    and the result [failed] exactly when that test has a recorded
    failure, [completed] otherwise.  This text is what [WriteXmlReport]
    puts into the file. *)
Theorem report_attributes_match_results (tests : list TestInfo)
    (fs : list (list AssertionRecord)) (ds : list float) :
  length fs = length tests ->
  failure_count fs (seq 0 (length tests)) <= INT_MAX ->
  (exists suites,
     report_text tests fs ds =
       cat ["<?xml version="; dq; "1.0"; dq; " encoding="; dq; "UTF-8"; dq; "?>"; nl;
            "<testsuites tests="; dq; show_nat (length tests); dq;
            " failures="; dq; show_Z (failure_count fs (seq 0 (length tests))); dq;
            " disabled="; dq; "0"; dq; " errors="; dq; "0"; dq; ">"; nl;
            cat suites;
            "</testsuites>"; nl] /\
     Forall2
       (fun entry text =>
          snd entry = members (fst entry) tests /\
          members (fst entry) tests <> [] /\
          length (members (fst entry) tests) =
            length (List.filter (fun t => String.eqb (suite t) (fst entry)) tests) /\
          exists time cases,
            text =
              cat ["  <testsuite name="; dq; fst entry; dq;
                   " tests="; dq; show_nat (length (members (fst entry) tests)); dq;
                   " failures="; dq;
                   show_Z (failure_count fs (members (fst entry) tests)); dq;
                   " disabled="; dq; "0"; dq; " errors="; dq; "0"; dq;
                   " time="; dq; time; dq; ">"; nl;
                   cat cases;
                   "  </testsuite>"; nl] /\
            Forall2
              (fun idx case =>
                 exists time' tail,
                   case =
                     cat ["    <testcase name="; dq; name (test_at tests idx); dq;
                          " status="; dq; "run"; dq;
                          " result="; dq;
                          (if has_failure (failures_at fs idx)
                           then "failed"%string else "completed"%string); dq;
                          " time="; dq; time'; dq;
                          " classname="; dq; fst entry; dq; ">";
                          tail])
              (members (fst entry) tests) cases)
       (build_suite_map tests) suites) /\
  (forall env w,
     g_output_path w <> EmptyString ->
     can_create_directories env (parent_path env (g_output_path w)) = true ->
     can_open env (g_output_path w) = true ->
     files (snd (WriteXmlReport tests fs ds env w)) !! g_output_path w
     = Some (report_text tests fs ds)).
Proof.
  intros Hlen Hmax.
  destruct (build_suite_map_grouped tests) as (_ & Hin & _).
  split.
  - destruct (emit_testsuites_texts tests fs ds (build_suite_map tests) ios_init)
      as (suites & Htext & Hall).
    exists suites. split.
    + unfold report_text. rewrite total_failures_count by (rewrite Hlen; exact Hmax).
      rewrite Hlen, Htext. unfold xml_declaration, testsuites_open.
      flatten_text. reflexivity.
    + apply (Forall2_impl_in _ _ _ _ Hall). intros [s idxs] text He (fmt & ->).
      destruct (Hin s idxs He) as [-> Hne]. cbn [fst snd].
      split; [reflexivity|]. split; [exact Hne|]. split; [apply members_length|].
      destruct (emit_testcases_texts tests fs ds s (members s tests) fmt)
        as (cases & Hcases & Hc).
      exists (show_double fmt (suite_time ds (members s tests))), cases.
      split.
      * rewrite emit_testsuite_text, Hcases, suite_failures_count
          by (etransitivity; [apply members_count_le | exact Hmax]).
        unfold testsuite_open. flatten_text. reflexivity.
      * apply (Forall2_impl_in _ _ _ _ Hc). intros idx case _ (fmt' & ->).
        unfold emit_testcase. cbn [fst].
        exists (show_double (setprecision 3 (set_fixed fmt')) (seconds (duration_at ds idx))),
               (match failures_at fs idx with
                | [] => cat ["</testcase>"; nl]
                | _ => cat [nl; cat (map failure_element (failures_at fs idx));
                            "    </testcase>"; nl]
                end).
        unfold testcase_open, result_of.
        destruct (failures_at fs idx); cbn [has_failure]; flatten_text; reflexivity.
  - intros env w Hp Hd Ho.
    rewrite WriteXmlReport_writes by assumption. simpl. apply lookup_insert_eq.
Qed.

Lemma report_attributes_match_results_witness :
  (exists suites,
     report_text three_tests three_results three_durations =
       cat ["<?xml version="; dq; "1.0"; dq; " encoding="; dq; "UTF-8"; dq; "?>"; nl;
            "<testsuites tests="; dq; show_nat (length three_tests); dq;
            " failures="; dq; show_Z (failure_count three_results (seq 0 (length three_tests))); dq;
            " disabled="; dq; "0"; dq; " errors="; dq; "0"; dq; ">"; nl;
            cat suites;
            "</testsuites>"; nl] /\
     Forall2
       (fun entry text =>
          snd entry = members (fst entry) three_tests /\
          members (fst entry) three_tests <> [] /\
          length (members (fst entry) three_tests) =
            length (List.filter (fun t => String.eqb (suite t) (fst entry)) three_tests) /\
          exists time cases,
            text =
              cat ["  <testsuite name="; dq; fst entry; dq;
                   " tests="; dq; show_nat (length (members (fst entry) three_tests)); dq;
                   " failures="; dq;
                   show_Z (failure_count three_results (members (fst entry) three_tests)); dq;
                   " disabled="; dq; "0"; dq; " errors="; dq; "0"; dq;
                   " time="; dq; time; dq; ">"; nl;
                   cat cases;
                   "  </testsuite>"; nl] /\
            Forall2
              (fun idx case =>
                 exists time' tail,
                   case =
                     cat ["    <testcase name="; dq; name (test_at three_tests idx); dq;
                          " status="; dq; "run"; dq;
                          " result="; dq;
                          (if has_failure (failures_at three_results idx)
                           then "failed"%string else "completed"%string); dq;
                          " time="; dq; time'; dq;
                          " classname="; dq; fst entry; dq; ">";
                          tail])
              (members (fst entry) three_tests) cases)
       (build_suite_map three_tests) suites) /\
  (forall env w,
     g_output_path w <> EmptyString ->
     can_create_directories env (parent_path env (g_output_path w)) = true ->
     can_open env (g_output_path w) = true ->
     files (snd (WriteXmlReport three_tests three_results three_durations env w)) !! g_output_path w
     = Some (report_text three_tests three_results three_durations)).
Proof.
  apply (report_attributes_match_results three_tests three_results three_durations).
  - reflexivity.
  - vm_compute. discriminate.
Defined.

(** ** Times *)

(** Once a [testcase] has been written the stream is in fixed notation
    with three decimals, whatever it was before. *)
Lemma emit_testcase_leaves_fixed (tests : list TestInfo) (fs : list (list AssertionRecord))
    (ds : list float) (s : string) (fmt : ios_fmt) (idx : nat) :
  snd (emit_testcase tests fs ds s fmt idx) = fixed3.
Proof. reflexivity. Qed.

Lemma emit_testcases_leaves_fixed (tests : list TestInfo) (fs : list (list AssertionRecord))
    (ds : list float) (s : string) (fmt : ios_fmt) (idxs : list nat) :
  idxs <> [] \/ fmt = fixed3 ->
  snd (emit_testcases tests fs ds s fmt idxs) = fixed3.
Proof.
  revert fmt. induction idxs as [|idx idxs IH]; intros fmt H; simpl.
  - destruct H as [H|H]; [congruence | exact H].
  - specialize (IH fixed3 (or_intror eq_refl)).
    destruct (emit_testcases tests fs ds s _ idxs) as [s2 fmt2]. exact IH.
Qed.

(** Every [testcase] time is streamed in fixed notation with three
    decimals. *)
Lemma testcase_time_fixed (tests : list TestInfo) (fs : list (list AssertionRecord))
    (ds : list float) (s : string) (fmt : ios_fmt) (idx : nat) :
  exists tail,
    fst (emit_testcase tests fs ds s fmt idx) =
    String.append
      (testcase_open (name (test_at tests idx)) (result_of (failures_at fs idx))
         (render_fixed 3 (seconds (duration_at ds idx))) s)
      tail.
Proof.
  unfold emit_testcase. simpl fst. eexists.
  unfold cat at 1. simpl fold_right. reflexivity.
Qed.

(** The time of the first [testsuite] of a report is streamed in the
    default format (six significant digits, trailing zeros removed); the
    other suites are written under the fixed format the first one left. *)
Lemma first_testsuite_time_default (tests : list TestInfo) (fs : list (list AssertionRecord))
    (ds : list float) (s : string) (idxs : list nat) (rest : suite_map_t) :
  build_suite_map tests = (s, idxs) :: rest ->
  fst (emit_testsuites tests fs ds ios_init (build_suite_map tests)) =
  String.append
    (cat [testsuite_open s (length idxs) (suite_failures fs idxs)
            (render_general 6 (suite_time ds idxs));
          fst (emit_testcases tests fs ds s ios_init idxs);
          "  </testsuite>"; nl])
    (fst (emit_testsuites tests fs ds fixed3 rest)).
Proof.
  intros Hm.
  destruct (build_suite_map_grouped tests) as (_ & Hin & _).
  rewrite Hm in *.
  destruct (Hin s idxs (or_introl eq_refl)) as [_ Hne].
  rewrite emit_testsuites_cons, emit_testsuite_text.
  assert (Hfmt : snd (emit_testsuite tests fs ds ios_init (s, idxs)) = fixed3).
  { unfold emit_testsuite.
    pose proof (emit_testcases_leaves_fixed tests fs ds s ios_init idxs (or_introl Hne)) as H.
    destruct (emit_testcases tests fs ds s ios_init idxs). exact H. }
  rewrite Hfmt. reflexivity.
Qed.

(** C6.  A run of three tests, two in suite Calculator (0 ms and
    1500 ms) and one in suite Queue (3000 ms), with an output path.  The
    [testcase] times and the time of the second [testsuite] have three
    decimals; the time of the first [testsuite], streamed before any
    manipulator was applied, is written [1.5]. *)
Theorem first_testsuite_time_not_three_decimals :
  files (snd (main demo_env ["calculator_tests"; "--gtest_output=xml:out/report.xml"]%string
                (startup three_tests ∅ ∅))) !! "out/report.xml"%string
  = Some (cat [xml_declaration;
               testsuites_open 3 1;
               testsuite_open "Calculator" 2 1 "1.5";
               testcase_open "AddsNumbers" "completed" "0.000" "Calculator"; "</testcase>"; nl;
               testcase_open "SubtractsNumbers" "failed" "1.500" "Calculator"; nl;
               failure_element
                 (failure_record (EXPECT_EQ 2 1 "subtract(5, 3)" "1" "test_calculator.cpp" 11));
               "    </testcase>"; nl;
               "  </testsuite>"; nl;
               testsuite_open "Queue" 1 0 "3.000";
               testcase_open "HeavyLoad" "completed" "3.000" "Queue"; "</testcase>"; nl;
               "  </testsuite>"; nl;
               "</testsuites>"; nl]) /\
  three_decimals "1.5" = false /\
  three_decimals "1.500" = true /\
  three_decimals "3.000" = true /\
  show_double ios_init (suite_time three_durations [0; 1]%nat) = "1.5"%string.
Proof. vm_compute. repeat split; reflexivity. Qed.

(* ===================================================================== *)
(** * Properties of the min-heap *)
(* ===================================================================== *)

Import calculator.

Ltac zdiv := unfold parent_of in *; Z.div_mod_to_equations; lia.

(** ** Cells *)

Lemma int_op_ok (z : Z) : - 2 ^ 31 <= z <= INT_MAX -> int_op z = Some z.
Proof.
  unfold int_op, INT_MAX. intros H.
  destruct (- 2 ^ 31 <=? z) eqn:E1; [|lia].
  destruct (z <=? 2147483647) eqn:E2; [reflexivity | lia].
Qed.

Lemma lookup_val (h : list Z) (i : Z) :
  0 <= i < Z.of_nat (length h) -> h !! Z.to_nat i = Some (val h i).
Proof.
  intros H. unfold val.
  destruct (nth_lookup_or_length h (Z.to_nat i) 0) as [E|E]; [exact E | lia].
Qed.

Lemma load_ok (h : list Z) (i : Z) :
  0 <= i < Z.of_nat (length h) -> load h i = Some (val h i).
Proof.
  intros H. unfold load. destruct (0 <=? i) eqn:E; [|lia]. apply lookup_val. exact H.
Qed.

Lemma store_ok (h : list Z) (i v : Z) :
  0 <= i < Z.of_nat (length h) -> store h i v = Some (<[Z.to_nat i := v]> h).
Proof.
  intros H. unfold store.
  destruct (0 <=? i) eqn:E1; [|lia].
  destruct (i <? Z.of_nat (length h)) eqn:E2; [reflexivity | lia].
Qed.

Lemma val_insert_eq (h : list Z) (i v : Z) :
  0 <= i < Z.of_nat (length h) -> val (<[Z.to_nat i := v]> h) i = v.
Proof.
  intros H. unfold val. apply nth_lookup_Some.
  apply list_lookup_insert_eq. lia.
Qed.

Lemma val_insert_ne (h : list Z) (i j v : Z) :
  0 <= i -> 0 <= j -> i <> j -> val (<[Z.to_nat i := v]> h) j = val h j.
Proof.
  intros Hi Hj Hne. unfold val. rewrite !nth_lookup.
  rewrite list_lookup_insert_ne by lia. reflexivity.
Qed.

(** The exchange of two cells, in the order the loops write them. *)
Lemma val_exchange (h : list Z) (i j k : Z) :
  0 <= i < Z.of_nat (length h) -> 0 <= j < Z.of_nat (length h) -> 0 <= k -> i <> j ->
  val (<[Z.to_nat j := val h i]> (<[Z.to_nat i := val h j]> h)) k =
  if k =? i then val h j else if k =? j then val h i else val h k.
Proof.
  intros Hi Hj Hk Hne.
  destruct (k =? i) eqn:E1; [apply Z.eqb_eq in E1; subst k|apply Z.eqb_neq in E1].
  - rewrite val_insert_ne by lia. apply val_insert_eq. lia.
  - destruct (k =? j) eqn:E2; [apply Z.eqb_eq in E2; subst k|apply Z.eqb_neq in E2].
    + apply val_insert_eq. rewrite length_insert. lia.
    + rewrite !val_insert_ne by lia. reflexivity.
Qed.

Lemma exchange_prefix_perm (h : list Z) (i j n : Z) :
  0 <= i < n -> 0 <= j < n -> n <= Z.of_nat (length h) ->
  take (Z.to_nat n) (<[Z.to_nat j := val h i]> (<[Z.to_nat i := val h j]> h))
  ≡ₚ take (Z.to_nat n) h.
Proof.
  intros Hi Hj Hn.
  rewrite !take_insert_lt by lia.
  apply Permutation_insert_swap.
  - rewrite lookup_take_lt by lia. apply lookup_val. lia.
  - rewrite lookup_take_lt by lia. apply lookup_val. lia.
Qed.

(** ** Heap order *)

Lemma root_minimal (h : list Z) (n : Z) :
  heap_ordered h n -> forall i, 0 <= i < n -> val h 0 <= val h i.
Proof.
  intros Hh i Hi.
  assert (H : forall k : nat, forall i, 0 <= i < n -> Z.to_nat i = k -> val h 0 <= val h i).
  { induction k as [k IH] using lt_wf_ind. intros i0 Hi0 Hk.
    destruct (Z.eq_dec i0 0) as [->|Hne]; [lia|].
    assert (Hp : 0 <= parent_of i0 < i0) by zdiv.
    transitivity (val h (parent_of i0)).
    - apply (IH (Z.to_nat (parent_of i0))); lia.
    - apply Hh. lia. }
  apply (H (Z.to_nat i)); auto.
Qed.

(** ** [heap_sift_up] *)

Lemma sift_up_inv_done (h : list Z) (n k : Z) :
  sift_up_inv h n k ->
  (k = 0 \/ val h (parent_of k) <= val h k) ->
  heap_ordered h n.
Proof.
  intros [H1 H2] Hk i Hi.
  destruct (Z.eq_dec i k) as [->|Hne]; [|apply H1; assumption].
  destruct Hk as [->|Hk]; [lia | exact Hk].
Qed.

Lemma sift_up_inv_step (h : list Z) (n k : Z) :
  0 < k < n -> n <= Z.of_nat (length h) ->
  sift_up_inv h n k ->
  val h k < val h (parent_of k) ->
  sift_up_inv
    (<[Z.to_nat k := val h (parent_of k)]> (<[Z.to_nat (parent_of k) := val h k]> h))
    n (parent_of k).
Proof.
  intros Hk Hn [H1 H2] Hlt.
  set (p := parent_of k) in *.
  assert (Hp : 0 <= p < k) by (subst p; zdiv).
  assert (Hv : forall j, 0 <= j ->
            val (<[Z.to_nat k := val h p]> (<[Z.to_nat p := val h k]> h)) j =
            if j =? p then val h k else if j =? k then val h p else val h j).
  { intros j Hj. apply val_exchange; lia. }
  split.
  - intros i Hi Hip.
    assert (Hpi : 0 <= parent_of i < i) by zdiv.
    rewrite (Hv i) by lia. rewrite (Hv (parent_of i)) by lia.
    destruct (i =? p) eqn:E1; [apply Z.eqb_eq in E1; lia|].
    destruct (i =? k) eqn:E2.
    + apply Z.eqb_eq in E2. subst i. fold p.
      rewrite Z.eqb_refl. lia.
    + apply Z.eqb_neq in E2.
      destruct (parent_of i =? p) eqn:E3.
      * apply Z.eqb_eq in E3.
        assert (val h (parent_of i) <= val h i) by (apply H1; lia).
        rewrite E3 in H. lia.
      * destruct (parent_of i =? k) eqn:E4.
        -- apply Z.eqb_eq in E4. apply H2; lia.
        -- apply H1; lia.
  - intros i Hi Hip Hp0.
    assert (Hpp : 0 <= parent_of p < p) by zdiv.
    rewrite (Hv i) by lia. rewrite (Hv (parent_of p)) by lia.
    destruct (parent_of p =? p) eqn:E1; [apply Z.eqb_eq in E1; lia|].
    destruct (parent_of p =? k) eqn:E2; [apply Z.eqb_eq in E2; lia|].
    assert (Hpp' : val h (parent_of p) <= val h p) by (apply H1; lia).
    destruct (i =? p) eqn:E3; [apply Z.eqb_eq in E3; zdiv|].
    destruct (i =? k) eqn:E4; [exact Hpp'|].
    apply Z.eqb_neq in E4.
    assert (val h (parent_of i) <= val h i) by (apply H1; lia).
    rewrite Hip in H. lia.
Qed.

Lemma heap_sift_up_loop_spec (fuel : nat) (h : list Z) (n k : Z) :
  0 <= k < n -> n <= Z.of_nat (length h) -> n <= INT_MAX + 1 ->
  (Z.to_nat k < fuel)%nat ->
  sift_up_inv h n k ->
  exists h',
    heap_sift_up_loop fuel h k = Some h' /\
    length h' = length h /\
    heap_ordered h' n /\
    take (Z.to_nat n) h' ≡ₚ take (Z.to_nat n) h.
Proof.
  revert h k. induction fuel as [|fuel IH]; intros h k Hk Hn Hmax Hfuel Hinv; [lia|].
  simpl. destruct (0 <? k) eqn:E0.
  - apply Z.ltb_lt in E0.
    assert (Hp : 0 <= parent_of k < k) by zdiv.
    unfold INT_MAX in Hmax.
    rewrite int_op_ok by (unfold INT_MAX; lia). simpl.
    rewrite Z.quot_div_nonneg by lia.
    change ((k - 1) / 2) with (parent_of k).
    rewrite int_op_ok by (unfold INT_MAX; lia). simpl.
    rewrite !load_ok by lia. simpl.
    destruct (val h (parent_of k) <=? val h k) eqn:Ele.
    + apply Z.leb_le in Ele. exists h.
      split; [reflexivity|]. split; [reflexivity|].
      split; [|reflexivity].
      eapply sift_up_inv_done; [exact Hinv | right; exact Ele].
    + apply Z.leb_gt in Ele.
      rewrite store_ok by lia. simpl.
      rewrite store_ok by (rewrite length_insert; lia). simpl.
      destruct (IH (<[Z.to_nat k := val h (parent_of k)]>
                      (<[Z.to_nat (parent_of k) := val h k]> h)) (parent_of k))
        as (h' & Hrun & Hlen & Hord & Hperm).
      * lia.
      * rewrite !length_insert. lia.
      * unfold INT_MAX. lia.
      * lia.
      * apply sift_up_inv_step; try assumption; lia.
      * exists h'. split; [exact Hrun|].
        split; [rewrite Hlen, !length_insert; reflexivity|].
        split; [exact Hord|].
        rewrite Hperm. apply exchange_prefix_perm; lia.
  - apply Z.ltb_ge in E0. exists h.
    split; [reflexivity|]. split; [reflexivity|]. split; [|reflexivity].
    eapply sift_up_inv_done; [exact Hinv | left; lia].
Qed.

(** ** [heap_sift_down] *)

Lemma smallest_of_cases (h : list Z) (n k : Z) :
  0 <= k < n ->
  (smallest_of h n k = k /\
   forall i, 0 < i < n -> parent_of i = k -> val h k <= val h i) \/
  (k < smallest_of h n k < n /\ parent_of (smallest_of h n k) = k /\
   val h (smallest_of h n k) < val h k /\
   forall i, 0 < i < n -> parent_of i = k -> val h (smallest_of h n k) <= val h i).
Proof.
  intros Hk. unfold smallest_of.
  assert (Hch : forall i, 0 < i < n -> parent_of i = k -> i = 2 * k + 1 \/ i = 2 * k + 2)
    by (intros; zdiv).
  assert (Hl : parent_of (2 * k + 1) = k) by zdiv.
  assert (Hr : parent_of (2 * k + 2) = k) by zdiv.
  destruct (2 * k + 1 <? n) eqn:E1; simpl.
  - apply Z.ltb_lt in E1.
    destruct (val h (2 * k + 1) <? val h k) eqn:E2.
    + apply Z.ltb_lt in E2.
      destruct (2 * k + 2 <? n) eqn:E3; simpl.
      * apply Z.ltb_lt in E3.
        destruct (val h (2 * k + 2) <? val h (2 * k + 1)) eqn:E4.
        -- apply Z.ltb_lt in E4. right. repeat split; try lia.
           intros i Hi Hp. destruct (Hch i Hi Hp) as [->| ->]; lia.
        -- apply Z.ltb_ge in E4. right. repeat split; try lia.
           intros i Hi Hp. destruct (Hch i Hi Hp) as [->| ->]; lia.
      * apply Z.ltb_ge in E3. right. repeat split; try lia.
        intros i Hi Hp. destruct (Hch i Hi Hp) as [->| ->]; lia.
    + apply Z.ltb_ge in E2.
      destruct (2 * k + 2 <? n) eqn:E3; simpl.
      * apply Z.ltb_lt in E3.
        destruct (val h (2 * k + 2) <? val h k) eqn:E4.
        -- apply Z.ltb_lt in E4. right. repeat split; try lia.
           intros i Hi Hp. destruct (Hch i Hi Hp) as [->| ->]; lia.
        -- apply Z.ltb_ge in E4. left. split; [reflexivity|].
           intros i Hi Hp. destruct (Hch i Hi Hp) as [->| ->]; lia.
      * apply Z.ltb_ge in E3. left. split; [reflexivity|].
        intros i Hi Hp. destruct (Hch i Hi Hp) as [->| ->]; lia.
  - apply Z.ltb_ge in E1.
    destruct (2 * k + 2 <? n) eqn:E3; [apply Z.ltb_lt in E3; lia|]. simpl.
    left. split; [reflexivity|].
    intros i Hi Hp. destruct (Hch i Hi Hp) as [->| ->]; lia.
Qed.

Lemma sift_down_inv_done (h : list Z) (n k : Z) :
  sift_down_inv h n k ->
  (forall i, 0 < i < n -> parent_of i = k -> val h k <= val h i) ->
  heap_ordered h n.
Proof.
  intros [H1 H2] Hk i Hi.
  destruct (Z.eq_dec (parent_of i) k) as [E|E].
  - rewrite E. apply Hk; assumption.
  - apply H1; assumption.
Qed.

Lemma sift_down_inv_step (h : list Z) (n k s : Z) :
  0 <= k -> k < s < n -> n <= Z.of_nat (length h) ->
  parent_of s = k ->
  sift_down_inv h n k ->
  val h s < val h k ->
  (forall i, 0 < i < n -> parent_of i = k -> val h s <= val h i) ->
  sift_down_inv (<[Z.to_nat k := val h s]> (<[Z.to_nat s := val h k]> h)) n s.
Proof.
  intros Hk Hs Hn Hps [H1 H2] Hlt Hmin.
  assert (Hv : forall j, 0 <= j ->
            val (<[Z.to_nat k := val h s]> (<[Z.to_nat s := val h k]> h)) j =
            if j =? s then val h k else if j =? k then val h s else val h j).
  { intros j Hj. apply val_exchange; lia. }
  split.
  - intros i Hi Hip.
    assert (Hpi : 0 <= parent_of i < i) by zdiv.
    rewrite (Hv i) by lia. rewrite (Hv (parent_of i)) by lia.
    destruct (parent_of i =? s) eqn:E0; [apply Z.eqb_eq in E0; lia|].
    destruct (i =? s) eqn:E1.
    + apply Z.eqb_eq in E1. subst i. rewrite Hps, Z.eqb_refl. lia.
    + apply Z.eqb_neq in E1.
      destruct (i =? k) eqn:E2.
      * apply Z.eqb_eq in E2. subst i.
        destruct (parent_of k =? k) eqn:E3; [apply Z.eqb_eq in E3; lia|].
        apply H2; lia.
      * apply Z.eqb_neq in E2.
        destruct (parent_of i =? k) eqn:E3.
        -- apply Z.eqb_eq in E3. apply Hmin; lia.
        -- apply Z.eqb_neq in E3. apply H1; lia.
  - intros i Hi Hip Hs0.
    rewrite (Hv i) by lia. rewrite (Hv (parent_of s)) by zdiv.
    rewrite Hps, Z.eqb_refl.
    destruct (k =? s) eqn:E0; [apply Z.eqb_eq in E0; lia|].
    assert (Hpi : 0 <= parent_of i < i) by zdiv.
    destruct (i =? s) eqn:E1; [apply Z.eqb_eq in E1; lia|].
    destruct (i =? k) eqn:E2; [apply Z.eqb_eq in E2; lia|].
    assert (val h (parent_of i) <= val h i) by (apply H1; lia).
    rewrite Hip in H. exact H.
Qed.

(** One turn of the loop. *)
Ltac exchange_cells :=
  match goal with
  | |- (if ?s =? ?k then _ else _) = _ =>
      destruct (s =? k) eqn:?; [lia|];
      rewrite ?load_ok by lia; simpl;
      rewrite store_ok by lia; simpl;
      rewrite store_ok by (rewrite length_insert; lia); reflexivity
  end.

Lemma heap_sift_down_loop_step (fuel : nat) (h : list Z) (n k : Z) :
  0 <= k < n -> n <= Z.of_nat (length h) -> 2 * n <= INT_MAX ->
  heap_sift_down_loop (S fuel) h n k =
  if smallest_of h n k =? k then Some h
  else heap_sift_down_loop fuel
         (<[Z.to_nat k := val h (smallest_of h n k)]>
            (<[Z.to_nat (smallest_of h n k) := val h k]> h))
         n (smallest_of h n k).
Proof.
  intros Hk Hn Hmax. unfold INT_MAX in Hmax.
  cbn [heap_sift_down_loop].
  rewrite !int_op_ok by (unfold INT_MAX; lia). simpl.
  rewrite !int_op_ok by (unfold INT_MAX; lia). simpl.
  unfold smallest_of.
  replace (k * 2 + 1) with (2 * k + 1) by lia.
  replace (k * 2 + 2) with (2 * k + 2) by lia.
  destruct (2 * k + 1 <? n) eqn:E1; simpl.
  - apply Z.ltb_lt in E1.
    rewrite (load_ok h (2 * k + 1)), (load_ok h k) by lia. simpl.
    destruct (val h (2 * k + 1) <? val h k); simpl;
      destruct (2 * k + 2 <? n) eqn:E3; simpl.
    + apply Z.ltb_lt in E3. rewrite !load_ok by lia. simpl.
      destruct (val h (2 * k + 2) <? val h (2 * k + 1)); exchange_cells.
    + exchange_cells.
    + apply Z.ltb_lt in E3. rewrite !load_ok by lia. simpl.
      destruct (val h (2 * k + 2) <? val h k).
      * exchange_cells.
      * rewrite Z.eqb_refl. reflexivity.
    + rewrite Z.eqb_refl. reflexivity.
  - apply Z.ltb_ge in E1.
    destruct (2 * k + 2 <? n) eqn:E3; simpl; [apply Z.ltb_lt in E3; lia|].
    rewrite Z.eqb_refl. reflexivity.
Qed.

Lemma heap_sift_down_loop_spec (fuel : nat) (h : list Z) (n k : Z) :
  0 <= k < n -> n <= Z.of_nat (length h) -> 2 * n <= INT_MAX ->
  (Z.to_nat (n - k) <= fuel)%nat ->
  sift_down_inv h n k ->
  exists h',
    heap_sift_down_loop fuel h n k = Some h' /\
    length h' = length h /\
    heap_ordered h' n /\
    take (Z.to_nat n) h' ≡ₚ take (Z.to_nat n) h.
Proof.
  revert h k. induction fuel as [|fuel IH]; intros h k Hk Hn Hmax Hfuel Hinv; [lia|].
  rewrite heap_sift_down_loop_step by assumption.
  destruct (smallest_of_cases h n k Hk) as [[Hs Hmin]|(Hs & Hps & Hlt & Hmin)].
  - rewrite Hs, Z.eqb_refl. exists h.
    split; [reflexivity|]. split; [reflexivity|]. split; [|reflexivity].
    eapply sift_down_inv_done; eassumption.
  - set (s := smallest_of h n k) in *.
    destruct (s =? k) eqn:E; [apply Z.eqb_eq in E; lia|].
    destruct (IH (<[Z.to_nat k := val h s]> (<[Z.to_nat s := val h k]> h)) s)
      as (h' & Hrun & Hlen & Hord & Hperm).
    + lia.
    + rewrite !length_insert. lia.
    + exact Hmax.
    + lia.
    + apply sift_down_inv_step; try assumption; lia.
    + exists h'. split; [exact Hrun|].
      split; [rewrite Hlen, !length_insert; reflexivity|].
      split; [exact Hord|].
      rewrite Hperm. apply exchange_prefix_perm; lia.
Qed.

(** ** [min_heap_insert] *)

Lemma heap_ordered_ext (h h' : list Z) (n : Z) :
  (forall i, 0 <= i < n -> val h' i = val h i) ->
  heap_ordered h n -> heap_ordered h' n.
Proof.
  intros Hext Hh i Hi.
  assert (Hp : 0 <= parent_of i < i) by zdiv.
  rewrite !Hext by lia. apply Hh. exact Hi.
Qed.

Lemma sift_up_after_store (h : list Z) (n v : Z) :
  0 <= n < Z.of_nat (length h) -> n <= INT_MAX ->
  heap_ordered h n ->
  exists h',
    heap_sift_up (<[Z.to_nat n := v]> h) n = Some h' /\
    length h' = length h /\
    heap_ordered h' (n + 1) /\
    take (Z.to_nat (n + 1)) h' ≡ₚ v :: take (Z.to_nat n) h.
Proof.
  intros Hn Hmax Hh.
  destruct (heap_sift_up_loop_spec (S (Z.to_nat n)) (<[Z.to_nat n := v]> h) (n + 1) n)
    as (h' & Hrun & Hlen & Hord & Hperm).
  - lia.
  - rewrite length_insert. lia.
  - lia.
  - lia.
  - split.
    + intros i Hi Hne.
      assert (Hp : 0 <= parent_of i < i) by zdiv.
      rewrite !val_insert_ne by lia. apply Hh. lia.
    + intros i Hi Hp. exfalso. zdiv.
  - exists h'. split; [exact Hrun|]. split; [rewrite Hlen; apply length_insert|].
    split; [exact Hord|].
    rewrite Hperm.
    replace (Z.to_nat (n + 1)) with (S (Z.to_nat n)) by lia.
    rewrite (take_S_r _ _ v) by (apply list_lookup_insert_eq; lia).
    rewrite take_insert_ge by lia.
    symmetry. apply Permutation_cons_append.
Qed.

Lemma min_heap_insert_spec (d : Z) (q : queue) (v : Z) :
  wf_queue q -> 2 * size q <= INT_MAX ->
  exists q',
    min_heap_insert d q v = Some q' /\
    wf_queue q' /\
    size q' = size q + 1 /\
    contents q' ≡ₚ v :: contents q.
Proof.
  intros Hwf Hmax. unfold INT_MAX in Hmax.
  destruct q as [[h|] n c]; unfold wf_queue in Hwf; simpl in *.
  - destruct Hwf as (Hc & Hc0 & Hn & Hh).
    assert (Hgrow : exists block,
              (if c =? 0 then
                 Some {| heap := Some (malloc d 10); size := n; capacity := 10 |}
               else if c <=? n then
                 c' ← int_op (c * 2);
                 Some {| heap := Some (realloc d (Some h) c'); size := n; capacity := c' |}
               else Some {| heap := Some h; size := n; capacity := c |})
              = Some {| heap := Some block; size := n; capacity := Z.of_nat (length block) |} /\
              n < Z.of_nat (length block) /\
              (forall i, 0 <= i < n -> val block i = val h i) /\
              take (Z.to_nat n) block = take (Z.to_nat n) h).
    { destruct (c =? 0) eqn:E0; [apply Z.eqb_eq in E0; lia|].
      destruct (c <=? n) eqn:E1.
      - apply Z.leb_le in E1.
        rewrite int_op_ok by (unfold INT_MAX; lia). simpl.
        exists (realloc d (Some h) (c * 2)).
        assert (Hblock : realloc d (Some h) (c * 2) = h ++ malloc d (c * 2 - Z.of_nat (length h))).
        { unfold realloc. rewrite take_ge by lia. reflexivity. }
        rewrite Hblock. unfold malloc.
        rewrite length_app, length_replicate.
        split; [f_equal; f_equal; [rewrite take_ge by lia; reflexivity | lia]|].
        split; [lia|].
        split.
        + intros i Hi. unfold val. apply app_nth1. lia.
        + apply take_app_le. lia.
      - apply Z.leb_gt in E1. exists h. rewrite <- Hc.
        split; [reflexivity|]. split; [lia|]. split; reflexivity. }
    destruct Hgrow as (block & Hgrow & Hlen & Hval & Htake).
    unfold min_heap_insert. cbn [heap size capacity]. rewrite Hgrow. simpl.
    rewrite store_ok by lia. simpl.
    rewrite int_op_ok by (unfold INT_MAX; lia). simpl.
    rewrite int_op_ok by (unfold INT_MAX; lia). simpl.
    replace (n + 1 - 1) with n by lia.
    destruct (sift_up_after_store block n v) as (h' & Hrun & Hlen' & Hord & Hperm).
    + lia.
    + unfold INT_MAX. lia.
    + eapply heap_ordered_ext; [|exact Hh]. exact Hval.
    + rewrite Hrun. simpl. eexists. split; [reflexivity|].
      unfold wf_queue, contents. simpl.
      split; [|split; [reflexivity|]].
      * rewrite Hlen'. repeat split; try lia. exact Hord.
      * rewrite Hperm, Htake. reflexivity.
  - destruct Hwf as [-> ->].
    unfold min_heap_insert. simpl.
    eexists. split; [reflexivity|].
    unfold wf_queue, contents. simpl.
    split; [|split; reflexivity].
    repeat split; try lia.
    intros i Hi. lia.
Qed.

Lemma insert_all_spec (d : Z) (xs : list Z) (q : queue) :
  wf_queue q -> size q + Z.of_nat (length xs) <= 2 ^ 30 -> 0 <= size q ->
  exists q',
    insert_all d q xs = Some q' /\
    wf_queue q' /\
    size q' = size q + Z.of_nat (length xs) /\
    contents q' ≡ₚ xs ++ contents q.
Proof.
  revert q. induction xs as [|x xs IH]; intros q Hwf Hmax H0; simpl in *.
  - exists q. repeat split; try assumption; try lia. reflexivity.
  - destruct (min_heap_insert_spec d q x Hwf) as (q1 & Hins & Hwf1 & Hsz1 & Hc1).
    { unfold INT_MAX. lia. }
    destruct (IH q1 Hwf1) as (q' & Hall & Hwf' & Hsz' & Hc'); [lia | lia |].
    exists q'. rewrite Hins. simpl.
    split; [exact Hall|]. split; [exact Hwf'|]. split; [lia|].
    rewrite Hc', Hc1. symmetry. apply Permutation_middle.
Qed.

(** ** [min_heap_delete_min] *)

Lemma prefix_above_root (h : list Z) (n : Z) :
  heap_ordered h n -> 0 <= n <= Z.of_nat (length h) ->
  Forall (Z.le (val h 0)) (take (Z.to_nat n) h).
Proof.
  intros Hh Hn. apply List.Forall_forall. intros x Hx.
  apply (In_nth _ _ 0) in Hx as (i & Hi & <-).
  rewrite length_take in Hi.
  rewrite nth_lookup, lookup_take_lt, <- nth_lookup by lia.
  replace i with (Z.to_nat (Z.of_nat i)) by lia.
  apply (root_minimal h n Hh). lia.
Qed.

Lemma min_heap_delete_min_spec (q : queue) :
  wf_queue q -> 0 < size q -> 2 * (size q - 1) <= INT_MAX ->
  exists m q',
    min_heap_delete_min q = Some (m, q') /\
    wf_queue q' /\
    size q' = size q - 1 /\
    contents q ≡ₚ m :: contents q' /\
    Forall (Z.le m) (contents q').
Proof.
  intros Hwf Hpos Hmax. unfold INT_MAX in Hmax.
  destruct q as [[h|] n c]; unfold wf_queue in Hwf; simpl in *; [|lia].
  destruct Hwf as (Hc & Hc0 & Hn & Hh).
  assert (Habove : Forall (Z.le (val h 0)) (take (Z.to_nat n) h))
    by (apply prefix_above_root; [exact Hh | lia]).
  assert (Hsplit : (0 < n - 1 ->
                    exists t,
                      take (Z.to_nat n) h = val h 0 :: t ++ [val h (n - 1)] /\
                      take (Z.to_nat (n - 1)) (<[0%nat := val h (n - 1)]> h)
                      = val h (n - 1) :: t) /\
                   (n = 1 -> take (Z.to_nat n) h = [val h 0])).
  { destruct h as [|a h]; [simpl in Hc; lia|].
    assert (Ha : val (a :: h) 0 = a) by reflexivity.
    simpl length in Hc.
    split.
    - intros Hbig. exists (take (Z.to_nat (n - 1) - 1) h).
      replace (Z.to_nat n) with (S (Z.to_nat (n - 1))) by lia.
      rewrite (take_S_r (a :: h) (Z.to_nat (n - 1)) (val (a :: h) (n - 1)))
        by (apply lookup_val; simpl length; lia).
      rewrite Ha.
      replace (Z.to_nat (n - 1)) with (S (Z.to_nat (n - 1) - 1)) at 1 3 by lia.
      simpl. split; reflexivity.
    - intros ->. rewrite Ha. reflexivity. }
  destruct Hsplit as [Hbig Hone].
  assert (Hrun : forall block2,
            (if 0 <? n - 1 then heap_sift_down (<[0%nat := val h (n - 1)]> h) (n - 1) 0
             else Some (<[0%nat := val h (n - 1)]> h)) = Some block2 ->
            min_heap_delete_min {| heap := Some h; size := n; capacity := c |}
            = Some (val h 0, {| heap := Some block2; size := n - 1; capacity := c |})).
  { intros block2 Hb.
    unfold min_heap_delete_min. cbn [heap size capacity].
    destruct (n =? 0) eqn:E0; [apply Z.eqb_eq in E0; lia|].
    simpl.
    rewrite load_ok by lia. simpl.
    rewrite int_op_ok by (unfold INT_MAX; lia). simpl.
    rewrite load_ok by lia. simpl.
    rewrite store_ok by lia. simpl.
    change (Z.to_nat 0) with 0%nat. rewrite Hb. reflexivity. }
  destruct (0 <? n - 1) eqn:E1.
  - apply Z.ltb_lt in E1.
    destruct (heap_sift_down_loop_spec (S (Z.to_nat (n - 1)))
                (<[0%nat := val h (n - 1)]> h) (n - 1) 0)
      as (h' & Hdown & Hlen & Hord & Hperm).
    + lia.
    + rewrite length_insert. lia.
    + unfold INT_MAX. lia.
    + lia.
    + split.
      * intros i Hi Hp.
        assert (Hpi : 0 <= parent_of i < i) by zdiv.
        change 0%nat with (Z.to_nat 0).
        rewrite !val_insert_ne by lia. apply Hh. lia.
      * intros i Hi Hp Hk. lia.
    + exists (val h 0), {| heap := Some h'; size := n - 1; capacity := c |}.
      split; [apply Hrun; exact Hdown|].
      unfold wf_queue, contents. simpl.
      rewrite Hlen, length_insert.
      split; [repeat split; try lia; exact Hord|].
      split; [reflexivity|].
      assert (Hp : take (Z.to_nat n) h ≡ₚ val h 0 :: take (Z.to_nat (n - 1)) h').
      { destruct (Hbig E1) as (t & Ht1 & Ht2).
        rewrite Hperm, Ht1, Ht2.
        constructor. symmetry. apply Permutation_cons_append. }
      split; [exact Hp|].
      rewrite Hp in Habove. apply Forall_inv_tail in Habove. exact Habove.
  - apply Z.ltb_ge in E1.
    exists (val h 0), {| heap := Some (<[0%nat := val h (n - 1)]> h); size := n - 1; capacity := c |}.
    split; [apply Hrun; reflexivity|].
    unfold wf_queue, contents. simpl.
    rewrite length_insert.
    split; [repeat split; try lia; intros i Hi; lia|].
    split; [reflexivity|].
    assert (Hn1 : n = 1) by lia.
    rewrite (Hone Hn1). subst n. simpl.
    split; [reflexivity | constructor].
Qed.

Lemma delete_n_spec (n : nat) (q : queue) :
  wf_queue q -> size q = Z.of_nat n -> size q <= 2 ^ 30 ->
  exists out q',
    delete_n n q = Some (out, q') /\
    wf_queue q' /\ size q' = 0 /\
    StronglySorted Z.le out /\
    out ≡ₚ contents q.
Proof.
  revert q. induction n as [|n IH]; intros q Hwf Hsz Hmax; simpl.
  - exists [], q. split; [reflexivity|]. split; [exact Hwf|]. split; [lia|].
    split; [constructor|].
    unfold contents. rewrite Hsz. destruct (heap q); reflexivity.
  - destruct (min_heap_delete_min_spec q Hwf) as (m & q1 & Hdel & Hwf1 & Hsz1 & Hc & Hle).
    { lia. } { unfold INT_MAX. lia. }
    destruct (IH q1 Hwf1) as (out & q' & Hrun & Hwf' & Hsz' & Hsorted & Hperm); [lia | lia |].
    exists (m :: out), q'. rewrite Hdel. simpl. rewrite Hrun. simpl.
    split; [reflexivity|]. split; [exact Hwf'|]. split; [exact Hsz'|].
    split.
    + constructor; [exact Hsorted|]. rewrite Hperm. exact Hle.
    + rewrite Hc, Hperm. reflexivity.
Qed.

(** C8. From [heap = NULL, size = 0, capacity = 0], inserting the
    elements of any sequence of at most [2^30] integers one by one
    succeeds without undefined behaviour and leaves [size] at the length
    of the sequence; as many calls of [min_heap_delete_min] then succeed
    and return the elements of the input in nondecreasing order, each as
    often as it occurs in the input, and leave [size] at 0.  For the empty
    sequence nothing is extracted. *)
Theorem heap_returns_input_sorted (indeterminate : Z) (xs : list Z) :
  Z.of_nat (length xs) <= 2 ^ 30 ->
  exists q out q',
    insert_all indeterminate empty_queue xs = Some q /\
    size q = Z.of_nat (length xs) /\
    delete_n (length xs) q = Some (out, q') /\
    size q' = 0 /\
    StronglySorted Z.le out /\
    out ≡ₚ xs /\
    (xs = [] -> out = [] /\ q = empty_queue).
Proof.
  intros Hmax.
  destruct (insert_all_spec indeterminate xs empty_queue) as (q & Hins & Hwf & Hsz & Hc).
  { unfold wf_queue. simpl. auto. }
  { simpl. lia. }
  { simpl. lia. }
  simpl in Hsz.
  destruct (delete_n_spec (length xs) q Hwf Hsz) as (out & q' & Hdel & _ & Hsz' & Hsorted & Hperm).
  { lia. }
  exists q, out, q'.
  split; [exact Hins|]. split; [exact Hsz|]. split; [exact Hdel|].
  split; [exact Hsz'|]. split; [exact Hsorted|].
  split.
  - rewrite Hperm, Hc. simpl. rewrite app_nil_r. reflexivity.
  - intros ->. simpl in *. inversion Hins. inversion Hdel. auto.
Qed.

Lemma heap_returns_input_sorted_witness :
  exists q out q',
    insert_all 0 empty_queue [5; 3; 8; 1; 9; 2; 7; 7; -1; 0; 4; 6] = Some q /\
    size q = Z.of_nat (length [5; 3; 8; 1; 9; 2; 7; 7; -1; 0; 4; 6]) /\
    delete_n (length [5; 3; 8; 1; 9; 2; 7; 7; -1; 0; 4; 6]) q = Some (out, q') /\
    size q' = 0 /\
    StronglySorted Z.le out /\
    out ≡ₚ [5; 3; 8; 1; 9; 2; 7; 7; -1; 0; 4; 6] /\
    ([5; 3; 8; 1; 9; 2; 7; 7; -1; 0; 4; 6] = [] -> out = [] /\ q = empty_queue).
Proof.
  apply (heap_returns_input_sorted 0 [5; 3; 8; 1; 9; 2; 7; 7; -1; 0; 4; 6]).
  vm_compute. discriminate.
Defined.

(** The run of the witness, evaluated. *)
Example heap_run_example :
  (q ← insert_all 0 empty_queue [5; 3; 8; 1; 9; 2; 7; 7; -1; 0; 4; 6];
   '(out, q') ← delete_n 12 q;
   Some (out, size q'))
  = Some ([-1; 0; 1; 2; 3; 4; 5; 6; 7; 7; 8; 9], 0).
Proof. reflexivity. Qed.

(** ** The empty queue *)

(** C10. With [size] 0, [min_heap_delete_min] returns -1 and leaves the
    pointer, the size and the capacity as they are, and
    [min_heap_peek_min] returns -1; a queue that holds the single value
    -1 answers both calls with the same -1. *)
Theorem empty_queue_returns_sentinel (q : queue) :
  size q = 0 ->
  min_heap_delete_min q = Some (-1, q) /\
  min_heap_peek_min (heap q) (size q) = Some (-1) /\
  (forall indeterminate, exists q1 q2,
     min_heap_insert indeterminate empty_queue (-1) = Some q1 /\
     size q1 = 1 /\
     min_heap_peek_min (heap q1) (size q1) = Some (-1) /\
     min_heap_delete_min q1 = Some (-1, q2)).
Proof.
  intros Hsz. unfold min_heap_delete_min, min_heap_peek_min. rewrite Hsz. simpl.
  split; [reflexivity|]. split; [reflexivity|].
  intros d. eexists _, _. split; [reflexivity|]. simpl.
  split; [reflexivity|]. split; reflexivity.
Qed.

Lemma empty_queue_returns_sentinel_witness :
  min_heap_delete_min empty_queue = Some (-1, empty_queue) /\
  min_heap_peek_min (heap empty_queue) (size empty_queue) = Some (-1) /\
  (forall indeterminate, exists q1 q2,
     min_heap_insert indeterminate empty_queue (-1) = Some q1 /\
     size q1 = 1 /\
     min_heap_peek_min (heap q1) (size q1) = Some (-1) /\
     min_heap_delete_min q1 = Some (-1, q2)).
Proof. apply (empty_queue_returns_sentinel empty_queue). reflexivity. Defined.

(* ===================================================================== *)
(** * Further properties of the calculator library *)
(* ===================================================================== *)

(** ** Single calls on the queue *)

Lemma min_heap_insert_capacity (d : Z) (q q' : queue) (v : Z) :
  min_heap_insert d q v = Some q' -> capacity q' = grown_capacity q.
Proof.
  unfold min_heap_insert, grown_capacity. intros H.
  destruct (capacity q =? 0); simpl in H.
  - repeat match type of H with
           | (?x ≫= _) = Some _ => destruct x; simpl in H; [|discriminate]
           end.
    inversion H. reflexivity.
  - destruct (capacity q <=? size q); simpl in H.
    + destruct (int_op (capacity q * 2)) as [c|] eqn:Ec; simpl in H; [|discriminate].
      assert (c = capacity q * 2).
      { unfold int_op in Ec. destruct (_ && _); inversion Ec. reflexivity. }
      subst c.
      repeat match type of H with
             | (?x ≫= _) = Some _ => destruct x; simpl in H; [|discriminate]
             end.
      inversion H. reflexivity.
    + repeat match type of H with
             | (?x ≫= _) = Some _ => destruct x; simpl in H; [|discriminate]
             end.
      inversion H. reflexivity.
Qed.

Lemma min_heap_delete_min_capacity (q q' : queue) (m : Z) :
  min_heap_delete_min q = Some (m, q') -> capacity q' = capacity q.
Proof.
  unfold min_heap_delete_min. intros H.
  destruct (size q =? 0); [inversion H; reflexivity|].
  repeat match type of H with
         | (?x ≫= _) = Some _ => destruct x; simpl in H; [|discriminate]
         end.
  inversion H. reflexivity.
Qed.

(** X1. On a well-formed queue of fewer than [2^30] elements
    [min_heap_insert] succeeds: the state is again well formed, the size
    is one more, the capacity is 10 for a fresh queue, doubled for a full
    one and unchanged otherwise, and the contents are the old ones with
    one more occurrence of the value. *)
Theorem insert_adds_one_element (indeterminate : Z) (q : queue) (v : Z) :
  wf_queue q -> 2 * size q <= INT_MAX ->
  exists q',
    min_heap_insert indeterminate q v = Some q' /\
    wf_queue q' /\
    size q' = size q + 1 /\
    capacity q' = grown_capacity q /\
    contents q' ≡ₚ v :: contents q.
Proof.
  intros Hwf Hmax.
  destruct (min_heap_insert_spec indeterminate q v Hwf Hmax) as (q' & Hins & Hwf' & Hsz & Hc).
  exists q'. repeat split; try assumption.
  eapply min_heap_insert_capacity. exact Hins.
Qed.

Lemma insert_adds_one_element_witness :
  exists q',
    min_heap_insert 0 empty_queue 7 = Some q' /\
    wf_queue q' /\
    size q' = size empty_queue + 1 /\
    capacity q' = grown_capacity empty_queue /\
    contents q' ≡ₚ 7 :: contents empty_queue.
Proof.
  apply (insert_adds_one_element 0 empty_queue 7).
  - unfold wf_queue. simpl. auto.
  - vm_compute. discriminate.
Defined.

(** X2. On a well-formed queue that is not empty [min_heap_delete_min]
    succeeds and returns an element that is at most every element of the
    queue; one occurrence of it is removed, the size is one less, the
    capacity is kept and the state is again well formed. *)
Theorem delete_min_returns_least (q : queue) :
  wf_queue q -> 0 < size q -> 2 * (size q - 1) <= INT_MAX ->
  exists m q',
    min_heap_delete_min q = Some (m, q') /\
    wf_queue q' /\
    size q' = size q - 1 /\
    capacity q' = capacity q /\
    In m (contents q) /\
    Forall (Z.le m) (contents q) /\
    contents q ≡ₚ m :: contents q'.
Proof.
  intros Hwf Hpos Hmax.
  destruct (min_heap_delete_min_spec q Hwf Hpos Hmax) as (m & q' & Hdel & Hwf' & Hsz & Hc & Hle).
  exists m, q'.
  split; [exact Hdel|]. split; [exact Hwf'|]. split; [exact Hsz|].
  split; [eapply min_heap_delete_min_capacity; exact Hdel|].
  split; [eapply Permutation_in; [symmetry; exact Hc | left; reflexivity]|].
  split; [|exact Hc].
  rewrite Hc. constructor; [lia | exact Hle].
Qed.

Lemma delete_min_returns_least_witness :
  exists m q',
    min_heap_delete_min {| heap := Some [1; 4; 2; 9]; size := 3; capacity := 4 |}
      = Some (m, q') /\
    wf_queue q' /\
    size q' = size {| heap := Some [1; 4; 2; 9]; size := 3; capacity := 4 |} - 1 /\
    capacity q' = capacity {| heap := Some [1; 4; 2; 9]; size := 3; capacity := 4 |} /\
    In m (contents {| heap := Some [1; 4; 2; 9]; size := 3; capacity := 4 |}) /\
    Forall (Z.le m) (contents {| heap := Some [1; 4; 2; 9]; size := 3; capacity := 4 |}) /\
    contents {| heap := Some [1; 4; 2; 9]; size := 3; capacity := 4 |} ≡ₚ m :: contents q'.
Proof.
  apply (delete_min_returns_least {| heap := Some [1; 4; 2; 9]; size := 3; capacity := 4 |}).
  - unfold wf_queue. simpl. repeat split; try lia.
    intros i Hi. assert (Hc : i = 1 \/ i = 2) by lia.
    destruct Hc as [-> | ->]; vm_compute; discriminate.
  - simpl. lia.
  - vm_compute. discriminate.
Defined.

Lemma peek_value (q : queue) (h : list Z) :
  heap q = Some h -> 0 < size q -> size q <= Z.of_nat (length h) ->
  min_heap_peek_min (heap q) (size q) = Some (val h 0) /\
  hd (-1) (contents q) = val h 0.
Proof.
  intros Hh Hpos Hlen. unfold min_heap_peek_min, contents. rewrite Hh.
  destruct (size q =? 0) eqn:E; [apply Z.eqb_eq in E; lia|]. simpl.
  split; [apply load_ok; lia|].
  destruct h as [|a h]; [simpl in Hlen; lia|].
  replace (Z.to_nat (size q)) with (S (Z.to_nat (size q) - 1)) by lia.
  reflexivity.
Qed.

(** X3. [min_heap_peek_min] on a well-formed, non-empty queue returns an
    element that is at most every element of the queue, and it is the
    value the next [min_heap_delete_min] returns. *)
Theorem peek_min_is_next_delete (q : queue) :
  wf_queue q -> 0 < size q -> 2 * (size q - 1) <= INT_MAX ->
  exists m q',
    min_heap_peek_min (heap q) (size q) = Some m /\
    In m (contents q) /\
    Forall (Z.le m) (contents q) /\
    min_heap_delete_min q = Some (m, q').
Proof.
  intros Hwf Hpos Hmax.
  destruct (min_heap_delete_min_spec q Hwf Hpos Hmax) as (m & q' & Hdel & Hwf' & Hsz & Hc & Hle).
  exists m, q'.
  assert (Hpeek : min_heap_peek_min (heap q) (size q) = Some m).
  { unfold wf_queue in Hwf. destruct (heap q) as [h|] eqn:Hh; [|lia].
    destruct Hwf as (Hcap & _ & Hn & _).
    destruct (peek_value q h Hh Hpos) as [Hp _]; [lia|].
    rewrite <- Hh, Hp. f_equal.
    unfold min_heap_delete_min in Hdel. rewrite Hh in Hdel.
    destruct (size q =? 0) eqn:E; [apply Z.eqb_eq in E; lia|].
    simpl in Hdel. rewrite load_ok in Hdel by lia. simpl in Hdel.
    repeat match type of Hdel with
           | (?x ≫= _) = Some _ => destruct x; simpl in Hdel; [|discriminate]
           end.
    inversion Hdel. reflexivity. }
  split; [exact Hpeek|].
  split; [eapply Permutation_in; [symmetry; exact Hc | left; reflexivity]|].
  split; [|exact Hdel].
  rewrite Hc. constructor; [lia | exact Hle].
Qed.

Lemma peek_min_is_next_delete_witness :
  exists m q',
    min_heap_peek_min (heap {| heap := Some [1; 4; 2; 9]; size := 3; capacity := 4 |})
      (size {| heap := Some [1; 4; 2; 9]; size := 3; capacity := 4 |}) = Some m /\
    In m (contents {| heap := Some [1; 4; 2; 9]; size := 3; capacity := 4 |}) /\
    Forall (Z.le m) (contents {| heap := Some [1; 4; 2; 9]; size := 3; capacity := 4 |}) /\
    min_heap_delete_min {| heap := Some [1; 4; 2; 9]; size := 3; capacity := 4 |} = Some (m, q').
Proof.
  apply (peek_min_is_next_delete {| heap := Some [1; 4; 2; 9]; size := 3; capacity := 4 |}).
  - unfold wf_queue. simpl. repeat split; try lia.
    intros i Hi. assert (Hc : i = 1 \/ i = 2) by lia.
    destruct Hc as [-> | ->]; vm_compute; discriminate.
  - simpl. lia.
  - vm_compute. discriminate.
Defined.

(** ** Any sequence of calls *)

Lemma sorted_insert_perm (v : Z) (l : list Z) : sorted_insert v l ≡ₚ v :: l.
Proof.
  induction l as [|x l IH]; simpl; [reflexivity|].
  destruct (v <=? x); [reflexivity|].
  rewrite IH. apply perm_swap.
Qed.

Lemma sorted_insert_sorted (v : Z) (l : list Z) :
  StronglySorted Z.le l -> StronglySorted Z.le (sorted_insert v l).
Proof.
  induction l as [|x l IH]; simpl; intros Hs.
  - repeat constructor.
  - apply StronglySorted_inv in Hs as [Hs Hall].
    destruct (v <=? x) eqn:E.
    + apply Z.leb_le in E. constructor; [constructor; assumption|].
      constructor; [exact E|].
      eapply List.Forall_impl; [|exact Hall]. intros y Hy. simpl in Hy. lia.
    + apply Z.leb_gt in E. constructor; [apply IH; exact Hs|].
      rewrite sorted_insert_perm. constructor; [lia | exact Hall].
Qed.

Lemma sort_ints_perm (l : list Z) : sort_ints l ≡ₚ l.
Proof.
  induction l as [|x l IH]; simpl; [reflexivity|].
  rewrite sorted_insert_perm, IH. reflexivity.
Qed.

Lemma sort_ints_sorted (l : list Z) : StronglySorted Z.le (sort_ints l).
Proof.
  induction l as [|x l IH]; simpl; [constructor|].
  apply sorted_insert_sorted. exact IH.
Qed.

Lemma sorted_perm_eq (l1 l2 : list Z) :
  StronglySorted Z.le l1 -> StronglySorted Z.le l2 -> l1 ≡ₚ l2 -> l1 = l2.
Proof.
  intros H1 H2 Hp. eapply (StronglySorted_unique Z.le); eassumption.
Qed.

Lemma peek_delete_agree (q q' : queue) (m : Z) :
  wf_queue q -> 0 < size q ->
  min_heap_delete_min q = Some (m, q') ->
  min_heap_peek_min (heap q) (size q) = Some m.
Proof.
  intros Hwf Hpos Hdel.
  unfold wf_queue in Hwf. destruct (heap q) as [h|] eqn:Hh; [|lia].
  destruct Hwf as (Hcap & _ & Hn & _).
  destruct (peek_value q h Hh Hpos) as [Hp _]; [lia|].
  rewrite <- Hh, Hp. f_equal.
  unfold min_heap_delete_min in Hdel. rewrite Hh in Hdel.
  destruct (size q =? 0) eqn:E; [apply Z.eqb_eq in E; lia|].
  simpl in Hdel. rewrite load_ok in Hdel by lia. simpl in Hdel.
  repeat match type of Hdel with
         | (?x ≫= _) = Some _ => destruct x; simpl in Hdel; [|discriminate]
         end.
  inversion Hdel. reflexivity.
Qed.

Lemma least_is_head (x m : Z) (r c : list Z) :
  StronglySorted Z.le (x :: r) -> Forall (Z.le m) c -> x :: r ≡ₚ m :: c ->
  x = m /\ r ≡ₚ c.
Proof.
  intros Hs Hle Hp.
  apply StronglySorted_inv in Hs as [_ Hall].
  assert (Hxm : x <= m).
  { assert (Hin : In m (x :: r)) by (eapply Permutation_in; [symmetry; exact Hp | left; reflexivity]).
    destruct Hin as [->|Hin]; [lia|].
    rewrite List.Forall_forall in Hall. apply Hall. exact Hin. }
  assert (Hmx : m <= x).
  { assert (Hin : In x (m :: c)) by (eapply Permutation_in; [exact Hp | left; reflexivity]).
    destruct Hin as [->|Hin]; [lia|].
    rewrite List.Forall_forall in Hle. apply Hle. exact Hin. }
  assert (x = m) by lia. subst x.
  split; [reflexivity|]. eapply Permutation_cons_inv. exact Hp.
Qed.

Lemma do_calls_refine (d : Z) (cs : list call) (q : queue) (l : list Z) :
  wf_queue q -> contents q ≡ₚ l -> StronglySorted Z.le l ->
  size q = Z.of_nat (length l) ->
  size q + Z.of_nat (length cs) <= 2 ^ 30 ->
  exists q',
    do_calls d q cs = Some (fst (ref_calls l cs), q') /\
    wf_queue q' /\
    contents q' ≡ₚ snd (ref_calls l cs) /\
    size q' = Z.of_nat (length (snd (ref_calls l cs))).
Proof.
  revert q l. induction cs as [|c cs IH]; intros q l Hwf Hc Hs Hsz Hmax.
  - exists q. simpl. auto.
  - cbn [length] in Hmax.
    assert (Hstep : exists q1,
              do_call d q c = Some (fst (ref_call l c), q1) /\
              wf_queue q1 /\ contents q1 ≡ₚ snd (ref_call l c) /\
              StronglySorted Z.le (snd (ref_call l c)) /\
              size q1 = Z.of_nat (length (snd (ref_call l c))) /\
              size q1 <= size q + 1).
    { destruct c as [v| |]; simpl.
      - destruct (min_heap_insert_spec d q v Hwf) as (q1 & Hins & Hwf1 & Hsz1 & Hc1).
        { unfold INT_MAX. lia. }
        exists q1. rewrite Hins. simpl.
        split; [reflexivity|]. split; [exact Hwf1|].
        split; [rewrite Hc1, Hc; symmetry; apply sorted_insert_perm|].
        split; [apply sorted_insert_sorted; exact Hs|].
        split; [|lia].
        rewrite (Permutation_length (sorted_insert_perm v l)). simpl. lia.
      - destruct l as [|x r].
        + simpl in Hsz. unfold min_heap_delete_min. rewrite Hsz. simpl.
          exists q. repeat split; try assumption; try lia.
        + simpl in Hsz.
          destruct (min_heap_delete_min_spec q Hwf) as (m & q1 & Hdel & Hwf1 & Hsz1 & Hc1 & Hle).
          { lia. } { unfold INT_MAX. lia. }
          destruct (least_is_head x m r (contents q1) Hs Hle) as [-> Hr].
          { rewrite <- Hc, Hc1. reflexivity. }
          exists q1. rewrite Hdel. simpl.
          split; [reflexivity|]. split; [exact Hwf1|].
          split; [symmetry; exact Hr|].
          split; [apply StronglySorted_inv in Hs; tauto|].
          split; lia.
      - destruct l as [|x r].
        + simpl in Hsz. unfold min_heap_peek_min. rewrite Hsz. simpl.
          exists q. repeat split; try assumption; try lia.
        + simpl in Hsz.
          destruct (min_heap_delete_min_spec q Hwf) as (m & q1 & Hdel & Hwf1 & Hsz1 & Hc1 & Hle).
          { lia. } { unfold INT_MAX. lia. }
          destruct (least_is_head x m r (contents q1) Hs Hle) as [-> Hr].
          { rewrite <- Hc, Hc1. reflexivity. }
          rewrite (peek_delete_agree q q1 m Hwf ltac:(lia) Hdel). simpl.
          exists q. repeat split; try assumption; simpl; lia. }
    destruct Hstep as (q1 & Hcall & Hwf1 & Hc1 & Hs1 & Hsz1 & Hgrow).
    destruct (IH q1 (snd (ref_call l c)) Hwf1 Hc1 Hs1 Hsz1) as (q' & Hrest & Hwf' & Hc' & Hsz').
    { lia. }
    exists q'. simpl. rewrite Hcall. simpl. rewrite Hrest. simpl.
    destruct (ref_call l c) as [r l1]. simpl in *.
    destruct (ref_calls l1 cs) as [rs l2]. simpl in *. auto.
Qed.

(** X4. Any sequence of at most [2^30] calls of [min_heap_insert],
    [min_heap_delete_min] and [min_heap_peek_min], started on
    [heap = NULL, size = 0, capacity = 0], runs without undefined
    behaviour and returns, call by call, what the same calls return on a
    sorted list (the head, or -1 when the list is empty); the queue ends
    up holding the elements of that list. *)
Theorem calls_agree_with_sorted_list (indeterminate : Z) (cs : list call) :
  Z.of_nat (length cs) <= 2 ^ 30 ->
  exists q,
    do_calls indeterminate empty_queue cs = Some (fst (ref_calls [] cs), q) /\
    wf_queue q /\
    contents q ≡ₚ snd (ref_calls [] cs) /\
    size q = Z.of_nat (length (snd (ref_calls [] cs))).
Proof.
  intros Hmax.
  apply do_calls_refine.
  - unfold wf_queue. simpl. auto.
  - reflexivity.
  - constructor.
  - reflexivity.
  - simpl. lia.
Qed.

Lemma calls_agree_with_sorted_list_witness :
  exists q,
    do_calls 0 empty_queue
      [PeekMin; Insert 5; Insert (-1); PeekMin; Insert 3; DeleteMin; DeleteMin; DeleteMin; DeleteMin]
    = Some (fst (ref_calls []
                   [PeekMin; Insert 5; Insert (-1); PeekMin; Insert 3;
                    DeleteMin; DeleteMin; DeleteMin; DeleteMin]), q) /\
    wf_queue q /\
    contents q ≡ₚ snd (ref_calls []
                         [PeekMin; Insert 5; Insert (-1); PeekMin; Insert 3;
                          DeleteMin; DeleteMin; DeleteMin; DeleteMin]) /\
    size q = Z.of_nat (length (snd (ref_calls []
                                      [PeekMin; Insert 5; Insert (-1); PeekMin; Insert 3;
                                       DeleteMin; DeleteMin; DeleteMin; DeleteMin]))).
Proof.
  apply (calls_agree_with_sorted_list 0
           [PeekMin; Insert 5; Insert (-1); PeekMin; Insert 3;
            DeleteMin; DeleteMin; DeleteMin; DeleteMin]).
  vm_compute. discriminate.
Defined.

(** ** Draining and growing *)

Lemma delete_n_capacity (n : nat) (q q' : queue) (out : list Z) :
  delete_n n q = Some (out, q') -> capacity q' = capacity q.
Proof.
  revert q q' out. induction n as [|n IH]; intros q q' out H; simpl in H.
  - inversion H. reflexivity.
  - destruct (min_heap_delete_min q) as [[m q1]|] eqn:Hd; simpl in H; [|discriminate].
    destruct (delete_n n q1) as [[rest q2]|] eqn:Hn; simpl in H; [|discriminate].
    inversion H. subst.
    rewrite (IH _ _ _ Hn). eapply min_heap_delete_min_capacity. exact Hd.
Qed.

Lemma drain_loop_delete_n (n fuel : nat) (q : queue) :
  wf_queue q -> size q = Z.of_nat n -> size q <= 2 ^ 30 -> (n < fuel)%nat ->
  drain_loop fuel q = delete_n n q.
Proof.
  revert fuel q. induction n as [|n IH]; intros fuel q Hwf Hsz Hmax Hfuel;
    (destruct fuel as [|fuel]; [lia|]); simpl.
  - rewrite Hsz. reflexivity.
  - destruct (0 <? size q) eqn:E; [|apply Z.ltb_ge in E; lia].
    destruct (min_heap_delete_min_spec q Hwf) as (m & q1 & Hdel & Hwf1 & Hsz1 & _).
    { lia. } { unfold INT_MAX. lia. }
    rewrite Hdel. simpl. rewrite (IH fuel q1); [reflexivity | exact Hwf1 | lia | lia | lia].
Qed.

Lemma drain_spec (q : queue) :
  wf_queue q -> size q <= 2 ^ 30 ->
  exists q',
    drain q = Some (sort_ints (contents q), q') /\
    wf_queue q' /\ size q' = 0 /\ capacity q' = capacity q.
Proof.
  intros Hwf Hmax.
  assert (Hn : size q = Z.of_nat (Z.to_nat (size q))).
  { unfold wf_queue in Hwf. destruct (heap q); lia. }
  destruct (delete_n_spec (Z.to_nat (size q)) q Hwf Hn Hmax)
    as (out & q' & Hdel & Hwf' & Hsz' & Hsorted & Hperm).
  exists q'. unfold drain.
  rewrite (drain_loop_delete_n (Z.to_nat (size q))) by (try assumption; lia).
  rewrite Hdel.
  assert (Hout : out = sort_ints (contents q)).
  { apply sorted_perm_eq; [exact Hsorted | apply sort_ints_sorted|].
    rewrite Hperm. symmetry. apply sort_ints_perm. }
  rewrite Hout.
  split; [reflexivity|]. split; [exact Hwf'|]. split; [exact Hsz'|].
  eapply delete_n_capacity. exact Hdel.
Qed.

(** X5. The loop [while (size > 0) min_heap_delete_min] on a well-formed
    queue of at most [2^30] elements ends, returns exactly the contents of
    the queue in nondecreasing order, and leaves the size at 0 and the
    capacity as it was. *)
Theorem drain_returns_sorted_contents (q : queue) :
  wf_queue q -> size q <= 2 ^ 30 ->
  exists q',
    drain q = Some (sort_ints (contents q), q') /\
    wf_queue q' /\ size q' = 0 /\ capacity q' = capacity q.
Proof. exact (drain_spec q). Qed.

Lemma drain_returns_sorted_contents_witness :
  exists q',
    drain {| heap := Some [1; 4; 2; 9]; size := 3; capacity := 4 |}
      = Some (sort_ints (contents {| heap := Some [1; 4; 2; 9]; size := 3; capacity := 4 |}), q') /\
    wf_queue q' /\ size q' = 0 /\
    capacity q' = capacity {| heap := Some [1; 4; 2; 9]; size := 3; capacity := 4 |}.
Proof.
  apply (drain_returns_sorted_contents {| heap := Some [1; 4; 2; 9]; size := 3; capacity := 4 |}).
  - unfold wf_queue. simpl. repeat split; try lia.
    intros i Hi. assert (Hc : i = 1 \/ i = 2) by lia.
    destruct Hc as [-> | ->]; vm_compute; discriminate.
  - vm_compute. discriminate.
Defined.

Lemma min_heap_insert_capacity_bounded (d : Z) (q : queue) (x : Z) :
  wf_queue q -> 2 * size q <= INT_MAX -> capacity_bounded q ->
  exists q1,
    min_heap_insert d q x = Some q1 /\ wf_queue q1 /\
    size q1 = size q + 1 /\ capacity_bounded q1.
Proof.
  intros Hwf Hmax Hcap.
  destruct (min_heap_insert_spec d q x Hwf Hmax) as (q1 & Hins & Hwf1 & Hsz1 & _).
  pose proof (min_heap_insert_capacity d q q1 x Hins) as Hc1.
  exists q1. split; [exact Hins|]. split; [exact Hwf1|]. split; [exact Hsz1|].
  assert (H0 : 0 <= size q <= capacity q) by (unfold wf_queue in Hwf; destruct (heap q); lia).
  right. unfold grown_capacity in Hc1.
  destruct (capacity q =? 0) eqn:E0.
  - apply Z.eqb_eq in E0. split; [exists 0; split; [lia | rewrite Hc1; reflexivity]|]. lia.
  - apply Z.eqb_neq in E0. destruct Hcap as [Hcap|[(k & Hk & Hcap) Hbound]]; [lia|].
    assert (Hpow : 0 < 2 ^ k) by (apply Z.pow_pos_nonneg; lia).
    destruct (capacity q <=? size q) eqn:E1.
    + apply Z.leb_le in E1. split.
      * exists (k + 1). split; [lia|]. rewrite Hc1, Hcap, Z.pow_add_r by lia. lia.
      * lia.
    + apply Z.leb_gt in E1. split; [exists k; split; [lia | lia]|]. lia.
Qed.

Lemma insert_all_capacity_bounded (d : Z) (xs : list Z) (q : queue) :
  wf_queue q -> size q + Z.of_nat (length xs) <= 2 ^ 30 -> capacity_bounded q ->
  exists q',
    insert_all d q xs = Some q' /\ wf_queue q' /\
    size q' = size q + Z.of_nat (length xs) /\ capacity_bounded q'.
Proof.
  revert q. induction xs as [|x xs IH]; intros q Hwf Hmax Hcap.
  - exists q. simpl. repeat split; try assumption. lia.
  - cbn [length] in Hmax.
    assert (H0 : 0 <= size q) by (unfold wf_queue in Hwf; destruct (heap q); lia).
    destruct (min_heap_insert_capacity_bounded d q x Hwf) as (q1 & Hins & Hwf1 & Hsz1 & Hcap1);
      [unfold INT_MAX; lia | exact Hcap |].
    destruct (IH q1 Hwf1) as (q' & Hall & Hwf' & Hsz' & Hcap'); [lia | exact Hcap1 |].
    exists q'. simpl. rewrite Hins. simpl.
    split; [exact Hall|]. split; [exact Hwf'|]. split; [lia | exact Hcap'].
Qed.

(** X6. After [n >= 1] insertions into the empty queue ([n] at most
    [2^30]) the capacity is 10 times a power of two, at least [n], and at
    most the larger of 10 and [2n - 2]: the block is never more than twice
    as large as it has to be. *)
Theorem capacity_after_insertions (indeterminate : Z) (xs : list Z) :
  xs <> [] -> Z.of_nat (length xs) <= 2 ^ 30 ->
  exists q k,
    insert_all indeterminate empty_queue xs = Some q /\
    size q = Z.of_nat (length xs) /\
    0 <= k /\ capacity q = 10 * 2 ^ k /\
    size q <= capacity q <= Z.max 10 (2 * size q - 2).
Proof.
  intros Hne Hmax.
  destruct (insert_all_capacity_bounded indeterminate xs empty_queue) as (q & Hall & _ & Hsz & Hcap).
  - unfold wf_queue. simpl. auto.
  - simpl. lia.
  - left. auto.
  - simpl in Hsz.
    destruct Hcap as [[_ Hz]|[(k & Hk & Hcap) Hbound]].
    + destruct xs; [congruence | simpl in Hsz; lia].
    + exists q, k. repeat split; try assumption; lia.
Qed.

Lemma capacity_after_insertions_witness :
  exists q k,
    insert_all 0 empty_queue [3; 1; 4; 1; 5; 9; 2; 6; 5; 3; 5] = Some q /\
    size q = Z.of_nat (length [3; 1; 4; 1; 5; 9; 2; 6; 5; 3; 5]) /\
    0 <= k /\ capacity q = 10 * 2 ^ k /\
    size q <= capacity q <= Z.max 10 (2 * size q - 2).
Proof.
  apply (capacity_after_insertions 0 [3; 1; 4; 1; 5; 9; 2; 6; 5; 3; 5]).
  - discriminate.
  - vm_compute. discriminate.
Defined.

(** ** The arithmetic functions *)

Lemma int_op_Some (z r : Z) : int_op z = Some r -> r = z /\ - 2 ^ 31 <= z <= INT_MAX.
Proof.
  unfold int_op, INT_MAX. intros H.
  destruct (- 2 ^ 31 <=? z) eqn:E1; simpl in H; [|discriminate].
  destruct (z <=? 2147483647) eqn:E2; [|discriminate].
  inversion H. lia.
Qed.

Lemma quot_in_range (a b : Z) :
  - 2 ^ 31 <= a <= INT_MAX -> b <> 0 -> ~ (a = - 2 ^ 31 /\ b = -1) ->
  - 2 ^ 31 <= Z.quot a b <= INT_MAX.
Proof.
  unfold INT_MAX. intros Ha Hb Hn.
  pose proof (Z.quot_rem a b Hb) as Hqr.
  pose proof (Z.rem_bound_abs a b Hb) as Hr.
  pose proof (Z.rem_sign_mul a b Hb) as Hs.
  destruct (Z.eq_dec b (-1)) as [->|Hb1].
  - clear Hqr Hr Hs. change (-1) with (- (1)) in *.
    rewrite Z.quot_opp_r, Z.quot_1_r by lia. lia.
  - nia.
Qed.

(** X7. [divide] and [calculator_mod] on [int] arguments: a zero divisor
    gives 0 with the flag set to 1; [INT_MIN] by -1 is undefined; every
    other call is defined, clears the flag and returns the quotient
    truncated toward zero, respectively its remainder.  A null flag
    pointer is never written. *)
Theorem division_is_guarded (a b : Z) (error : option Z) :
  - 2 ^ 31 <= a <= INT_MAX -> - 2 ^ 31 <= b <= INT_MAX ->
  (b = 0 ->
   divide a b error = Some (0, set_error error 1) /\
   calculator_mod a b error = Some (0, set_error error 1)) /\
  (a = - 2 ^ 31 /\ b = -1 ->
   divide a b error = None /\ calculator_mod a b error = None) /\
  (b <> 0 -> ~ (a = - 2 ^ 31 /\ b = -1) ->
   divide a b error = Some (Z.quot a b, set_error error 0) /\
   calculator_mod a b error = Some (Z.rem a b, set_error error 0)) /\
  (error = None ->
   snd <$> divide a b error = None \/ snd <$> divide a b error = Some None).
Proof.
  intros Ha Hb. split; [|split; [|split]].
  - intros ->. split; reflexivity.
  - intros [-> ->]. split; reflexivity.
  - intros Hb0 Hn. unfold divide, calculator_mod, int_div, int_mod.
    destruct (b =? 0) eqn:E; [apply Z.eqb_eq in E; lia|].
    rewrite int_op_ok by (apply quot_in_range; assumption).
    split; reflexivity.
  - intros ->. unfold divide, int_div.
    destruct (b =? 0); simpl; [right; reflexivity|].
    destruct (int_op (Z.quot a b)); simpl; [right | left]; reflexivity.
Qed.

Lemma division_is_guarded_witness :
  (3 = 0 ->
   divide (-7) 3 (Some 5) = Some (0, set_error (Some 5) 1) /\
   calculator_mod (-7) 3 (Some 5) = Some (0, set_error (Some 5) 1)) /\
  (-7 = - 2 ^ 31 /\ 3 = -1 ->
   divide (-7) 3 (Some 5) = None /\ calculator_mod (-7) 3 (Some 5) = None) /\
  (3 <> 0 -> ~ (-7 = - 2 ^ 31 /\ 3 = -1) ->
   divide (-7) 3 (Some 5) = Some (Z.quot (-7) 3, set_error (Some 5) 0) /\
   calculator_mod (-7) 3 (Some 5) = Some (Z.rem (-7) 3, set_error (Some 5) 0)) /\
  (Some 5 = None ->
   snd <$> divide (-7) 3 (Some 5) = None \/ snd <$> divide (-7) 3 (Some 5) = Some None).
Proof.
  apply (division_is_guarded (-7) 3 (Some 5)); vm_compute; split; discriminate.
Defined.

(** X8. Whenever [divide] and [calculator_mod] both return for the same
    operands and a non-zero divisor, the quotient [q] and the remainder
    [r] satisfy [a = q * b + r], [|r| < |b|], and [r] is zero or has the
    sign of [a]. *)
Theorem quotient_and_remainder (a b q r : Z) (e1 e2 e1' e2' : option Z) :
  b <> 0 ->
  divide a b e1 = Some (q, e1') ->
  calculator_mod a b e2 = Some (r, e2') ->
  a = q * b + r /\ Z.abs r < Z.abs b /\ 0 <= r * a.
Proof.
  intros Hb Hd Hm. unfold divide, calculator_mod, int_div, int_mod in *.
  destruct (b =? 0) eqn:E; [apply Z.eqb_eq in E; lia|].
  destruct (int_op (Z.quot a b)) as [q0|] eqn:Hq; simpl in *; [|discriminate].
  apply int_op_Some in Hq as [-> _].
  inversion Hd. inversion Hm. subst.
  pose proof (Z.quot_rem a b Hb).
  pose proof (Z.rem_bound_abs a b Hb).
  pose proof (Z.rem_sign_mul a b Hb).
  repeat split; lia.
Qed.

Lemma quotient_and_remainder_witness :
  -7 = -2 * 3 + -1 /\ Z.abs (-1) < Z.abs 3 /\ 0 <= -1 * -7.
Proof.
  apply (quotient_and_remainder (-7) 3 (-2) (-1) (Some 1) None (Some 0) None);
    [discriminate | reflexivity | reflexivity].
Defined.

(** X9. What [add] and [multiply] return can be undone: if [add(a, b)]
    is defined then [subtract] of the sum and [b] returns [a], and if
    [multiply(a, b)] is defined with [b] not zero then [divide] of the
    product by [b] returns [a] with the flag cleared. *)
Theorem sum_and_product_undone (a b : Z) (error : option Z) :
  - 2 ^ 31 <= a <= INT_MAX ->
  (forall s, add a b = Some s -> subtract s b = Some a) /\
  (forall p, multiply a b = Some p -> b <> 0 ->
             divide p b error = Some (a, set_error error 0)).
Proof.
  intros Ha. split.
  - intros s Hs. unfold add in Hs. apply int_op_Some in Hs as [-> _].
    unfold subtract. replace (a + b - b) with a by lia. apply int_op_ok. exact Ha.
  - intros p Hp Hb. unfold multiply in Hp. apply int_op_Some in Hp as [-> _].
    unfold divide, int_div.
    destruct (b =? 0) eqn:E; [apply Z.eqb_eq in E; lia|].
    rewrite Z.quot_mul by exact Hb. rewrite int_op_ok by exact Ha. reflexivity.
Qed.

Lemma sum_and_product_undone_witness :
  (forall s, add 2147483000 600 = Some s -> subtract s 600 = Some 2147483000) /\
  (forall p, multiply 2147483000 600 = Some p -> 600 <> 0 ->
             divide p 600 (Some 1) = Some (2147483000, set_error (Some 1) 0)).
Proof.
  apply (sum_and_product_undone 2147483000 600 (Some 1)). vm_compute. split; discriminate.
Defined.

(* ===================================================================== *)
(** * Further properties of the harness *)
(* ===================================================================== *)

(** ** Assertions under an installed context *)

Lemma exec_stmt_assertion (s : stmt) (w : World) (ctx : TestContext) :
  is_assertion s = true ->
  current_context w = Some ctx ->
  (passes s = true -> exec_stmt s w = (Normal tt, w)) /\
  (passes s = false ->
   exec_stmt s w =
   (if is_fatal_assertion s then Raised AssertionException else Normal tt,
    set_current_context
      (Some {| failures := failures ctx ++
                 [{| fatal := is_fatal_assertion s; message := failure_message s;
                     file := fst (site s); line := snd (site s) |}] |}) w)).
Proof.
  intros Hs Hc. split; intros Hp.
  - destruct s; simpl in Hs; try discriminate; simpl in Hp; simpl;
      unfold ExpectEqual, ExpectNotEqual, ExpectTrue; simpl; rewrite Hp; reflexivity.
  - destruct s; simpl in Hs; try discriminate; simpl in Hp; simpl;
      unfold ExpectEqual, ExpectNotEqual, ExpectTrue, AddFailure; simpl;
      rewrite ?Hp, Hc; reflexivity.
Qed.

(** X10. Under an installed context an assertion whose check fails
    appends exactly one record: the message in the format of its helper
    (equality, inequality, or [Expected: <expr> is true], also for the
    [FALSE] macros, with the text of the unnegated expression), the file
    and line of the macro and its fatal flag; an [EXPECT_] macro then
    returns normally and an [ASSERT_] macro throws the sentinel.  An
    assertion whose check holds changes nothing. *)
Theorem failing_assertion_records (s : stmt) (w : World) (ctx : TestContext) :
  is_assertion s = true ->
  current_context w = Some ctx ->
  (passes s = true -> exec_stmt s w = (Normal tt, w)) /\
  (passes s = false ->
   exec_stmt s w =
   (if is_fatal_assertion s then Raised AssertionException else Normal tt,
    set_current_context
      (Some {| failures := failures ctx ++
                 [{| fatal := is_fatal_assertion s; message := failure_message s;
                     file := fst (site s); line := snd (site s) |}] |}) w)).
Proof. exact (exec_stmt_assertion s w ctx). Qed.

Lemma failing_assertion_records_witness :
  (passes (EXPECT_FALSE true "queue_is_empty" "test_calculator.cpp" 12) = true ->
   exec_stmt (EXPECT_FALSE true "queue_is_empty" "test_calculator.cpp" 12)
     (set_current_context (Some {| failures := [] |}) (startup [] ∅ ∅))
   = (Normal tt, set_current_context (Some {| failures := [] |}) (startup [] ∅ ∅))) /\
  (passes (EXPECT_FALSE true "queue_is_empty" "test_calculator.cpp" 12) = false ->
   exec_stmt (EXPECT_FALSE true "queue_is_empty" "test_calculator.cpp" 12)
     (set_current_context (Some {| failures := [] |}) (startup [] ∅ ∅))
   = (if is_fatal_assertion (EXPECT_FALSE true "queue_is_empty" "test_calculator.cpp" 12)
      then Raised AssertionException else Normal tt,
      set_current_context
        (Some {| failures := failures {| failures := [] |} ++
                   [{| fatal := is_fatal_assertion
                                  (EXPECT_FALSE true "queue_is_empty" "test_calculator.cpp" 12);
                       message := failure_message
                                    (EXPECT_FALSE true "queue_is_empty" "test_calculator.cpp" 12);
                       file := fst (site (EXPECT_FALSE true "queue_is_empty" "test_calculator.cpp" 12));
                       line := snd (site (EXPECT_FALSE true "queue_is_empty" "test_calculator.cpp" 12))
                     |}] |})
        (set_current_context (Some {| failures := [] |}) (startup [] ∅ ∅)))).
Proof.
  apply (failing_assertion_records
           (EXPECT_FALSE true "queue_is_empty" "test_calculator.cpp" 12)
           (set_current_context (Some {| failures := [] |}) (startup [] ∅ ∅))
           {| failures := [] |}); reflexivity.
Defined.

(** ** Whole bodies *)

Lemma leave_marks_set_context (l : list nat) (c : option TestContext) (w : World) :
  leave_marks l (set_current_context c w) = set_current_context c (leave_marks l w).
Proof.
  revert w. unfold leave_marks. induction l as [|t l IH]; intros w; simpl; [reflexivity|].
  rewrite <- IH. reflexivity.
Qed.

Lemma leave_marks_cons (t : nat) (l : list nat) (w : World) :
  leave_marks (t :: l) w = leave_marks l (leave_mark t w).
Proof. reflexivity. Qed.

Lemma set_context_same (w : World) (ctx : TestContext) :
  current_context w = Some ctx ->
  set_current_context (Some {| failures := failures ctx ++ [] |}) w = w.
Proof.
  intros H. destruct w, ctx. simpl in *. rewrite app_nil_r. rewrite H. reflexivity.
Qed.

Lemma body_after_passing (s : stmt) (body : list stmt) :
  is_assertion s = true -> passes s = true ->
  recorded_by (s :: body) = recorded_by body /\
  ending_of (s :: body) = ending_of body /\
  executed_marks (s :: body) = executed_marks body.
Proof.
  intros Ha Hp. destruct s; simpl in Ha; try discriminate; simpl in Hp; simpl;
    rewrite Hp; auto.
Qed.

Lemma body_after_failing (s : stmt) (body : list stmt) :
  is_assertion s = true -> passes s = false ->
  recorded_by (s :: body)
  = failure_record s :: (if is_fatal_assertion s then [] else recorded_by body) /\
  ending_of (s :: body)
  = (if is_fatal_assertion s then Raised AssertionException else ending_of body) /\
  executed_marks (s :: body)
  = (if is_fatal_assertion s then [] else executed_marks body).
Proof.
  intros Ha Hp. destruct s; simpl in Ha; try discriminate; simpl in Hp; simpl;
    rewrite Hp; auto.
Qed.

(** The whole effect of a body under an installed context. *)
Lemma run_body_spec (body : list stmt) (w : World) (ctx : TestContext) :
  current_context w = Some ctx ->
  run_body body w =
  (ending_of body,
   set_current_context (Some {| failures := failures ctx ++ recorded_by body |})
     (leave_marks (executed_marks body) w)).
Proof.
  revert w ctx. induction body as [|s body IH]; intros w ctx Hc.
  - simpl. unfold ret. f_equal. symmetry. exact (set_context_same w ctx Hc).
  - destruct (is_assertion s) eqn:Ha.
    + destruct (exec_stmt_assertion s w ctx Ha Hc) as [H1 H2].
      destruct (passes s) eqn:Hp.
      * destruct (body_after_passing s body Ha Hp) as (-> & -> & ->).
        cbn [run_body]. unfold bind. rewrite (H1 eq_refl). apply IH. exact Hc.
      * destruct (body_after_failing s body Ha Hp) as (-> & -> & ->).
        cbn [run_body]. unfold bind. rewrite (H2 eq_refl). fold (failure_record s).
        destruct (is_fatal_assertion s) eqn:Hf; [reflexivity|].
        match goal with
        | |- run_body body ?w1 = _ =>
            rewrite (IH w1 {| failures := failures ctx ++ [failure_record s] |} eq_refl)
        end.
        simpl. rewrite <- app_assoc. simpl.
        rewrite leave_marks_set_context. reflexivity.
    + destruct s; simpl in Ha; try discriminate.
      * simpl. unfold bind, throw.
        f_equal. symmetry. exact (set_context_same w ctx Hc).
      * simpl. unfold bind, modify.
        rewrite (IH (leave_mark tag w) ctx Hc). reflexivity.
Qed.

Lemma recorded_by_expectations (body : list stmt) :
  forallb is_expectation body = true ->
  recorded_by body = map failure_record (List.filter (fun s => negb (passes s)) body) /\
  ending_of body = Normal tt /\
  executed_marks body = call_marks body.
Proof.
  induction body as [|s body IH]; intros H; simpl in H.
  - auto.
  - apply andb_prop in H as [Hs Hb]. destruct (IH Hb) as (H1 & H2 & H3).
    destruct s; simpl in Hs; try discriminate; simpl;
      try (match goal with
           | |- context [if ?b then _ else _] => destruct b eqn:?
           end; simpl; rewrite ?H1, ?H2, ?H3; auto).
    unfold call_marks in *. simpl. rewrite H1, H2, H3. auto.
Qed.

(** X11. A body made of [EXPECT_] macros and calls only runs to its end
    under an installed context: every call is made, the body returns
    normally, and the context receives one record for each assertion
    whose check fails, in the order of the statements, after the records
    it already held. *)
Theorem expectations_never_abort (body : list stmt) (w : World) (ctx : TestContext) :
  forallb is_expectation body = true ->
  current_context w = Some ctx ->
  run_body body w =
  (Normal tt,
   set_current_context
     (Some {| failures := failures ctx ++
                map failure_record (List.filter (fun s => negb (passes s)) body) |})
     (leave_marks (call_marks body) w)).
Proof.
  intros Hb Hc. rewrite (run_body_spec body w ctx Hc).
  destruct (recorded_by_expectations body Hb) as (-> & -> & ->). reflexivity.
Qed.

Lemma expectations_never_abort_witness :
  run_body (func subtracts_numbers ++ func adds_numbers ++ [CALL 4])
    (set_current_context (Some {| failures := [] |}) (startup [] ∅ ∅)) =
  (Normal tt,
   set_current_context
     (Some {| failures := failures {| failures := [] |} ++
                map failure_record
                  (List.filter (fun s => negb (passes s))
                     (func subtracts_numbers ++ func adds_numbers ++ [CALL 4])) |})
     (leave_marks (call_marks (func subtracts_numbers ++ func adds_numbers ++ [CALL 4]))
        (set_current_context (Some {| failures := [] |}) (startup [] ∅ ∅)))).
Proof.
  apply (expectations_never_abort (func subtracts_numbers ++ func adds_numbers ++ [CALL 4])
           (set_current_context (Some {| failures := [] |}) (startup [] ∅ ∅))
           {| failures := [] |}); reflexivity.
Defined.

Lemma run_body_no_context (body : list stmt) (w : World) :
  current_context w = None ->
  current_context (snd (run_body body w)) = None.
Proof.
  revert w. induction body as [|s body IH]; intros w Hc; simpl; [exact Hc|].
  unfold bind.
  assert (Hs : current_context (snd (exec_stmt s w)) = None).
  { destruct s; simpl;
      unfold ExpectEqual, ExpectNotEqual, ExpectTrue, AddFailure, ret, throw, modify; simpl;
      try (match goal with
           | |- context [if ?b then _ else _] => destruct b
           end; simpl);
      rewrite ?Hc; simpl; auto. }
  destruct (exec_stmt s w) as [[[]|e] w1]; simpl in *; [apply IH; exact Hs | exact Hs].
Qed.

(** X12. Whatever a body does and however it ends, normally or by any
    exception, the failures recorded before it are still the first ones
    of the context afterwards, in the same order: a body only appends.
    The records appended and the way the body ends depend on the body
    alone, not on the state it runs in.  Without a context none appears. *)
Theorem bodies_only_append (body : list stmt) (w : World) :
  (forall ctx, current_context w = Some ctx ->
     fst (run_body body w) = ending_of body /\
     current_context (snd (run_body body w))
     = Some {| failures := failures ctx ++ recorded_by body |}) /\
  (current_context w = None -> current_context (snd (run_body body w)) = None).
Proof.
  split.
  - intros ctx Hc. rewrite (run_body_spec body w ctx Hc). simpl. auto.
  - apply run_body_no_context.
Qed.

(** ** The whole run *)

Lemma throws_only_sentinel_ending (body : list stmt) :
  throws_only_sentinel body = true ->
  ending_of body = Normal tt \/ ending_of body = Raised AssertionException.
Proof.
  induction body as [|s body IH]; intros H; [left; reflexivity|].
  unfold throws_only_sentinel in *. simpl in H. apply andb_prop in H as [Hs Hb].
  specialize (IH Hb).
  destruct s; simpl;
    try (match goal with
         | |- context [if ?b then _ else _] => destruct b
         end; simpl; auto).
  - destruct e; simpl in Hs; try discriminate. auto.
  - exact IH.
Qed.

Lemma leave_marks_frame (l : list nat) (w : World) :
  files (leave_marks l w) = files w /\
  directories (leave_marks l w) = directories w /\
  g_output_path (leave_marks l w) = g_output_path w /\
  Registry (leave_marks l w) = Registry w /\
  cerr (leave_marks l w) = cerr w /\
  cout (leave_marks l w) = cout w.
Proof.
  revert w. induction l as [|x l IH]; intros w; [repeat split; reflexivity|].
  rewrite leave_marks_cons. destruct (IH (leave_mark x w)) as (?&?&?&?&?&?).
  simpl in *. repeat split; assumption.
Qed.

(** One turn of the loop for a body that throws nothing but the sentinel. *)
Lemma run_test_spec (env : Env) (i : nat) (t : TestInfo) (st : run_state) (w : World) :
  throws_only_sentinel (func t) = true ->
  exists w1,
    run_test env i t st w =
    (Normal {| failed := if has_failure (recorded_by (func t))
                         then wrap_int (failed st + 1) else failed st;
               all_failures := <[i := recorded_by (func t)]> (all_failures st);
               durations_ms := <[i := double_of_Z (elapsed_ms env i)]> (durations_ms st) |},
     w1) /\
    current_context w1 = None /\
    marks w1 = marks w ++ executed_marks (func t) /\
    same_disk w w1 /\ same_registry w w1.
Proof.
  intros Ht. unfold run_test, bind, modify, guarded_body.
  set (w0 := set_current_context (Some {| failures := [] |}) _).
  rewrite (run_body_spec (func t) w0 {| failures := [] |} eq_refl).
  set (w2 := set_current_context _ (leave_marks _ w0)).
  assert (Hfields : ctx_failures w2 = recorded_by (func t) /\
                    marks w2 = marks w ++ executed_marks (func t) /\
                    same_disk w w2 /\ same_registry w w2).
  { subst w2. unfold ctx_failures, same_disk, same_registry. simpl.
    rewrite leave_marks_marks.
    destruct (leave_marks_frame (executed_marks (func t)) w0) as (H1&H2&H3&H4&H5&_).
    rewrite H1, H2, H3, H4, H5. subst w0. simpl. repeat split; reflexivity. }
  destruct Hfields as (Hrec & Hmarks & Hdisk & Hreg).
  destruct (throws_only_sentinel_ending (func t) Ht) as [He|He]; rewrite He;
    simpl; rewrite Hrec;
    destruct (recorded_by (func t)) eqn:Er; simpl;
    eexists; (split; [reflexivity|]); simpl;
    (split; [reflexivity|]); (split; [exact Hmarks|]);
    (split; [destruct Hdisk as (?&?&?); unfold same_disk; simpl; auto
            |destruct Hreg as (?&?); unfold same_registry; simpl; auto]).
Qed.

Lemma same_registry_trans (w1 w2 w3 : World) :
  same_registry w1 w2 -> same_registry w2 w3 -> same_registry w1 w3.
Proof. unfold same_registry. intros (?&?) (?&?). split; congruence. Qed.

Lemma count_failed_snoc (pre : list (list AssertionRecord)) (r : list AssertionRecord) :
  count_failed (pre ++ [r]) = (count_failed pre + if has_failure r then 1 else 0)%nat.
Proof.
  rewrite count_failed_app. unfold count_failed at 2. simpl.
  destruct (has_failure r); reflexivity.
Qed.

(** The loop over a registry of such bodies, started with the vectors
    filled up to index [i]. *)
Lemma run_tests_spec (env : Env) (tests : list TestInfo) (i : nat) (st : run_state)
    (w : World) (pre : list (list AssertionRecord)) (dpre : list float) :
  forallb (fun t => throws_only_sentinel (func t)) tests = true ->
  all_failures st = pre ++ replicate (length tests) [] -> length pre = i ->
  durations_ms st = dpre ++ replicate (length tests) PrimFloat.zero -> length dpre = i ->
  failed st = Z.of_nat (count_failed pre) ->
  Z.of_nat (i + length tests) <= INT_MAX ->
  exists st' w',
    run_tests env i tests st w = (Normal st', w') /\
    all_failures st' = pre ++ results_of tests /\
    durations_ms st' = dpre ++ imap (fun j _ => double_of_Z (elapsed_ms env (i + j))) tests /\
    failed st' = Z.of_nat (count_failed (pre ++ results_of tests)) /\
    (current_context w = None -> current_context w' = None) /\
    marks w' = marks w ++ flat_map (fun t => executed_marks (func t)) tests /\
    same_disk w w' /\ same_registry w w'.
Proof.
  revert i st w pre dpre.
  induction tests as [|t tests IH]; intros i st w pre dpre Hall Hf Hpre Hd Hdpre Hfailed Hmax.
  - exists st, w. unfold results_of. simpl in *. rewrite !app_nil_r in *.
    split; [reflexivity|]. split; [exact Hf|]. split; [exact Hd|].
    split; [exact Hfailed|]. split; [auto|]. split; [reflexivity|].
    split; [apply same_disk_refl | unfold same_registry; auto].
  - simpl in Hall. apply andb_prop in Hall as [Ht Hall].
    cbn [length replicate] in Hf, Hd, Hmax.
    destruct (run_test_spec env i t st w Ht) as (w1 & Hrun & Hctx1 & Hmarks1 & Hdisk1 & Hreg1).
    assert (Hcnt : (count_failed pre <= i)%nat)
      by (rewrite <- Hpre; apply count_failed_le).
    cbn [run_tests]. unfold bind at 1. rewrite Hrun.
    match goal with
    | |- context [run_tests env (S i) tests ?s w1] =>
        destruct (IH (S i) s w1 (pre ++ [recorded_by (func t)])
                    (dpre ++ [double_of_Z (elapsed_ms env i)]))
          as (st' & w' & Hloop & Hfs & Hds & Hfl & Hctx & Hmarks & Hdisk & Hreg)
    end.
    + exact Hall.
    + simpl. rewrite Hf, insert_app_r_alt by lia.
      rewrite Hpre, Nat.sub_diag. simpl. rewrite <- app_assoc. reflexivity.
    + rewrite length_app. simpl. lia.
    + simpl. rewrite Hd, insert_app_r_alt by lia.
      rewrite Hdpre, Nat.sub_diag. simpl. rewrite <- app_assoc. reflexivity.
    + rewrite length_app. simpl. lia.
    + simpl. rewrite count_failed_snoc, Hfailed. unfold INT_MAX in Hmax.
      destruct (has_failure (recorded_by (func t))).
      * rewrite wrap_int_id by (unfold INT_MAX; lia). lia.
      * lia.
    + lia.
    + exists st', w'. split; [exact Hloop|].
      split; [rewrite Hfs, <- app_assoc; reflexivity|].
      split.
      { rewrite Hds, <- app_assoc. simpl. rewrite Nat.add_0_r. do 2 f_equal.
        apply imap_ext. intros j x _. simpl. do 2 f_equal. lia. }
      split; [rewrite Hfl, <- app_assoc; reflexivity|].
      split; [intros _; apply Hctx; exact Hctx1|].
      split; [rewrite Hmarks, Hmarks1, <- app_assoc; reflexivity|].
      split; [eapply same_disk_trans; eassumption | eapply same_registry_trans; eassumption].
Qed.

Lemma RunAllTests_spec (env : Env) (w : World) :
  forallb (fun t => throws_only_sentinel (func t)) (Registry w) = true ->
  Z.of_nat (length (Registry w)) <= INT_MAX ->
  (g_output_path w = EmptyString \/
   can_create_directories env (parent_path env (g_output_path w)) = true) ->
  exists w',
    RunAllTests env w =
      (Normal (if (count_failed (results_of (Registry w)) =? 0)%nat then 0 else 1), w') /\
    Registry w' = Registry w /\
    g_output_path w' = g_output_path w /\
    (current_context w = None -> current_context w' = None) /\
    marks w' = marks w ++ flat_map (fun t => executed_marks (func t)) (Registry w) /\
    files w' =
      match g_output_path w with
      | EmptyString => files w
      | _ => if can_open env (g_output_path w)
             then <[g_output_path w := report_text (Registry w) (results_of (Registry w))
                                         (measured env (Registry w))]> (files w)
             else files w
      end /\
    cerr w' =
      match g_output_path w with
      | EmptyString => cerr w
      | _ => if can_open env (g_output_path w) then cerr w
             else String.append (cerr w)
                    (cat ["Warning: failed to write XML report to "; g_output_path w; nl])
      end.
Proof.
  intros Hall Hmax Hdir.
  set (w0 := to_cout (cat ["[----------] Global test environment set-up."; nl])
               (to_cout (cat ["[==========] Running "; show_nat (length (Registry w)); " tests from ";
                              show_nat (length (Registry w)); " test suites."; nl]) w)).
  destruct (run_tests_spec env (Registry w) 0 (fresh_run (length (Registry w))) w0 [] [])
    as (st & w1 & Hrun & Hfs & Hds & Hfl & Hctx & Hmarks & Hdisk & Hreg);
    try reflexivity; try assumption.
  simpl in Hfs, Hds, Hfl.
  assert (Hstatus : (if failed st =? 0 then 0 else 1)
                    = (if (count_failed (results_of (Registry w)) =? 0)%nat then 0 else 1)).
  { rewrite Hfl. destruct (count_failed (results_of (Registry w))); reflexivity. }
  destruct Hdisk as (Hfiles & Hdirs & Hpath). destruct Hreg as (Hregistry & Hcerr).
  simpl in Hfiles, Hdirs, Hpath, Hregistry, Hcerr.
  assert (Hreport : forall w3,
            g_output_path w3 = g_output_path w -> files w3 = files w ->
            cerr w3 = cerr w -> Registry w3 = Registry w -> marks w3 = marks w1 ->
            current_context w3 = current_context w1 ->
            exists w',
              WriteXmlReport (Registry w) (all_failures st) (durations_ms st) env w3 = (Normal tt, w') /\
              Registry w' = Registry w /\ g_output_path w' = g_output_path w /\
              current_context w' = current_context w1 /\ marks w' = marks w1 /\
              files w' =
                match g_output_path w with
                | EmptyString => files w
                | _ => if can_open env (g_output_path w)
                       then <[g_output_path w := report_text (Registry w) (results_of (Registry w))
                                                   (measured env (Registry w))]> (files w)
                       else files w
                end /\
              cerr w' =
                match g_output_path w with
                | EmptyString => cerr w
                | _ => if can_open env (g_output_path w) then cerr w
                       else String.append (cerr w)
                              (cat ["Warning: failed to write XML report to ";
                                    g_output_path w; nl])
                end).
  { intros w3 H1 H2 H3 H4 H5 H6. unfold WriteXmlReport. rewrite H1.
    destruct (g_output_path w) as [|c p] eqn:Hp.
    - exists w3. auto 10.
    - destruct Hdir as [Hdir|Hdir]; [discriminate|]. rewrite Hdir. simpl.
      rewrite H1. rewrite Hfs, Hds.
      destruct (can_open env (String c p)); eexists; (split; [reflexivity|]); simpl;
        rewrite ?H2, ?H3; auto 10. }
  unfold RunAllTests, bind, modify. fold w0.
  unfold fresh_run in Hrun. rewrite Hrun.
  destruct (0 <? failed st); unfold ret;
    match goal with
    | |- context [WriteXmlReport _ _ _ env ?w3] =>
        destruct (Hreport w3) as (w' & Hw & R1 & R2 & R3 & R4 & R5 & R6);
          try (simpl; congruence)
    end;
    exists w'; rewrite Hw, Hstatus;
    (split; [reflexivity|]); (split; [exact R1|]); (split; [exact R2|]);
    (split; [intros Hc; rewrite R3; apply Hctx; exact Hc|]);
    (split; [rewrite R4, Hmarks; reflexivity|]); (split; [exact R5 | exact R6]).
Qed.

(** X13. For a registry whose bodies throw nothing but the sentinel (at
    most [INT_MAX] tests, the report directory creatable when a
    destination is set) [RunAllTests] returns: the status is 0 exactly
    when no body has a failing assertion before it ends, and 1 otherwise;
    the registry and the output path are untouched; no context is left
    installed; the calls made are those each body makes before it ends, in
    registration order; and the report file, when it can be opened, holds
    one result per registered test, namely the records of that body alone:
    no failure crosses from one test to another.  When it cannot be
    opened the files are unchanged and a warning goes to [cerr]. *)
Theorem run_reports_every_test (env : Env) (w : World) :
  forallb (fun t => throws_only_sentinel (func t)) (Registry w) = true ->
  Z.of_nat (length (Registry w)) <= INT_MAX ->
  (g_output_path w = EmptyString \/
   can_create_directories env (parent_path env (g_output_path w)) = true) ->
  exists w',
    RunAllTests env w =
      (Normal (if (count_failed (results_of (Registry w)) =? 0)%nat then 0 else 1), w') /\
    Registry w' = Registry w /\
    g_output_path w' = g_output_path w /\
    (current_context w = None -> current_context w' = None) /\
    marks w' = marks w ++ flat_map (fun t => executed_marks (func t)) (Registry w) /\
    files w' =
      match g_output_path w with
      | EmptyString => files w
      | _ => if can_open env (g_output_path w)
             then <[g_output_path w := report_text (Registry w) (results_of (Registry w))
                                         (measured env (Registry w))]> (files w)
             else files w
      end /\
    cerr w' =
      match g_output_path w with
      | EmptyString => cerr w
      | _ => if can_open env (g_output_path w) then cerr w
             else String.append (cerr w)
                    (cat ["Warning: failed to write XML report to "; g_output_path w; nl])
      end.
Proof. apply RunAllTests_spec. Qed.

Lemma run_reports_every_test_witness :
  exists w',
    RunAllTests demo_env (set_g_output_path "out/r.xml" (startup three_tests ∅ ∅)) =
      (Normal (if (count_failed
                     (results_of (Registry (set_g_output_path "out/r.xml" (startup three_tests ∅ ∅))))
                   =? 0)%nat then 0 else 1), w') /\
    Registry w' = Registry (set_g_output_path "out/r.xml" (startup three_tests ∅ ∅)) /\
    g_output_path w' = g_output_path (set_g_output_path "out/r.xml" (startup three_tests ∅ ∅)) /\
    (current_context (set_g_output_path "out/r.xml" (startup three_tests ∅ ∅)) = None ->
     current_context w' = None) /\
    marks w' = marks (set_g_output_path "out/r.xml" (startup three_tests ∅ ∅)) ++
               flat_map (fun t => executed_marks (func t))
                 (Registry (set_g_output_path "out/r.xml" (startup three_tests ∅ ∅))) /\
    files w' =
      match g_output_path (set_g_output_path "out/r.xml" (startup three_tests ∅ ∅)) with
      | EmptyString => files (set_g_output_path "out/r.xml" (startup three_tests ∅ ∅))
      | _ => if can_open demo_env
                  (g_output_path (set_g_output_path "out/r.xml" (startup three_tests ∅ ∅)))
             then <[g_output_path (set_g_output_path "out/r.xml" (startup three_tests ∅ ∅)) :=
                      report_text
                        (Registry (set_g_output_path "out/r.xml" (startup three_tests ∅ ∅)))
                        (results_of
                           (Registry (set_g_output_path "out/r.xml" (startup three_tests ∅ ∅))))
                        (measured demo_env
                           (Registry (set_g_output_path "out/r.xml" (startup three_tests ∅ ∅))))]>
                    (files (set_g_output_path "out/r.xml" (startup three_tests ∅ ∅)))
             else files (set_g_output_path "out/r.xml" (startup three_tests ∅ ∅))
      end /\
    cerr w' =
      match g_output_path (set_g_output_path "out/r.xml" (startup three_tests ∅ ∅)) with
      | EmptyString => cerr (set_g_output_path "out/r.xml" (startup three_tests ∅ ∅))
      | _ => if can_open demo_env
                  (g_output_path (set_g_output_path "out/r.xml" (startup three_tests ∅ ∅)))
             then cerr (set_g_output_path "out/r.xml" (startup three_tests ∅ ∅))
             else String.append (cerr (set_g_output_path "out/r.xml" (startup three_tests ∅ ∅)))
                    (cat ["Warning: failed to write XML report to ";
                          g_output_path (set_g_output_path "out/r.xml" (startup three_tests ∅ ∅));
                          nl])
      end.
Proof.
  apply (run_reports_every_test demo_env
           (set_g_output_path "out/r.xml" (startup three_tests ∅ ∅))).
  - reflexivity.
  - vm_compute. discriminate.
  - right. reflexivity.
Defined.

(** ** The report file and the exit status *)




(** ** Registration *)

(** X15. The static initialisers only append: registering a list of tests
    never throws, leaves what was registered before in place and adds the
    new tests behind it in the order of their registrars, duplicates
    included; nothing else in the state changes. *)
Theorem registration_appends_in_order (tests : list TestInfo) (w : World) :
  register_all tests w = (Normal tt, set_Registry (Registry w ++ tests) w).
Proof.
  revert w. induction tests as [|t tests IH]; intros w; simpl.
  - rewrite app_nil_r. destruct w; reflexivity.
  - unfold bind, TestRegistrar, modify. rewrite IH. simpl.
    destruct t. simpl. rewrite <- app_assoc. reflexivity.
Qed.

(** ** Every test in one suite of the report *)

Lemma list_sum_perm (l l' : list nat) : l ≡ₚ l' -> list_sum l = list_sum l'.
Proof. induction 1; simpl; lia. Qed.

Lemma map_push_back_concat (k : string) (i : nat) (m : suite_map_t) :
  concat (map snd (map_push_back k i m)) ≡ₚ i :: concat (map snd m).
Proof.
  induction m as [|[k' v] m IH]; simpl; [reflexivity|].
  destruct (String.compare k k'); simpl.
  - rewrite <- app_assoc. simpl. symmetry. apply Permutation_middle.
  - reflexivity.
  - rewrite IH. symmetry. apply Permutation_middle.
Qed.

Lemma fill_suite_map_concat (tests : list TestInfo) (i : nat) (m : suite_map_t) :
  concat (map snd (fill_suite_map i tests m)) ≡ₚ concat (map snd m) ++ seq i (length tests).
Proof.
  revert i m. induction tests as [|t tests IH]; intros i m; simpl.
  - rewrite app_nil_r. reflexivity.
  - rewrite IH, map_push_back_concat. simpl. apply Permutation_middle.
Qed.

Lemma failure_count_concat (fs : list (list AssertionRecord)) (m : suite_map_t) :
  fold_right Z.add 0 (map (fun e => failure_count fs (snd e)) m)
  = failure_count fs (concat (map snd m)).
Proof.
  unfold failure_count. induction m as [|[k v] m IH]; simpl; [reflexivity|].
  rewrite IH, map_app, list_sum_app. lia.
Qed.

Lemma length_concat_suites (m : suite_map_t) :
  list_sum (map (fun e => length (snd e)) m) = length (concat (map snd m)).
Proof.
  induction m as [|[k v] m IH]; simpl; [reflexivity|].
  rewrite IH, length_app. reflexivity.
Qed.

(** X16. The suite map of the report writer partitions the registry:
    the index lists of its entries together hold every index of a
    registered test exactly once, no entry is empty, an entry's indices
    are those of the tests registered under its key, and the keys are
    pairwise different.  So the [tests] attributes of the [testsuite]
    elements add up to the [tests] attribute of [testsuites], and (the
    total within [int]) so do the [failures] attributes. *)
Theorem suites_partition_the_registry (tests : list TestInfo)
    (fs : list (list AssertionRecord)) :
  length fs = length tests ->
  failure_count fs (seq 0 (length tests)) <= INT_MAX ->
  concat (map snd (build_suite_map tests)) ≡ₚ seq 0 (length tests) /\
  List.NoDup (map fst (build_suite_map tests)) /\
  (forall s idxs, In (s, idxs) (build_suite_map tests) ->
     idxs <> [] /\
     forall i, In i idxs <-> (i < length tests)%nat /\ suite (test_at tests i) = s) /\
  list_sum (map (fun e => length (snd e)) (build_suite_map tests)) = length tests /\
  fold_right Z.add 0 (map (fun e => suite_failures fs (snd e)) (build_suite_map tests))
    = total_failures fs.
Proof.
  intros Hlen Hmax.
  destruct (build_suite_map_grouped tests) as (Hsorted & Hin & _).
  assert (Hperm : concat (map snd (build_suite_map tests)) ≡ₚ seq 0 (length tests)).
  { unfold build_suite_map. rewrite fill_suite_map_concat. reflexivity. }
  split; [exact Hperm|]. split; [|split; [|split]].
  - clear -Hsorted. induction Hsorted as [|k ks Hs IH Hall]; constructor; [|exact IH].
    intros Hk. rewrite List.Forall_forall in Hall.
    apply (string_lt_irrefl k). apply Hall. exact Hk.
  - intros s idxs H. destruct (Hin s idxs H) as [-> Hne]. split; [exact Hne|].
    intros i. unfold members. rewrite List.filter_In, in_seq, String.eqb_eq.
    split; intros [H1 H2]; (split; [lia | exact H2]).
  - rewrite length_concat_suites, Hperm, length_seq. reflexivity.
  - rewrite total_failures_count by (rewrite Hlen; exact Hmax).
    rewrite Hlen.
    transitivity (fold_right Z.add 0
                    (map (fun e => failure_count fs (snd e)) (build_suite_map tests))).
    + f_equal. apply map_ext_in. intros [s idxs] H. simpl.
      destruct (Hin s idxs H) as [-> _].
      apply suite_failures_count.
      etransitivity; [apply members_count_le | exact Hmax].
    + rewrite failure_count_concat. unfold failure_count. f_equal.
      apply list_sum_perm. apply Permutation_map. exact Hperm.
Qed.

Lemma suites_partition_the_registry_witness :
  concat (map snd (build_suite_map three_tests)) ≡ₚ seq 0 (length three_tests) /\
  List.NoDup (map fst (build_suite_map three_tests)) /\
  (forall s idxs, In (s, idxs) (build_suite_map three_tests) ->
     idxs <> [] /\
     forall i, In i idxs <-> (i < length three_tests)%nat /\ suite (test_at three_tests i) = s) /\
  list_sum (map (fun e => length (snd e)) (build_suite_map three_tests)) = length three_tests /\
  fold_right Z.add 0 (map (fun e => suite_failures three_results (snd e))
                        (build_suite_map three_tests))
    = total_failures three_results.
Proof.
  apply (suites_partition_the_registry three_tests three_results).
  - reflexivity.
  - vm_compute. discriminate.
Defined.

(** ** The process *)

Lemma main_spec (env : Env) (argv : list string) (w : World) :
  forallb (fun t => throws_only_sentinel (func t)) (Registry w) = true ->
  Z.of_nat (length (Registry w)) <= INT_MAX ->
  g_output_path w = EmptyString ->
  (forall arg,
     In arg (tl argv) -> starts_with output_prefix arg = true ->
     can_create_directories env
       (parent_path env (substr (String.length output_prefix) arg)) = true) ->
  exists w',
    main env argv w =
      (Exited (if (count_failed (results_of (Registry w)) =? 0)%nat then 0 else 1), w') /\
    Registry w' = Registry w /\
    marks w' = marks w ++ flat_map (fun t => executed_marks (func t)) (Registry w).
Proof.
  intros Honly Hmax Hempty Hcreate.
  destruct (InitGoogleTest_loop_total (tl argv) w) as (p & Hp & Hcase).
  destruct (RunAllTests_spec env (set_g_output_path p w) Honly Hmax)
    as (w' & Hrun & Hreg & _ & _ & Hmarks & _).
  { cbn [g_output_path set_g_output_path].
    destruct Hcase as [Hsame | (arg & Hin & Hst & Hparg)].
    - left. rewrite Hsame. exact Hempty.
    - right. rewrite Hparg. apply Hcreate; assumption. }
  exists w'. unfold main, bind, InitGoogleTest. rewrite Hp, Hrun.
  split; [reflexivity|]. split; [exact Hreg | exact Hmarks].
Qed.

(** * Properties of the test program *)

Lemma zip_with_same_passes (ea eb f : string) (ln : Z) (l : list Z) :
  recorded_by (zip_with (fun a b => EXPECT_EQ a b ea eb f ln) l l) = [] /\
  ending_of (zip_with (fun a b => EXPECT_EQ a b ea eb f ln) l l) = Normal tt /\
  throws_only_sentinel (zip_with (fun a b => EXPECT_EQ a b ea eb f ln) l l) = true /\
  length (zip_with (fun a b => EXPECT_EQ a b ea eb f ln) l l) = length l.
Proof.
  induction l as [|a l (IH1 & IH2 & IH3 & IH4)]; simpl; [repeat split|].
  rewrite Z.eqb_refl. repeat split; try assumption. rewrite IH4. reflexivity.
Qed.

Lemma sort_ints_idempotent (l : list Z) : sort_ints (sort_ints l) = sort_ints l.
Proof.
  apply sorted_perm_eq; [apply sort_ints_sorted | apply sort_ints_sorted | apply sort_ints_perm].
Qed.

Lemma sort_ints_of_perm (l l' : list Z) : l ≡ₚ l' -> sort_ints l = sort_ints l'.
Proof.
  intros H. apply sorted_perm_eq; [apply sort_ints_sorted | apply sort_ints_sorted |].
  rewrite !sort_ints_perm. exact H.
Qed.

Lemma HeavyLoadTest_spec (src : string) (indeterminate : Z) (rands : list Z) :
  Z.of_nat (length rands) <= 2 ^ 30 ->
  exists body,
    HeavyLoadTest src indeterminate rands = Some body /\
    body = ASSERT_EQ (Z.of_nat (length rands)) (Z.of_nat (length rands))
             "sorted_elements.size()" "copy.size()" src 22
           :: map (fun a => EXPECT_EQ a a "sorted_elements[i]" "copy[i]" src 24)
                (sort_ints (map (fun r => Z.rem r 10000) rands)) /\
    recorded_by body = [] /\ ending_of body = Normal tt /\
    throws_only_sentinel body = true.
Proof.
  intros Hlen.
  destruct (insert_all_spec indeterminate (map (fun r => Z.rem r 10000) rands) empty_queue)
    as (q & Hins & Hwf & Hsz & Hc).
  { unfold wf_queue. simpl. split; reflexivity. }
  { simpl. rewrite length_map. lia. }
  { simpl. lia. }
  rewrite length_map in Hsz. simpl in Hsz, Hc. rewrite app_nil_r in Hc.
  destruct (drain_spec q Hwf) as (q' & Hdrain & _); [lia|].
  rewrite (sort_ints_of_perm _ _ Hc) in Hdrain.
  unfold HeavyLoadTest. rewrite Hins. simpl. rewrite Hdrain. simpl.
  rewrite sort_ints_idempotent.
  assert (Hl : length (sort_ints (map (fun r => Z.rem r 10000) rands)) = length rands).
  { rewrite (Permutation_length (sort_ints_perm _)), length_map. reflexivity. }
  rewrite Hl.
  assert (Hzip : forall l : list Z,
            zip_with (fun a b => EXPECT_EQ a b "sorted_elements[i]" "copy[i]" src 24) l l
            = map (fun a => EXPECT_EQ a a "sorted_elements[i]" "copy[i]" src 24) l).
  { induction l as [|a l IH]; simpl; [reflexivity | rewrite IH; reflexivity]. }
  eexists. split; [reflexivity|]. split; [rewrite Hzip; reflexivity|].
  destruct (zip_with_same_passes "sorted_elements[i]" "copy[i]" src 24
              (sort_ints (map (fun r => Z.rem r 10000) rands))) as (H1 & H2 & H3 & _).
  simpl. rewrite Z.eqb_refl. repeat split; assumption.
Qed.

(** X17. [HeavyLoadTest] passes whatever [rand()] returns: for any 1000
    results the insertions and the extraction loop run without undefined
    behaviour, the size assertion and the 1000 element comparisons all
    hold (the extracted sequence is the sorted list of the inserted
    values [rand() % 10000], so sorting the copy changes nothing), no
    failure is recorded and the body returns normally. *)
Theorem heavy_load_test_passes (src : string) (indeterminate : Z) (rands : list Z) :
  length rands = 1000%nat ->
  exists body,
    HeavyLoadTest src indeterminate rands = Some body /\
    body = ASSERT_EQ 1000 1000 "sorted_elements.size()" "copy.size()" src 22
           :: map (fun a => EXPECT_EQ a a "sorted_elements[i]" "copy[i]" src 24)
                (sort_ints (map (fun r => Z.rem r 10000) rands)) /\
    length body = 1001%nat /\
    recorded_by body = [] /\ ending_of body = Normal tt.
Proof.
  intros Hlen.
  destruct (HeavyLoadTest_spec src indeterminate rands) as (body & Hb & Heq & Hrec & Hend & _).
  { rewrite Hlen. vm_compute. discriminate. }
  exists body. rewrite Hlen in Heq. change (Z.of_nat 1000) with 1000 in Heq.
  split; [exact Hb|]. split; [exact Heq|]. split; [|split; assumption].
  rewrite Heq. simpl. rewrite length_map, (Permutation_length (sort_ints_perm _)), length_map, Hlen.
  reflexivity.
Qed.

Lemma heavy_load_test_passes_witness :
  exists body,
    HeavyLoadTest "tests/test_calculator.cpp" 0 (map (fun i => Z.of_nat i * 7919) (seq 0 1000))
      = Some body /\
    body = ASSERT_EQ 1000 1000 "sorted_elements.size()" "copy.size()"
             "tests/test_calculator.cpp" 22
           :: map (fun a => EXPECT_EQ a a "sorted_elements[i]" "copy[i]"
                              "tests/test_calculator.cpp" 24)
                (sort_ints (map (fun r => Z.rem r 10000)
                              (map (fun i => Z.of_nat i * 7919) (seq 0 1000)))) /\
    length body = 1001%nat /\
    recorded_by body = [] /\ ending_of body = Normal tt.
Proof.
  apply (heavy_load_test_passes "tests/test_calculator.cpp" 0
           (map (fun i => Z.of_nat i * 7919) (seq 0 1000))).
  vm_compute. reflexivity.
Defined.

Lemma lowercase_cases (s : string) :
  (String.eqb (lowercase s) "0" || String.eqb (lowercase s) "false"
   || String.eqb (lowercase s) "no") = true <->
  lowercase s = "0"%string \/ lowercase s = "false"%string \/ lowercase s = "no"%string.
Proof.
  rewrite !orb_true_iff, !String.eqb_eq. tauto.
Qed.

(** X18. [SubtractsNumbers] is decided by the environment alone: it
    records a failure (one record, for the comparison with 1 at line 46,
    not fatal) unless [TEST_SHOULD_FAIL] is set to a value that reads
    [0], [false] or [no] once its letters are lowered; it fails when the
    variable is not set, and for every other value.  The body ends
    normally either way. *)
Theorem subtraction_test_follows_switch (src : string) (TEST_SHOULD_FAIL : option string) :
  exists body,
    SubtractsNumbers src TEST_SHOULD_FAIL = Some body /\
    ending_of body = Normal tt /\
    recorded_by body =
      (if should_fail TEST_SHOULD_FAIL
       then [{| fatal := false;
                message := cat ["Expected equality of these values:"; nl;
                                "  subtract(5, 3)"; nl; "    Which is: 2"; nl;
                                "  1"; nl; "    Which is: 1"];
                file := src; line := 46 |}]
       else []) /\
    (should_fail TEST_SHOULD_FAIL = false <->
     exists v, TEST_SHOULD_FAIL = Some v /\
               (lowercase v = "0"%string \/ lowercase v = "false"%string \/
                lowercase v = "no"%string)).
Proof.
  eexists. split; [reflexivity|]. split; [|split].
  - simpl. destruct (should_fail TEST_SHOULD_FAIL); reflexivity.
  - simpl. destruct (should_fail TEST_SHOULD_FAIL); reflexivity.
  - destruct TEST_SHOULD_FAIL as [v|]; simpl.
    + rewrite negb_false_iff, lowercase_cases. split.
      * intros H. exists v. split; [reflexivity | exact H].
      * intros (v' & Hv & H). inversion Hv. subst. exact H.
    + split; [discriminate | intros (v & Hv & _); discriminate].
Qed.

Lemma AddsNumbers_body (src : string) :
  exists body, AddsNumbers src = Some body /\
               recorded_by body = [] /\ throws_only_sentinel body = true.
Proof. eexists. split; [reflexivity|]. split; reflexivity. Qed.

Lemma SubtractsNumbers_body (src : string) (v : option string) :
  exists body, SubtractsNumbers src v = Some body /\
               has_failure (recorded_by body) = should_fail v /\
               throws_only_sentinel body = true.
Proof.
  eexists. split; [reflexivity|]. simpl. destruct (should_fail v); split; reflexivity.
Qed.

Lemma DividesSafely_body (src : string) :
  exists body, DividesSafely src = Some body /\
               recorded_by body = [] /\ throws_only_sentinel body = true.
Proof. eexists. split; [reflexivity|]. split; reflexivity. Qed.

Lemma ModulosNumbers_body (src : string) :
  exists body, ModulosNumbers src = Some body /\
               recorded_by body = [] /\ throws_only_sentinel body = true.
Proof. eexists. split; [reflexivity|]. split; reflexivity. Qed.

(** X19. The test program as a whole, started with any 1000 results of
    [rand()] and with arguments that name no report destination or only
    destinations whose directory can be created (for every argument
    [--gtest_output=xml:<path>] the parent of [<path>] is one
    [create_directories] accepts): none of the five bodies runs into
    undefined behaviour, the five tests are registered in the order of
    the source, every test but [SubtractsNumbers] passes, and the process
    exits with status 1 when the switch of [SubtractsNumbers] is on and
    with status 0 when it is off. *)
Theorem test_program_exit_status (src : string) (indeterminate : Z) (rands : list Z)
    (TEST_SHOULD_FAIL : option string) (env : Env) (argv : list string)
    (disk : gmap string string) (dirs : gset string) :
  length rands = 1000%nat ->
  (forall arg,
     In arg (tl argv) -> starts_with output_prefix arg = true ->
     can_create_directories env
       (parent_path env (substr (String.length output_prefix) arg)) = true) ->
  exists tests w',
    calculator_tests src indeterminate rands TEST_SHOULD_FAIL = Some tests /\
    map (fun t => (suite t, name t)) tests =
      [("Calculator", "HeavyLoadTest"); ("Calculator", "AddsNumbers");
       ("Calculator", "SubtractsNumbers"); ("Calculator", "DividesSafely");
       ("Calculator", "ModulosNumbers")]%string /\
    map (fun t => has_failure (recorded_by (func t))) tests =
      [false; false; should_fail TEST_SHOULD_FAIL; false; false] /\
    main env argv (startup tests disk dirs) =
      (Exited (if should_fail TEST_SHOULD_FAIL then 1 else 0), w').
Proof.
  intros Hlen Hcreate.
  destruct (HeavyLoadTest_spec src indeterminate rands) as (b1 & Hb1 & _ & Hr1 & _ & Ho1).
  { rewrite Hlen. vm_compute. discriminate. }
  destruct (AddsNumbers_body src) as (b2 & Hb2 & Hr2 & Ho2).
  destruct (SubtractsNumbers_body src TEST_SHOULD_FAIL) as (b3 & Hb3 & Hr3 & Ho3).
  destruct (DividesSafely_body src) as (b4 & Hb4 & Hr4 & Ho4).
  destruct (ModulosNumbers_body src) as (b5 & Hb5 & Hr5 & Ho5).
  assert (Ht : calculator_tests src indeterminate rands TEST_SHOULD_FAIL =
               Some [ {| suite := "Calculator"; name := "HeavyLoadTest"; func := b1 |};
                      {| suite := "Calculator"; name := "AddsNumbers"; func := b2 |};
                      {| suite := "Calculator"; name := "SubtractsNumbers"; func := b3 |};
                      {| suite := "Calculator"; name := "DividesSafely"; func := b4 |};
                      {| suite := "Calculator"; name := "ModulosNumbers"; func := b5 |} ]).
  { unfold calculator_tests. rewrite Hb1, Hb2, Hb3, Hb4, Hb5. reflexivity. }
  destruct (main_spec env argv
              (startup [ {| suite := "Calculator"; name := "HeavyLoadTest"; func := b1 |};
                         {| suite := "Calculator"; name := "AddsNumbers"; func := b2 |};
                         {| suite := "Calculator"; name := "SubtractsNumbers"; func := b3 |};
                         {| suite := "Calculator"; name := "DividesSafely"; func := b4 |};
                         {| suite := "Calculator"; name := "ModulosNumbers"; func := b5 |} ]
                 disk dirs)) as (w' & Hmain & _).
  { simpl. rewrite Ho1, Ho2, Ho3, Ho4, Ho5. reflexivity. }
  { vm_compute. discriminate. }
  { reflexivity. }
  { exact Hcreate. }
  eexists. exists w'. split; [exact Ht|]. split; [reflexivity|]. split.
  - simpl. rewrite Hr1, Hr2, Hr3, Hr4, Hr5. reflexivity.
  - rewrite Hmain. f_equal. f_equal.
    unfold results_of, count_failed. simpl. rewrite Hr1, Hr2, Hr4, Hr5. simpl.
    destruct (recorded_by b3); simpl in Hr3; rewrite <- Hr3; reflexivity.
Qed.

Lemma test_program_exit_status_witness :
  exists tests w',
    calculator_tests "tests/test_calculator.cpp" 0
      (map (fun i => Z.of_nat i * 7919) (seq 0 1000)) (Some "No"%string) = Some tests /\
    map (fun t => (suite t, name t)) tests =
      [("Calculator", "HeavyLoadTest"); ("Calculator", "AddsNumbers");
       ("Calculator", "SubtractsNumbers"); ("Calculator", "DividesSafely");
       ("Calculator", "ModulosNumbers")]%string /\
    map (fun t => has_failure (recorded_by (func t))) tests =
      [false; false; should_fail (Some "No"%string); false; false] /\
    main demo_env ["calculator_tests"; "--gtest_output=xml:out/report.xml"]%string
      (startup tests ∅ ∅) =
      (Exited (if should_fail (Some "No"%string) then 1 else 0), w').
Proof.
  apply (test_program_exit_status "tests/test_calculator.cpp" 0
           (map (fun i => Z.of_nat i * 7919) (seq 0 1000)) (Some "No"%string) demo_env
           ["calculator_tests"; "--gtest_output=xml:out/report.xml"]%string ∅ ∅).
  - vm_compute. reflexivity.
  - intros arg [<- | []] _. reflexivity.
Defined.

(* ===================================================================== *)
(** * Further properties of the runner and the report *)
(* ===================================================================== *)

(** ** A test that throws something unexpected *)

Lemma run_tests_app (env : Env) (l1 l2 : list TestInfo) (i : nat) (st : run_state) (w : World) :
  run_tests env i (l1 ++ l2) st w =
  match run_tests env i l1 st w with
  | (Normal st', w') => run_tests env (i + length l1) l2 st' w'
  | (Raised e, w') => (Raised e, w')
  end.
Proof.
  revert i st w. induction l1 as [|t l1 IH]; intros i st w; simpl.
  - rewrite Nat.add_0_r. reflexivity.
  - unfold bind. destruct (run_test env i t st w) as [[st'|e] w']; [|reflexivity].
    rewrite IH. replace (S i + length l1)%nat with (i + S (length l1))%nat by lia.
    reflexivity.
Qed.

Lemma run_tests_sentinel_only (env : Env) (tests : list TestInfo) (i : nat)
    (st : run_state) (w : World) :
  forallb (fun t => throws_only_sentinel (func t)) tests = true ->
  exists st' w',
    run_tests env i tests st w = (Normal st', w') /\
    marks w' = marks w ++ flat_map (fun t => executed_marks (func t)) tests /\
    same_disk w w' /\ same_registry w w'.
Proof.
  revert i st w. induction tests as [|t tests IH]; intros i st w Hall.
  - exists st, w. simpl. rewrite app_nil_r.
    split; [reflexivity|]. split; [reflexivity|].
    split; [apply same_disk_refl | unfold same_registry; auto].
  - simpl in Hall. apply andb_prop in Hall as [Ht Hall].
    destruct (run_test_spec env i t st w Ht) as (w1 & Hrun & _ & Hmarks1 & Hdisk1 & Hreg1).
    cbn [run_tests]. unfold bind at 1. rewrite Hrun.
    match goal with
    | |- context [run_tests env (S i) tests ?s w1] =>
        destruct (IH (S i) s w1 Hall) as (st' & w' & Hloop & Hmarks & Hdisk & Hreg)
    end.
    exists st', w'. split; [exact Hloop|].
    split; [rewrite Hmarks, Hmarks1, <- app_assoc; reflexivity|].
    split; [eapply same_disk_trans; eassumption | eapply same_registry_trans; eassumption].
Qed.

Lemma run_test_unexpected (env : Env) (i : nat) (t : TestInfo) (st : run_state)
    (w : World) (e : exn) :
  ending_of (func t) = Raised e -> e <> AssertionException ->
  exists w',
    run_test env i t st w = (Raised AssertionException, w') /\
    current_context w' =
      Some {| failures := recorded_by (func t) ++
                [{| fatal := true; message := unexpected_message e;
                    file := "unknown"; line := 0 |}] |} /\
    marks w' = marks w ++ executed_marks (func t) /\
    same_disk w w' /\ same_registry w w'.
Proof.
  intros Hend He. unfold run_test, bind, modify, guarded_body.
  set (w0 := set_current_context (Some {| failures := [] |}) _).
  rewrite (run_body_spec (func t) w0 {| failures := [] |} eq_refl), Hend.
  destruct (leave_marks_frame (executed_marks (func t)) w0) as (H1&H2&H3&H4&H5&_).
  destruct e as [|what|]; [congruence| |]; unfold AddFailure; simpl;
    (eexists; split; [reflexivity|]); unfold same_disk, same_registry; simpl;
    rewrite leave_marks_marks, H1, H2, H3, H4, H5; subst w0; simpl;
    repeat split; reflexivity.
Qed.

Lemma RunAllTests_unexpected (env : Env) (w : World) (before after : list TestInfo)
    (t : TestInfo) (e : exn) :
  Registry w = before ++ t :: after ->
  forallb (fun t' => throws_only_sentinel (func t')) before = true ->
  ending_of (func t) = Raised e -> e <> AssertionException ->
  exists w',
    RunAllTests env w = (Raised AssertionException, w') /\
    current_context w' =
      Some {| failures := recorded_by (func t) ++
                [{| fatal := true; message := unexpected_message e;
                    file := "unknown"; line := 0 |}] |} /\
    marks w' = marks w ++ flat_map (fun t' => executed_marks (func t')) before
                       ++ executed_marks (func t) /\
    same_disk w w' /\ same_registry w w'.
Proof.
  intros Hreg Hbefore Hend He.
  unfold RunAllTests, bind, modify. cbv zeta.
  match goal with
  | |- context [run_tests env 0 (Registry w) ?s ?w0] =>
      set (st0 := s); set (w1 := w0)
  end.
  assert (Hloop : exists w3,
            run_tests env 0 (Registry w) st0 w1 = (Raised AssertionException, w3) /\
            current_context w3 =
              Some {| failures := recorded_by (func t) ++
                        [{| fatal := true; message := unexpected_message e;
                            file := "unknown"; line := 0 |}] |} /\
            marks w3 = marks w1 ++ flat_map (fun t' => executed_marks (func t')) before
                                ++ executed_marks (func t) /\
            same_disk w1 w3 /\ same_registry w1 w3).
  { generalize st0. intros st. rewrite Hreg, run_tests_app.
    destruct (run_tests_sentinel_only env before 0 st w1 Hbefore)
      as (st1 & w2 & Hrun & Hmarks & Hdisk & Hr).
    rewrite Hrun. cbn [run_tests]. unfold bind.
    destruct (run_test_unexpected env (0 + length before) t st1 w2 e Hend He)
      as (w3 & Ht & Hctx & Hmarks3 & Hdisk3 & Hr3).
    rewrite Ht. exists w3. split; [reflexivity|]. split; [exact Hctx|].
    split; [rewrite Hmarks3, Hmarks, <- app_assoc; reflexivity|].
    split; [eapply same_disk_trans; eassumption | eapply same_registry_trans; eassumption]. }
  destruct Hloop as (w3 & Hrun & Hctx & Hmarks & Hdisk & Hr).
  exists w3. rewrite Hrun. split; [reflexivity|]. split; [exact Hctx|].
  split; [rewrite Hmarks; reflexivity|].
  split.
  - apply (same_disk_trans w w1 w3); [unfold same_disk; simpl; auto | exact Hdisk].
  - apply (same_registry_trans w w1 w3); [unfold same_registry; simpl; auto | exact Hr].
Qed.

(** X20. A body that throws anything but the sentinel ends the whole run:
    the handler appends one record (fatal, file [unknown], line 0, the
    message built from [what()] or the fixed text for other types) to the
    context of that test and is then left by the sentinel [AddFailure]
    throws, which nothing catches.  [RunAllTests] returns no status and
    the process terminates; the tests registered after it never start, no
    report is written even when a destination is set, and the record
    stays in the context that was never taken down. *)
Theorem unexpected_exception_ends_the_run (env : Env) (w : World)
    (before after : list TestInfo) (t : TestInfo) (e : exn) :
  Registry w = before ++ t :: after ->
  forallb (fun t' => throws_only_sentinel (func t')) before = true ->
  ending_of (func t) = Raised e -> e <> AssertionException ->
  (exists w',
     RunAllTests env w = (Raised AssertionException, w') /\
     current_context w' =
       Some {| failures := recorded_by (func t) ++
                 [{| fatal := true; message := unexpected_message e;
                     file := "unknown"; line := 0 |}] |} /\
     marks w' = marks w ++ flat_map (fun t' => executed_marks (func t')) before
                        ++ executed_marks (func t) /\
     files w' = files w /\ directories w' = directories w /\ cerr w' = cerr w) /\
  (forall argv,
     fst (main env argv w) = Terminated AssertionException /\
     files (snd (main env argv w)) = files w).
Proof.
  intros Hreg Hbefore Hend He. split.
  - destruct (RunAllTests_unexpected env w before after t e Hreg Hbefore Hend He)
      as (w' & Hrun & Hctx & Hmarks & (Hf & Hd & _) & (_ & Hcerr)).
    exists w'. auto 10.
  - intros argv.
    destruct (InitGoogleTest_loop_total (tl argv) w) as (p & Hp & _).
    destruct (RunAllTests_unexpected env (set_g_output_path p w) before after t e
                Hreg Hbefore Hend He)
      as (w' & Hrun & _ & _ & (Hf & _) & _).
    unfold main, bind, InitGoogleTest. rewrite Hp, Hrun. split; [reflexivity | exact Hf].
Qed.

Lemma unexpected_exception_ends_the_run_witness :
  (exists w',
     RunAllTests demo_env
       (set_g_output_path "out/r.xml"
          (startup [adds_numbers; throws_runtime_error; subtracts_numbers] ∅ ∅))
     = (Raised AssertionException, w') /\
     current_context w' =
       Some {| failures := recorded_by (func throws_runtime_error) ++
                 [{| fatal := true; message := unexpected_message (std_exception "boom");
                     file := "unknown"; line := 0 |}] |} /\
     marks w' = marks (set_g_output_path "out/r.xml"
                         (startup [adds_numbers; throws_runtime_error; subtracts_numbers] ∅ ∅))
                ++ flat_map (fun t' => executed_marks (func t')) [adds_numbers]
                ++ executed_marks (func throws_runtime_error) /\
     files w' = files (set_g_output_path "out/r.xml"
                         (startup [adds_numbers; throws_runtime_error; subtracts_numbers] ∅ ∅)) /\
     directories w' =
       directories (set_g_output_path "out/r.xml"
                      (startup [adds_numbers; throws_runtime_error; subtracts_numbers] ∅ ∅)) /\
     cerr w' = cerr (set_g_output_path "out/r.xml"
                       (startup [adds_numbers; throws_runtime_error; subtracts_numbers] ∅ ∅))) /\
  (forall argv,
     fst (main demo_env argv
            (set_g_output_path "out/r.xml"
               (startup [adds_numbers; throws_runtime_error; subtracts_numbers] ∅ ∅)))
     = Terminated AssertionException /\
     files (snd (main demo_env argv
                   (set_g_output_path "out/r.xml"
                      (startup [adds_numbers; throws_runtime_error; subtracts_numbers] ∅ ∅))))
     = files (set_g_output_path "out/r.xml"
                (startup [adds_numbers; throws_runtime_error; subtracts_numbers] ∅ ∅))).
Proof.
  apply (unexpected_exception_ends_the_run demo_env
           (set_g_output_path "out/r.xml"
              (startup [adds_numbers; throws_runtime_error; subtracts_numbers] ∅ ∅))
           [adds_numbers] [subtracts_numbers] throws_runtime_error (std_exception "boom")).
  - reflexivity.
  - reflexivity.
  - reflexivity.
  - discriminate.
Defined.

(** ** A report directory that cannot be created *)

Lemma RunAllTests_directory_failure (env : Env) (w : World) :
  forallb (fun t => throws_only_sentinel (func t)) (Registry w) = true ->
  g_output_path w <> EmptyString ->
  can_create_directories env (parent_path env (g_output_path w)) = false ->
  exists w',
    RunAllTests env w =
      (Raised (std_exception (filesystem_error_what env (parent_path env (g_output_path w)))),
       w') /\
    marks w' = marks w ++ flat_map (fun t => executed_marks (func t)) (Registry w) /\
    same_disk w w' /\ same_registry w w'.
Proof.
  intros Hall Hpath Hdir.
  unfold RunAllTests, bind, modify. cbv zeta.
  match goal with
  | |- context [run_tests env 0 (Registry w) ?s ?w0] =>
      destruct (run_tests_sentinel_only env (Registry w) 0 s w0 Hall)
        as (st1 & w2 & Hrun & Hmarks & (Hfiles & Hdirs & Hp) & (Hreg & Hcerr))
  end.
  simpl in Hmarks, Hfiles, Hdirs, Hp, Hreg, Hcerr.
  assert (Hreport : forall w3,
            g_output_path w3 = g_output_path w ->
            WriteXmlReport (Registry w) (all_failures st1) (durations_ms st1) env w3 =
            (Raised (std_exception
                       (filesystem_error_what env (parent_path env (g_output_path w)))), w3)).
  { intros w3 H3. unfold WriteXmlReport. rewrite H3.
    destruct (g_output_path w); [congruence|]. rewrite Hdir. reflexivity. }
  destruct (0 <? failed st1) eqn:Hf;
    eexists; (split; [rewrite Hrun, Hf; unfold ret; rewrite Hreport by exact Hp; reflexivity|]);
    unfold same_disk, same_registry; simpl; auto 10.
Qed.

(** X21. When a destination is set and its directory cannot be created,
    every test still runs, but the exception of [create_directories]
    leaves [WriteXmlReport] and [RunAllTests]: no status is returned,
    whatever the outcome of the tests, no file or directory is written
    and nothing goes to [cerr]. *)
Theorem uncreatable_directory_ends_the_run (env : Env) (w : World) :
  forallb (fun t => throws_only_sentinel (func t)) (Registry w) = true ->
  g_output_path w <> EmptyString ->
  can_create_directories env (parent_path env (g_output_path w)) = false ->
  exists w',
    RunAllTests env w =
      (Raised (std_exception (filesystem_error_what env (parent_path env (g_output_path w)))),
       w') /\
    marks w' = marks w ++ flat_map (fun t => executed_marks (func t)) (Registry w) /\
    files w' = files w /\ directories w' = directories w /\ cerr w' = cerr w.
Proof.
  intros Hall Hpath Hdir.
  destruct (RunAllTests_directory_failure env w Hall Hpath Hdir)
    as (w' & Hrun & Hmarks & (Hf & Hd & _) & (_ & Hcerr)).
  exists w'. auto 10.
Qed.

Lemma uncreatable_directory_ends_the_run_witness :
  exists w',
    RunAllTests readonly_env (set_g_output_path "out/r.xml" (startup three_tests ∅ ∅)) =
      (Raised (std_exception
                 (filesystem_error_what readonly_env
                    (parent_path readonly_env
                       (g_output_path (set_g_output_path "out/r.xml" (startup three_tests ∅ ∅)))))),
       w') /\
    marks w' = marks (set_g_output_path "out/r.xml" (startup three_tests ∅ ∅)) ++
               flat_map (fun t => executed_marks (func t))
                 (Registry (set_g_output_path "out/r.xml" (startup three_tests ∅ ∅))) /\
    files w' = files (set_g_output_path "out/r.xml" (startup three_tests ∅ ∅)) /\
    directories w' = directories (set_g_output_path "out/r.xml" (startup three_tests ∅ ∅)) /\
    cerr w' = cerr (set_g_output_path "out/r.xml" (startup three_tests ∅ ∅)).
Proof.
  apply (uncreatable_directory_ends_the_run readonly_env
           (set_g_output_path "out/r.xml" (startup three_tests ∅ ∅))).
  - reflexivity.
  - discriminate.
  - reflexivity.
Defined.

(** ** Times in fixed notation *)

Lemma list_ascii_of_string_append (a b : string) :
  list_ascii_of_string (String.append a b) = list_ascii_of_string a ++ list_ascii_of_string b.
Proof.
  induction a as [|c a IH]; [reflexivity|].
  change (String.append (String c a) b) with (String c (String.append a b)).
  simpl. rewrite IH. reflexivity.
Qed.

Lemma string_of_uint_digits (d : Decimal.uint) :
  forallb is_digit (list_ascii_of_string (NilEmpty.string_of_uint d)) = true.
Proof. induction d; simpl; try rewrite IHd; reflexivity. Qed.

Lemma show_Z_digits (z : Z) :
  0 <= z ->
  forallb is_digit (list_ascii_of_string (show_Z z)) = true /\
  list_ascii_of_string (show_Z z) <> [].
Proof.
  intros Hz. unfold show_Z. destruct z as [|p|p]; [split; [reflexivity | discriminate] | | lia].
  simpl Z.to_int. unfold NilZero.string_of_int, NilZero.string_of_uint.
  pose proof (string_of_uint_digits (Pos.to_uint p)) as H.
  destruct (Pos.to_uint p) eqn:E; (split; [exact H || reflexivity | simpl; discriminate]).
Qed.

Lemma show_digit (n : Z) :
  0 <= n < 10 -> exists c, show_Z n = String c EmptyString /\ is_digit c = true.
Proof.
  intros H. rewrite <- (Z2Nat.id n) by lia.
  assert (Hk : (Z.to_nat n < 10)%nat) by lia.
  revert Hk. generalize (Z.to_nat n). intros k Hk.
  do 10 (destruct k as [|k]; [eexists; split; reflexivity|]).
  lia.
Qed.

Lemma digits_three (n : Z) :
  exists c1 c2 c3,
    digits 3 n = String c1 (String c2 (String c3 EmptyString)) /\
    is_digit c1 = true /\ is_digit c2 = true /\ is_digit c3 = true.
Proof.
  destruct (show_digit (n mod 10)) as (c3 & E3 & H3); [apply Z.mod_pos_bound; lia|].
  destruct (show_digit (n / 10 mod 10)) as (c2 & E2 & H2); [apply Z.mod_pos_bound; lia|].
  destruct (show_digit (n / 10 / 10 mod 10)) as (c1 & E1 & H1); [apply Z.mod_pos_bound; lia|].
  exists c1, c2, c3. cbn [digits]. rewrite E1, E2, E3. repeat split; assumption.
Qed.

Lemma round_half_even_nonneg (num den : Z) :
  0 <= num -> 0 < den -> 0 <= round_half_even num den.
Proof.
  intros Hn Hd. unfold round_half_even.
  assert (0 <= num / den) by (apply Z.div_pos; lia).
  destruct (2 * (num mod den) ?= den); [destruct (Z.even (num / den)) | |]; lia.
Qed.

Lemma frac_of_positive (m : positive) (e : Z) :
  0 < fst (frac_of m e) /\ 0 < snd (frac_of m e).
Proof.
  unfold frac_of. destruct (0 <=? e) eqn:E; simpl.
  - apply Z.leb_le in E. split; [|lia].
    apply Z.mul_pos_pos; [lia | apply Z.pow_pos_nonneg; lia].
  - apply Z.leb_gt in E. split; [lia | apply Z.pow_pos_nonneg; lia].
Qed.

Lemma three_decimals_text (i f : string) (c1 c2 c3 : ascii) :
  forallb is_digit (list_ascii_of_string i) = true ->
  list_ascii_of_string i <> [] ->
  f = String c1 (String c2 (String c3 EmptyString)) ->
  is_digit c1 = true -> is_digit c2 = true -> is_digit c3 = true ->
  three_decimals (String.append EmptyString (with_point i f)) = true.
Proof.
  intros Hi Hne -> H1 H2 H3.
  change (String.append EmptyString ?s) with s.
  unfold with_point, cat. cbn [fold_right].
  unfold three_decimals.
  rewrite !list_ascii_of_string_append. simpl list_ascii_of_string.
  rewrite rev_app_distr. simpl rev at 1. simpl app at 1.
  assert (Hr : forallb is_digit (rev (list_ascii_of_string i)) = true).
  { apply forallb_forall. intros x Hx. apply in_rev in Hx.
    revert x Hx. apply forallb_forall. exact Hi. }
  destruct (rev (list_ascii_of_string i)) as [|d rest] eqn:E.
  - apply (f_equal (@rev ascii)) in E. rewrite rev_involutive in E. simpl in E. congruence.
  - simpl in Hr. simpl. rewrite H1, H2, H3, Hr. reflexivity.
Qed.

Lemma render_fixed_three_decimals (x : float) :
  nonnegative_finite x = true -> three_decimals (render_fixed 3 x) = true.
Proof.
  unfold nonnegative_finite, render_fixed. intros H.
  destruct (Prim2SF x) as [[|]|[|]| |[|] m e]; try discriminate; [reflexivity|].
  destruct (frac_of_positive m e) as [Hnum Hden].
  destruct (frac_of m e) as [num den]. simpl in Hnum, Hden.
  set (n := round_half_even (num * 10 ^ Z.of_nat 3) den).
  assert (Hn : 0 <= n) by (apply round_half_even_nonneg; lia).
  destruct (digits_three (n mod 10 ^ Z.of_nat 3)) as (c1 & c2 & c3 & Hd & H1 & H2 & H3).
  destruct (show_Z_digits (n / 10 ^ Z.of_nat 3)) as [Hi Hne]; [apply Z.div_pos; lia|].
  exact (three_decimals_text _ _ c1 c2 c3 Hi Hne Hd H1 H2 H3).
Qed.

Lemma emit_testsuites_fixed (tests : list TestInfo) (fs : list (list AssertionRecord))
    (ds : list float) (m : suite_map_t) :
  fst (emit_testsuites tests fs ds fixed3 m) =
  cat (map (fun e => fst (emit_testsuite tests fs ds fixed3 e)) m).
Proof.
  induction m as [|[s idxs] m IH]; [reflexivity|].
  rewrite emit_testsuites_cons.
  assert (Hfmt : snd (emit_testsuite tests fs ds fixed3 (s, idxs)) = fixed3).
  { unfold emit_testsuite.
    pose proof (emit_testcases_leaves_fixed tests fs ds s fixed3 idxs (or_intror eq_refl)) as H.
    destruct (emit_testcases tests fs ds s fixed3 idxs). exact H. }
  rewrite Hfmt, IH. reflexivity.
Qed.

(** X22. Every [testcase] time, and the time of every [testsuite] but the
    first of the report, is streamed in fixed notation with precision 3:
    the suites after the first are all written under the format the first
    [testcase] left on the stream.  For a value that is zero or positive
    and finite that text is a run of digits, a point and exactly three
    digits. *)
Theorem later_times_have_three_decimals (tests : list TestInfo)
    (fs : list (list AssertionRecord)) (ds : list float)
    (s : string) (idxs : list nat) (rest : suite_map_t) :
  build_suite_map tests = (s, idxs) :: rest ->
  fst (emit_testsuites tests fs ds ios_init (build_suite_map tests)) =
    String.append (fst (emit_testsuite tests fs ds ios_init (s, idxs)))
      (cat (map (fun e => fst (emit_testsuite tests fs ds fixed3 e)) rest)) /\
  (forall s' idxs',
     fst (emit_testsuite tests fs ds fixed3 (s', idxs')) =
     cat [testsuite_open s' (length idxs') (suite_failures fs idxs')
            (render_fixed 3 (suite_time ds idxs'));
          fst (emit_testcases tests fs ds s' fixed3 idxs');
          "  </testsuite>"; nl]) /\
  (forall fmt s' idx,
     exists tail,
       fst (emit_testcase tests fs ds s' fmt idx) =
       String.append
         (testcase_open (name (test_at tests idx)) (result_of (failures_at fs idx))
            (render_fixed 3 (seconds (duration_at ds idx))) s')
         tail) /\
  (forall x, nonnegative_finite x = true -> three_decimals (render_fixed 3 x) = true).
Proof.
  intros Hm. split; [|split; [|split]].
  - destruct (build_suite_map_grouped tests) as (_ & Hin & _).
    rewrite Hm in *.
    destruct (Hin s idxs (or_introl eq_refl)) as [_ Hne].
    rewrite emit_testsuites_cons.
    assert (Hfmt : snd (emit_testsuite tests fs ds ios_init (s, idxs)) = fixed3).
    { unfold emit_testsuite.
      pose proof (emit_testcases_leaves_fixed tests fs ds s ios_init idxs (or_introl Hne)) as H.
      destruct (emit_testcases tests fs ds s ios_init idxs). exact H. }
    rewrite Hfmt, emit_testsuites_fixed. reflexivity.
  - intros s' idxs'. apply emit_testsuite_text.
  - intros fmt s' idx. apply testcase_time_fixed.
  - apply render_fixed_three_decimals.
Qed.

Lemma later_times_have_three_decimals_witness :
  fst (emit_testsuites three_tests three_results three_durations ios_init
         (build_suite_map three_tests)) =
    String.append
      (fst (emit_testsuite three_tests three_results three_durations ios_init
              ("Calculator"%string, [0; 1]%nat)))
      (cat (map (fun e => fst (emit_testsuite three_tests three_results three_durations fixed3 e))
              [("Queue"%string, [2%nat])])) /\
  (forall s' idxs',
     fst (emit_testsuite three_tests three_results three_durations fixed3 (s', idxs')) =
     cat [testsuite_open s' (length idxs') (suite_failures three_results idxs')
            (render_fixed 3 (suite_time three_durations idxs'));
          fst (emit_testcases three_tests three_results three_durations s' fixed3 idxs');
          "  </testsuite>"; nl]) /\
  (forall fmt s' idx,
     exists tail,
       fst (emit_testcase three_tests three_results three_durations s' fmt idx) =
       String.append
         (testcase_open (name (test_at three_tests idx))
            (result_of (failures_at three_results idx))
            (render_fixed 3 (seconds (duration_at three_durations idx))) s')
         tail) /\
  (forall x, nonnegative_finite x = true -> three_decimals (render_fixed 3 x) = true).
Proof.
  apply (later_times_have_three_decimals three_tests three_results three_durations
           "Calculator" [0; 1]%nat [("Queue"%string, [2%nat])]).
  reflexivity.
Defined.
